(** * sculpt-s3files: stored files, derivations and the image pipeline

    A shallow embedding of [base.py] (the [AbstractStoredFile] model),
    [process_images.py] (the [process_image] pipeline) and the result set
    of the upload view of [views.py], with the properties of the design
    document stated and settled against the code, and further properties
    read off the code.

    Conventions of the embedding:
    - Python [str] values are [list ascii]; Python [int]s are [Z]; Python
      [float]s are the IEEE 754 binary64 numbers of [PrimFloat].
    - A Python call that may raise returns a [result]; code that mutates
      objects threads the store it mutates.
    - The Pillow image objects live in a heap of image values, addressed by
      reference, so that identity ([is]) and in-place mutation ([paste],
      [thumbnail]) are visible. *)

From Stdlib Require Import ZArith List Ascii String Floats Lia Bool.
From stdpp Require Import base option list gmap strings.

Local Open Scope Z_scope.

(** ** Python values and exceptions *)

Module Py.

Definition str := list ascii.

(** A literal of the source, as a Python [str]. *)
Definition lit (s : string) : str := list_ascii_of_string s.

(** The exceptions the modelled code can meet.  All of them derive from
    [Exception]; [IOError] and [OSError] are siblings below
    [EnvironmentError], and [UnboundLocalError] derives from [NameError]. *)
Inductive exc : Type :=
| NameError (name : str)
| UnboundLocalError (name : str)
| AttributeError (name : str)
| ZeroDivisionError
| OverflowError
| ValueError
| IOError
| OSError
| SystemError
| DatabaseError
| Exception (msg : str).

Inductive result (A : Type) : Type :=
| Ok (a : A)
| Raise (e : exc).
Arguments Ok {A} a.
Arguments Raise {A} e.

Definition is_ok {A} (r : result A) : bool :=
  match r with Ok _ => true | Raise _ => false end.

(** [except IOError]: the clause catches [IOError] only. *)
Definition is_IOError (e : exc) : bool :=
  match e with IOError => true | _ => false end.

Definition bind {A B} (r : result A) (k : A -> result B) : result B :=
  match r with Ok a => k a | Raise e => Raise e end.

(** [range(n)] for a Python [int] [n]. *)
Definition range (n : Z) : list Z := map Z.of_nat (seq 0 (Z.to_nat n)).

(** An index of a slice, clamped as [PySlice_GetIndices] does for a
    sequence of length [len]. *)
Definition clamp (len i : Z) : Z :=
  if i <? 0 then Z.max 0 (i + len) else Z.min i len.

(** [s[lo:hi]]. *)
Definition slice (s : str) (lo hi : Z) : str :=
  let len := Z.of_nat (length s) in
  let a := clamp len lo in
  let b := clamp len hi in
  take (Z.to_nat (b - a)) (drop (Z.to_nat a) s).

(** [s[lo:]]. *)
Definition slice_from (s : str) (lo : Z) : str :=
  drop (Z.to_nat (clamp (Z.of_nat (length s)) lo)) s.

(** [s.rfind(c)] for a one-character [c]: the highest index, or [-1]. *)
Fixpoint rfind_from (c : ascii) (s : str) (i : Z) (found : Z) : Z :=
  match s with
  | [] => found
  | a :: s' => rfind_from c s' (i + 1) (if Ascii.eqb a c then i else found)
  end.
Definition rfind (c : ascii) (s : str) : Z := rfind_from c s 0 (-1).

Definition startswith_char (c : ascii) (s : str) : bool :=
  match s with a :: _ => Ascii.eqb a c | [] => false end.

Definition endswith_char (c : ascii) (s : str) : bool :=
  match last s with Some a => Ascii.eqb a c | None => false end.

(** ** [int] of a string *)

(** [isspace] of C, in the C locale: the blank and the controls 9 to 13. *)
Definition is_space (c : ascii) : bool :=
  let n := nat_of_ascii c in
  (n =? 32)%nat || ((9 <=? n)%nat && (n <=? 13)%nat).

Fixpoint skip_spaces (s : str) : str :=
  match s with
  | c :: s' => if is_space c then skip_spaces s' else s
  | [] => []
  end.

Definition digit_value (c : ascii) : option Z :=
  let n := Z.of_nat (nat_of_ascii c) in
  if (48 <=? n) && (n <=? 57) then Some (n - 48) else None.

(** The decimal digits at the head of [s]: their value after [acc], and
    what follows them. *)
Fixpoint read_digits (s : str) (acc : Z) : Z * str :=
  match s with
  | c :: s' =>
      match digit_value c with
      | Some d => read_digits s' (10 * acc + d)
      | None => (acc, s)
      end
  | [] => (acc, [])
  end.

(** [int(s)] of a [str], in base 10: blanks, an optional sign, at least
    one decimal digit, blanks; anything else raises [ValueError]. *)
Definition int_of_str (s : str) : result Z :=
  let s := skip_spaces s in
  let signed :=
    match s with
    | c :: t => if Ascii.eqb c "+" then (false, t)
                else if Ascii.eqb c "-" then (true, t)
                else (false, s)
    | [] => (false, s)
    end in
  match signed.2 with
  | c :: _ =>
      match digit_value c with
      | Some _ =>
          let read := read_digits signed.2 0 in
          if bool_decide (skip_spaces read.2 = [])
          then Ok (if signed.1 : bool then - read.1 else read.1)
          else Raise ValueError
      | None => Raise ValueError
      end
  | [] => Raise ValueError
  end.

(** ** Floats *)

(** [float(n)] of an [int]: rounded to the nearest binary64; an [int]
    beyond the range of a float raises [OverflowError]. *)
Definition float_of_int (n : Z) : result float :=
  let f := SF2Prim (binary_normalize prec emax n 0 false) in
  if PrimFloat.is_infinity f then Raise OverflowError else Ok f.

(** [int(f)]: truncation toward zero; [nan] raises [ValueError] and an
    infinity [OverflowError]. *)
Definition int_of_float (f : float) : result Z :=
  match Prim2SF f with
  | S754_zero _ => Ok 0
  | S754_finite s m e =>
      let mag := if 0 <=? e then Z.pos m * 2 ^ e else Z.pos m / 2 ^ (- e) in
      Ok (if s then - mag else mag)
  | S754_infinity _ => Raise OverflowError
  | S754_nan => Raise ValueError
  end.

(** [a / b] on floats: a zero divisor raises. *)
Definition float_div (a b : float) : result float :=
  if PrimFloat.eqb b 0%float then Raise ZeroDivisionError
  else Ok (PrimFloat.div a b).

(** [round(f)] of Python 2, as an integer: to the nearest, halves away
    from zero.  Only the design document speaks of rounding; the code
    never calls it. *)
Definition round_half_away (f : float) : result Z :=
  if PrimFloat.ltb f 0%float
  then bind (int_of_float (PrimFloat.sub f 0.5%float)) Ok
  else bind (int_of_float (PrimFloat.add f 0.5%float)) Ok.

End Py.

Import Py.

Notation "x <- r ;;; k" := (Py.bind r (fun x => k))
  (at level 100, r at next level, right associativity, only parsing).

(** ** [os.path] on a POSIX host *)

Module PosixPath.

Definition sep : ascii := "/"%char.
Definition extsep : ascii := "."%char.

(** The loop of [genericpath._splitext] that skips the leading dots of
    the last component: true as soon as one character between
    [filenameIndex] and [dotIndex] is not a dot. *)
Fixpoint has_non_dot (between : str) : bool :=
  match between with
  | [] => false
  | c :: rest => if negb (Ascii.eqb c extsep) then true else has_non_dot rest
  end.

(** [os.path.splitext(p)]. *)
Definition splitext (p : str) : str * str :=
  let sepIndex := rfind sep p in
  let dotIndex := rfind extsep p in
  if (sepIndex <? dotIndex) && has_non_dot (slice p (sepIndex + 1) dotIndex)
  then (slice p 0 dotIndex, slice_from p dotIndex)
  else (p, []).

(** One turn of the loop of [posixpath.join]. *)
Definition join2 (path b : str) : str :=
  if startswith_char sep b then b
  else if bool_decide (path = []) || endswith_char sep path then path ++ b
  else path ++ sep :: b.

(** [os.path.join] of [a] and the further components [p]. *)
Definition join (a : str) (p : list str) : str := fold_left join2 p a.

(** [os.path.join] applied to the unpacked list [dirs]: with no argument
    at all the call is a [TypeError]; the callers here always pass one. *)
Definition join_all (dirs : list str) : str :=
  match dirs with
  | [] => []
  | a :: p => join a p
  end.

End PosixPath.

(** ** Settings ([default_settings.py]) *)

Record Settings := {
  SCULPT_S3FILES_CHECK_IMAGES : bool;
  SCULPT_S3FILES_REMOTE_MODE : str;
  SCULPT_S3FILES_LOCAL_DIR : str;
  SCULPT_S3FILES_SPLIT_CHARS : Z;
  SCULPT_S3FILES_SPLIT_LEVELS : Z;
  SCULPT_S3FILES_INTERNAL_URL : str;
  SCULPT_S3FILES_EXTERNAL_URL : str;
  SCULPT_S3FILES_DUMP_DERIVATIONS : bool;
}.

(** The defaults of [default_settings.py]; [MEDIA_ROOT] and [MEDIA_URL]
    come from the project that includes them. *)
Definition default_settings (MEDIA_ROOT MEDIA_URL : str) : Settings := {|
  SCULPT_S3FILES_CHECK_IMAGES := true;
  SCULPT_S3FILES_REMOTE_MODE := lit "local";
  SCULPT_S3FILES_LOCAL_DIR := MEDIA_ROOT;
  SCULPT_S3FILES_SPLIT_CHARS := 1;
  SCULPT_S3FILES_SPLIT_LEVELS := 2;
  SCULPT_S3FILES_INTERNAL_URL := MEDIA_URL;
  SCULPT_S3FILES_EXTERNAL_URL := MEDIA_URL;
  SCULPT_S3FILES_DUMP_DERIVATIONS := false;
|}.

(** ** Computations on a store that may raise

    The store is returned also when the computation raises: what was
    mutated before the exception stays mutated. *)

Module Eff.

Definition M (S A : Type) : Type := S -> S * result A.

Definition ret {S A} (a : A) : M S A := fun s => (s, Ok a).
Definition throw {S A} (e : exc) : M S A := fun s => (s, Raise e).
Definition lift {S A} (r : result A) : M S A := fun s => (s, r).
Definition bind {S A B} (m : M S A) (k : A -> M S B) : M S B :=
  fun s => match m s with
           | (s', Ok a) => k a s'
           | (s', Raise e) => (s', Raise e)
           end.
Definition get {S} : M S S := fun s => (s, Ok s).
Definition modify {S} (f : S -> S) : M S unit := fun s => (f s, Ok tt).

(** [try: m  except <caught>: handler]. *)
Definition try_except {S A} (m : M S A) (caught : exc -> bool)
    (handler : exc -> M S A) : M S A :=
  fun s => match m s with
           | (s', Ok a) => (s', Ok a)
           | (s', Raise e) => if caught e then handler e s' else (s', Raise e)
           end.

(** A computation on one component of the store. *)
Definition zoom {S T A} (proj : S -> T) (inj : T -> S -> S) (m : M T A) : M S A :=
  fun s => let '(t, r) := m (proj s) in (inj t s, r).

End Eff.

Import Eff.

Notation "x <~ m ;; k" := (Eff.bind m (fun x => k))
  (at level 100, m at next level, right associativity, only parsing).

(** ** Pillow images, as objects in a heap

    The codec and the resampling filter are outside the repository.  What
    an image holds is recorded as the history of the library calls that
    produced it: two images with the same history hold the same pixels,
    whatever the library computes. *)

Module PIL.

Definition box : Type := Z * Z * Z * Z.
Definition color : Type := Z * Z * Z.

Inductive pixels : Type :=
| Decoded (tag : Z)
| Converted (mode : str) (p : pixels)
| Cropped (b : box) (p : pixels)
| Filled (sz : Z * Z) (c : option color)
| Pasted (onto : pixels) (src : pixels) (b : box)
| Resampled (sz : Z * Z) (p : pixels).

Record image := {
  im_size : Z * Z;
  im_mode : str;
  im_data : pixels;
}.

Definition ref := nat.
Definition heap := list image.

Definition H (A : Type) : Type := Eff.M heap A.

(** Reading through a reference.  A reference that points nowhere cannot
    be built by a Python program; the model answers [SystemError]. *)
Definition read (r : ref) : H image :=
  fun h => match h !! r with
           | Some i => (h, Ok i)
           | None => (h, Raise SystemError)
           end.

Definition alloc (i : image) : H ref :=
  fun h => (h ++ [i], Ok (length h)).

Definition write (r : ref) (i : image) : H unit :=
  fun h => (<[r := i]> h, Ok tt).

End PIL.

Import PIL.

Module Image.

(** [im.convert(mode = m)]: a new image. *)
Definition convert (r : ref) (m : str) : H ref :=
  i <~ read r ;;
  alloc {| im_size := im_size i; im_mode := m; im_data := Converted m (im_data i) |}.

(** [im.crop(box)]: a new image of the size of the box. *)
Definition crop (r : ref) (b : box) : H ref :=
  i <~ read r ;;
  let '(x0, y0, x1, y1) := b in
  alloc {| im_size := (x1 - x0, y1 - y0); im_mode := im_mode i;
           im_data := Cropped b (im_data i) |}.

(** [Image.new(mode, size, color)]. *)
Definition new (m : str) (sz : Z * Z) (c : option color) : H ref :=
  alloc {| im_size := sz; im_mode := m; im_data := Filled sz c |}.

(** [im.paste(src, box)]: [im] is changed in place. *)
Definition paste (r : ref) (src : ref) (b : box) : H unit :=
  i <~ read r ;;
  s <~ read src ;;
  write r {| im_size := im_size i; im_mode := im_mode i;
             im_data := Pasted (im_data i) (im_data s) b |}.

(** [a / b] on Python 2 [int]s: the floor of the quotient. *)
Definition floordiv (a b : Z) : result Z :=
  if b =? 0 then Raise ZeroDivisionError else Ok (a / b).

(** The size [im.thumbnail(size)] settles on:
    [x, y = self.size]
    [if x > size[0]: y = max(y * size[0] / x, 1); x = size[0]]
    [if y > size[1]: x = max(x * size[1] / y, 1); y = size[1]]. *)
Definition thumbnail_size (cur target : Z * Z) : result (Z * Z) :=
  let '(x, y) := cur in
  xy1 <- (if target.1 <? x
          then q <- floordiv (y * target.1) x ;;; Ok (target.1, Z.max q 1)
          else Ok (x, y)) ;;;
  let '(x1, y1) := xy1 in
  if target.2 <? y1
  then q <- floordiv (x1 * target.2) y1 ;;; Ok (Z.max q 1, target.2)
  else Ok (x1, y1).

(** [im.thumbnail(size, Image.ANTIALIAS)]: [im] is changed in place,
    unless it already has the size settled on. *)
Definition thumbnail (r : ref) (target : Z * Z) : H unit :=
  i <~ read r ;;
  sz <~ lift (thumbnail_size (im_size i) target) ;;
  if bool_decide (sz = im_size i) then ret tt
  else write r {| im_size := sz; im_mode := im_mode i;
                  im_data := Resampled sz (im_data i) |}.

End Image.

(** ** [process_images.py] *)

Inductive RESIZE_MODES := CROP | EXPAND | MINIMUM_SIZE | MAXIMUM_SIZE.
Inductive ANCHOR_HORIZONTAL := LEFT | CENTER | RIGHT.
Inductive ANCHOR_VERTICAL := TOP | VCENTER | BOTTOM.

#[global] Instance RESIZE_MODES_eq_dec : EqDecision RESIZE_MODES.
Proof. solve_decision. Defined.

(** One entry of a rule's [operations] list. *)
Record Operation := {
  operation : str;
  target_size : Z * Z;
  resize_mode : RESIZE_MODES;
  anchor_horizontal : ANCHOR_HORIZONTAL;
  anchor_vertical : ANCHOR_VERTICAL;
  background_color : option color;
}.

(** The local variables of [process_image] that outlive one turn of its
    loop.  A local that no turn has assigned yet is unbound ([None]);
    reading it raises [UnboundLocalError]. *)
Record Locals := {
  working_image : ref;
  next_size : option (Z * Z);
  next_image : option ref;
  crop_box : option box;
}.

Definition local {A} (name : string) (v : option A) : H A :=
  match v with
  | Some a => ret a
  | None => throw (UnboundLocalError (lit name))
  end.

Section ProcessImage.

Variable settings : Settings.

(** The aspect ratios and [is_too_wide]. *)
Definition aspect_ratio (sz : Z * Z) : result float :=
  a <- float_of_int sz.1 ;;;
  b <- float_of_int sz.2 ;;;
  float_div a b.

(** The assignment to [next_size]: none for the two unimplemented modes
    ([pass]), so the local keeps whatever an earlier turn left in it. *)
Definition compute_next_size (op : Operation) (wsize : Z * Z)
    (target_aspect_ratio : float) (is_too_wide : bool)
    (stale : option (Z * Z)) : result (option (Z * Z)) :=
  match resize_mode op with
  | MINIMUM_SIZE => Ok stale
  | MAXIMUM_SIZE => Ok stale
  | _ =>
      if (bool_decide (resize_mode op = CROP) && is_too_wide)
         || (bool_decide (resize_mode op = EXPAND) && negb is_too_wide)
      then
        (* determine the size by the height *)
        fh <- float_of_int wsize.2 ;;;
        nw <- int_of_float (PrimFloat.mul fh target_aspect_ratio) ;;;
        Ok (Some (nw, wsize.2))
      else
        (* determine the size by the width *)
        fw <- float_of_int wsize.1 ;;;
        q <- float_div fw target_aspect_ratio ;;;
        nh <- int_of_float q ;;;
        Ok (Some (wsize.1, nh))
  end.

(** The first lines of the resize step, up to [next_size]:
    [current_aspect_ratio], [target_aspect_ratio], [is_too_wide] and the
    size the working image is cropped or padded to. *)
Definition intermediate_size (op : Operation) (wsize : Z * Z)
    (stale : option (Z * Z)) : result (option (Z * Z)) :=
  current_aspect_ratio <- aspect_ratio wsize ;;;
  target_aspect_ratio <- aspect_ratio (target_size op) ;;;
  let is_too_wide := PrimFloat.ltb target_aspect_ratio current_aspect_ratio in
  compute_next_size op wsize target_aspect_ratio is_too_wide stale.

(** The anchor point.  [(a - b) / 2] is the floor division of Python 2
    and [int] of it changes nothing. *)
Definition anchor_x (op : Operation) (wsize : Z * Z) (ns : option (Z * Z)) : H Z :=
  match anchor_horizontal op with
  | LEFT => ret 0
  | CENTER => n <~ local "next_size" ns ;; ret ((wsize.1 - n.1) / 2)
  | RIGHT => n <~ local "next_size" ns ;; ret (wsize.1 - n.1)
  end.

Definition anchor_y (op : Operation) (wsize : Z * Z) (ns : option (Z * Z)) : H Z :=
  match anchor_vertical op with
  | TOP => ret 0
  | VCENTER => n <~ local "next_size" ns ;; ret ((wsize.2 - n.2) / 2)
  | BOTTOM => n <~ local "next_size" ns ;; ret (wsize.2 - n.2)
  end.

(** The body of [if op['operation'] == 'resize':]. *)
Definition resize (op : Operation) (l : Locals) : H Locals :=
  w <~ read (working_image l) ;;
  ns <~ lift (intermediate_size op (im_size w) (next_size l)) ;;
  x <~ anchor_x op (im_size w) ns ;;
  y <~ anchor_y op (im_size w) ns ;;
  (* force_rgb is True *)
  wi <~ (if bool_decide (im_mode w = lit "RGB") then ret (working_image l)
         else Image.convert (working_image l) (lit "RGB")) ;;
  wcur <~ read wi ;;
  match resize_mode op with
  | CROP =>
      n <~ local "next_size" ns ;;
      let cb := (x, y, x + n.1, y + n.2) in
      ni <~ Image.crop wi cb ;;
      _ <~ Image.thumbnail ni (target_size op) ;;
      ret {| working_image := wi; next_size := ns; next_image := Some ni;
             crop_box := Some cb |}
  | _ =>
      let paste_box := (- x, - y, - x + (im_size wcur).1, - y + (im_size wcur).2) in
      n <~ local "next_size" ns ;;
      ni <~ Image.new (lit "RGB") n (background_color op) ;;
      _ <~ Image.paste ni wi paste_box ;;
      (* the debugging line of this branch prints crop_box *)
      _ <~ (if SCULPT_S3FILES_DUMP_DERIVATIONS settings
            then local "crop_box" (crop_box l) else ret (0, 0, 0, 0)) ;;
      _ <~ Image.thumbnail ni (target_size op) ;;
      ret {| working_image := wi; next_size := ns; next_image := Some ni;
             crop_box := crop_box l |}
  end.

(** One turn of [for op in operations:].  [del working_image] unbinds
    the name and leaves the heap alone. *)
Definition turn (op : Operation) (l : Locals) : H Locals :=
  l1 <~ (if bool_decide (operation op = lit "resize") then resize op l else ret l) ;;
  ni <~ local "next_image" (next_image l1) ;;
  ret {| working_image := ni; next_size := next_size l1;
         next_image := next_image l1; crop_box := crop_box l1 |}.

Fixpoint turns (operations : list Operation) (l : Locals) : H Locals :=
  match operations with
  | [] => ret l
  | op :: rest => l' <~ turn op l ;; turns rest l'
  end.

Definition process_image (source_image : ref) (operations : list Operation) : H ref :=
  l <~ turns operations
         {| working_image := source_image; next_size := None;
            next_image := None; crop_box := None |} ;;
  ret (working_image l).

End ProcessImage.


(** ** [base.py]: the data model *)

Inductive REMOTE_STATUS :=
| LOCAL_CORRUPT | LOCAL_INCOMPLETE | LOCAL_ONLY | LOCAL_READY | IN_PROGRESS | REMOTE_ONLY.

Inductive DERIVATION_MODES := MANUAL | LAZY | IMMEDIATELY.

#[global] Instance REMOTE_STATUS_eq_dec : EqDecision REMOTE_STATUS.
Proof. solve_decision. Defined.
#[global] Instance DERIVATION_MODES_eq_dec : EqDecision DERIVATION_MODES.
Proof. solve_decision. Defined.

(** The integer stored for a status. *)
Definition REMOTE_STATUS_value (s : REMOTE_STATUS) : Z :=
  match s with
  | LOCAL_CORRUPT => -1
  | LOCAL_INCOMPLETE => 0
  | LOCAL_ONLY => 1
  | LOCAL_READY => 2
  | IN_PROGRESS => 3
  | REMOTE_ONLY => 4
  end.

(** One row of the [DERIVATION_TYPES] enumeration, with its labels
    [('value','id','label','mode','operations')]. *)
Record DerivationRule := {
  rule_value : Z;
  rule_id : str;
  rule_label : str;
  rule_mode : DERIVATION_MODES;
  rule_operations : list Operation;
}.

(** The enumeration of [AbstractStoredFile] itself. *)
Definition DERIVATION_TYPES_default : list DerivationRule :=
  [ {| rule_value := 0; rule_id := lit "THUMBNAIL"; rule_label := lit "Thumbnail";
       rule_mode := IMMEDIATELY;
       rule_operations :=
         [ {| operation := lit "resize"; target_size := (50, 50);
              resize_mode := CROP; anchor_horizontal := CENTER;
              anchor_vertical := VCENTER; background_color := None |} ] |} ].

(** [Enumeration.get_data_by_id] of [sculpt.common]: the row with that id,
    or [None]. *)
Definition get_data_by_id (table : list DerivationRule) (k : str) : option DerivationRule :=
  find (fun r => bool_decide (rule_id r = k)) table.

(** What a class derived from [AbstractStoredFile] fixes.  [file_class] is
    the enumeration reached through the attribute of that name, which
    [generate_immediate_derivations] reads on the record; the abstract
    class defines no such attribute, an application class may. *)
Record StoredFileClass := {
  DERIVATION_TYPES : list DerivationRule;
  file_class : option (list DerivationRule);
}.

Definition AbstractStoredFile : StoredFileClass :=
  {| DERIVATION_TYPES := DERIVATION_TYPES_default; file_class := None |}.

(** The columns of a record. *)
Record StoredFile := {
  pk : option Z;
  hash : option str;
  original_filename : option str;
  file_size : option Z;
  width : option Z;
  height : option Z;
  mime_type : option str;
  generated_filename : option str;
  is_valid : option bool;
  remote_status : REMOTE_STATUS;
  derived_from : option Z;
  derivation_type : option Z;
  date_created : Z;
  date_stored : option Z;
  date_expires : option Z;
}.

#[global] Instance StoredFile_eq_dec : EqDecision StoredFile.
Proof. solve_decision. Defined.

(** A record loaded in memory: its columns and the per-instance
    [_derivation_cache], [None] until first used, then a dict from the
    derivation type asked for to the derived record or [None]. *)
Record Instance := {
  columns : StoredFile;
  _derivation_cache : option (gmap str (option StoredFile));
}.

(** The columns [save(update_fields = ...)] is asked to write. *)
Inductive Field := F_hash | F_generated_filename | F_is_valid | F_remote_status.

#[global] Instance Field_eq_dec : EqDecision Field.
Proof. solve_decision. Defined.

Definition set_hash (v : option str) (r : StoredFile) : StoredFile :=
  {| pk := pk r; hash := v; original_filename := original_filename r;
     file_size := file_size r; width := width r; height := height r;
     mime_type := mime_type r; generated_filename := generated_filename r;
     is_valid := is_valid r; remote_status := remote_status r;
     derived_from := derived_from r; derivation_type := derivation_type r;
     date_created := date_created r; date_stored := date_stored r;
     date_expires := date_expires r |}.

Definition set_generated_filename (v : option str) (r : StoredFile) : StoredFile :=
  {| pk := pk r; hash := hash r; original_filename := original_filename r;
     file_size := file_size r; width := width r; height := height r;
     mime_type := mime_type r; generated_filename := v;
     is_valid := is_valid r; remote_status := remote_status r;
     derived_from := derived_from r; derivation_type := derivation_type r;
     date_created := date_created r; date_stored := date_stored r;
     date_expires := date_expires r |}.

Definition set_is_valid (v : option bool) (r : StoredFile) : StoredFile :=
  {| pk := pk r; hash := hash r; original_filename := original_filename r;
     file_size := file_size r; width := width r; height := height r;
     mime_type := mime_type r; generated_filename := generated_filename r;
     is_valid := v; remote_status := remote_status r;
     derived_from := derived_from r; derivation_type := derivation_type r;
     date_created := date_created r; date_stored := date_stored r;
     date_expires := date_expires r |}.

Definition set_remote_status (v : REMOTE_STATUS) (r : StoredFile) : StoredFile :=
  {| pk := pk r; hash := hash r; original_filename := original_filename r;
     file_size := file_size r; width := width r; height := height r;
     mime_type := mime_type r; generated_filename := generated_filename r;
     is_valid := is_valid r; remote_status := v;
     derived_from := derived_from r; derivation_type := derivation_type r;
     date_created := date_created r; date_stored := date_stored r;
     date_expires := date_expires r |}.

Definition set_pk (v : option Z) (r : StoredFile) : StoredFile :=
  {| pk := v; hash := hash r; original_filename := original_filename r;
     file_size := file_size r; width := width r; height := height r;
     mime_type := mime_type r; generated_filename := generated_filename r;
     is_valid := is_valid r; remote_status := remote_status r;
     derived_from := derived_from r; derivation_type := derivation_type r;
     date_created := date_created r; date_stored := date_stored r;
     date_expires := date_expires r |}.

(** Copying one column of the record in memory into the stored row. *)
Definition copy_field (mem : StoredFile) (f : Field) (row : StoredFile) : StoredFile :=
  match f with
  | F_hash => set_hash (hash mem) row
  | F_generated_filename => set_generated_filename (generated_filename mem) row
  | F_is_valid => set_is_valid (is_valid mem) row
  | F_remote_status => set_remote_status (remote_status mem) row
  end.

(** ** The collaborators: hashing, the file system, the codec *)

(** What a file on the local disk holds: the bytes written by
    [write_to_disk], or an image as the codec encoded it. *)
Inductive FileContent :=
| Bytes (b : str)
| Encoded (i : image).

Record Env := {
  (* AbstractAutoHash.generate_hash: keyed hash of the record and entropy *)
  auto_hash : nat -> StoredFile -> str;
  (* os.path.exists of a directory *)
  dir_exists : str -> bool;
  (* os.makedirs raises OSError *)
  makedirs_fails : str -> bool;
  (* writing a file at this path raises IOError *)
  write_fails : str -> bool;
  (* what a write that raises leaves at the path: nothing new when the
     file could not even be opened, so that the path is as it was;
     otherwise what the file, opened and truncated, holds of the content:
     the part that got through, possibly none of it *)
  partial_write : str -> FileContent -> option FileContent;
  (* Image.open of this path: the decoded image, or IOError *)
  decode : str -> option image;
  (* timezone.now() *)
  now : Z;
}.

(** A call of [save] that reached the store, for the record with this
    primary key; [None] for [update_fields] means all columns. *)
Record SaveCall := {
  saved_pk : Z;
  saved_fields : option (list Field);
}.

(** A call of [generate_derivation], with its two arguments. *)
Record GenerateCall := {
  called_derivation_type : str;
  called_original_image : option ref;
}.

(** The world the model code runs in.  [calls] and [saves] only record
    what happened; no code reads them. *)
Record World := {
  images : heap;
  rows : list StoredFile;
  next_pk : Z;
  disk : gmap str FileContent;
  entropy : nat;
  calls : list GenerateCall;
  saves : list SaveCall;
}.

Definition W (A : Type) : Type := Eff.M World A.

Definition with_images (h : heap) (w : World) : World :=
  {| images := h; rows := rows w; next_pk := next_pk w; disk := disk w;
     entropy := entropy w; calls := calls w; saves := saves w |}.
Definition with_rows (r : list StoredFile) (w : World) : World :=
  {| images := images w; rows := r; next_pk := next_pk w; disk := disk w;
     entropy := entropy w; calls := calls w; saves := saves w |}.
Definition with_next_pk (n : Z) (w : World) : World :=
  {| images := images w; rows := rows w; next_pk := n; disk := disk w;
     entropy := entropy w; calls := calls w; saves := saves w |}.
Definition with_disk (d : gmap str FileContent) (w : World) : World :=
  {| images := images w; rows := rows w; next_pk := next_pk w; disk := d;
     entropy := entropy w; calls := calls w; saves := saves w |}.
Definition with_entropy (n : nat) (w : World) : World :=
  {| images := images w; rows := rows w; next_pk := next_pk w; disk := disk w;
     entropy := n; calls := calls w; saves := saves w |}.
Definition with_calls (c : list GenerateCall) (w : World) : World :=
  {| images := images w; rows := rows w; next_pk := next_pk w; disk := disk w;
     entropy := entropy w; calls := c; saves := saves w |}.
Definition with_saves (c : list SaveCall) (w : World) : World :=
  {| images := images w; rows := rows w; next_pk := next_pk w; disk := disk w;
     entropy := entropy w; calls := calls w; saves := c |}.

(** Pillow calls, run on the images of the world. *)
Definition pil {A} (m : H A) : W A := Eff.zoom images with_images m.

(** ** [base.py]: the methods of [AbstractStoredFile] *)

(** The names bound at the top level of [base.py] when a method runs: its
    imports and the class itself.  The enumerations [REMOTE_STATUS],
    [DERIVATION_MODES] and [DERIVATION_TYPES] are attributes of the class,
    not names of the module. *)
Inductive PyObject :=
| Enumeration (members : list (str * Z))
| OtherObject.

Definition module_globals : list (str * PyObject) :=
  [ (lit "settings", OtherObject); (lit "admin", OtherObject);
    (lit "UploadedFile", OtherObject); (lit "models", OtherObject);
    (lit "timezone", OtherObject); (lit "Enumeration", OtherObject);
    (lit "EnumerationData", OtherObject); (lit "parameter_proxy", OtherObject);
    (lit "AbstractAutoHash", OtherObject);
    (lit "OverridableChoicesMixin", OtherObject);
    (lit "process_image", OtherObject);
    (lit "RESIZE_MODES",
      Enumeration [(lit "CROP", 0); (lit "EXPAND", 1);
                   (lit "MINIMUM_SIZE", 2); (lit "MAXIMUM_SIZE", 3)]);
    (lit "ANCHOR_HORIZONTAL",
      Enumeration [(lit "LEFT", 0); (lit "CENTER", 1); (lit "RIGHT", 2)]);
    (lit "ANCHOR_VERTICAL",
      Enumeration [(lit "TOP", 0); (lit "CENTER", 1); (lit "BOTTOM", 2)]);
    (lit "datetime", OtherObject); (lit "os", OtherObject);
    (lit "AbstractStoredFile", OtherObject) ].

Definition assoc {A} (k : str) (l : list (str * A)) : option A :=
  snd <$> find (fun kv => bool_decide (kv.1 = k)) l.

(** Reading a name that is not a local of the function: the module's
    globals, else [NameError] (no builtin has one of the names read here). *)
Definition load_global (name : string) : result PyObject :=
  match assoc (lit name) module_globals with
  | Some o => Ok o
  | None => Raise (NameError (lit name))
  end.

Definition getattr (o : PyObject) (name : string) : result Z :=
  match o with
  | Enumeration members =>
      match assoc (lit name) members with
      | Some v => Ok v
      | None => Raise (AttributeError (lit name))
      end
  | OtherObject => Raise (AttributeError (lit name))
  end.

(** The property [is_ready]:
    [return self.is_valid and self.remote_status in
       [ REMOTE_STATUS.LOCAL_ONLY, REMOTE_STATUS.REMOTE_ONLY ]].
    [and] answers its left operand when that is false or [None]; the right
    operand reads the bare name [REMOTE_STATUS]. *)
Definition is_ready (self : StoredFile) : result (option bool) :=
  match is_valid self with
  | Some true =>
      e1 <- load_global "REMOTE_STATUS" ;;;
      a <- getattr e1 "LOCAL_ONLY" ;;;
      e2 <- load_global "REMOTE_STATUS" ;;;
      b <- getattr e2 "REMOTE_ONLY" ;;;
      Ok (Some (bool_decide (REMOTE_STATUS_value (remote_status self) ∈ [a; b])))
  | v => Ok v
  end.

(** The truth value of [self.is_valid]. *)
Definition truthy (v : option bool) : bool :=
  match v with Some true => true | _ => false end.

(** [self.hash is None or self.hash == '']. *)
Definition hash_missing (self : StoredFile) : bool :=
  match hash self with None => true | Some [] => true | Some _ => false end.

(** [os.path.dirname]. *)
Definition rstrip (c : ascii) (s : str) : str :=
  fold_right (fun a acc => if Ascii.eqb a c && bool_decide (acc = []) then [] else a :: acc) [] s.

Definition dirname (p : str) : str :=
  let i := rfind PosixPath.sep p + 1 in
  let head := slice p 0 i in
  if negb (bool_decide (head = [])) && negb (forallb (Ascii.eqb PosixPath.sep) head)
  then rstrip PosixPath.sep head
  else head.

Inductive Data :=
| UploadedFile (chunks : list str)
| HttpResponse (body : str).

(** The bytes that reach the file: every chunk of an upload; the body of a
    response, read 65536 bytes at a time until a short read. *)
Definition data_bytes (d : Data) : str :=
  match d with
  | UploadedFile chunks => concat chunks
  | HttpResponse body => body
  end.

Section Methods.

Variable settings : Settings.
Variable env : Env.
Variable cls : StoredFileClass.

(** The path [generate_filename] builds from a hash and a file name. *)
Definition hashed_path (h : str) (original : str) : str :=
  let chars := SCULPT_S3FILES_SPLIT_CHARS settings in
  let levels := SCULPT_S3FILES_SPLIT_LEVELS settings in
  let dirs := map (fun i => slice h (i * chars) ((i + 1) * chars)) (range levels) in
  let '(root, ext) := PosixPath.splitext original in
  PosixPath.join_all (dirs ++ [slice_from h (levels * chars) ++ ext]).

Definition generate_hash (self : StoredFile) : W StoredFile :=
  w <~ get ;;
  _ <~ modify (with_entropy (S (entropy w))) ;;
  ret (set_hash (Some (auto_hash env (entropy w) self)) self).

(** [generate_filename]: the record (its hash may have been generated)
    and the path. *)
Definition generate_filename (self : StoredFile) : W (StoredFile * str) :=
  self <~ (if hash_missing self then generate_hash self else ret self) ;;
  match original_filename self with
  | None => throw (AttributeError (lit "rfind"))
  | Some original => ret (self, hashed_path (default [] (hash self)) original)
  end.

Definition local_path (self : StoredFile) : result str :=
  match generated_filename self with
  | Some g => Ok (PosixPath.join (SCULPT_S3FILES_LOCAL_DIR settings) [g])
  | None => Raise (AttributeError (lit "startswith"))
  end.

Definition ensure_local_path_exists (self : StoredFile) : W unit :=
  p <~ lift (local_path self) ;;
  let containing_dir := dirname p ++ [PosixPath.sep] in
  if dir_exists env containing_dir then ret tt
  else if makedirs_fails env containing_dir then throw OSError
  else ret tt.

Definition default_remote_status : REMOTE_STATUS :=
  if bool_decide (SCULPT_S3FILES_REMOTE_MODE settings = lit "local")
  then LOCAL_ONLY else LOCAL_READY.

Definition has_row (k : Z) (rs : list StoredFile) : bool :=
  existsb (fun r => bool_decide (pk r = Some k)) rs.

Definition record_save (k : Z) (fields : option (list Field)) : W unit :=
  modify (fun w => with_saves (saves w ++ [{| saved_pk := k; saved_fields := fields |}]) w).

(** [Model.save] of the framework.  With an empty [update_fields] it
    does nothing; with [update_fields] it updates those columns of the
    existing row and refuses a record without primary key or without
    row; otherwise it updates the whole row, or inserts it. *)
Definition Model_save (self : StoredFile) (update_fields : option (list Field)) : W StoredFile :=
  match update_fields with
  | Some [] => ret self
  | Some fields =>
      match pk self with
      | None => throw ValueError
      | Some k =>
          w <~ get ;;
          if has_row k (rows w) then
            _ <~ modify (with_rows
                   (map (fun r => if bool_decide (pk r = Some k)
                                  then foldr (copy_field self) r fields else r)
                      (rows w))) ;;
            _ <~ record_save k update_fields ;;
            ret self
          else throw DatabaseError
      end
  | None =>
      w <~ get ;;
      match pk self with
      | Some k =>
          _ <~ modify (with_rows
                 (if has_row k (rows w)
                  then map (fun r => if bool_decide (pk r = Some k) then self else r) (rows w)
                  else rows w ++ [self])) ;;
          _ <~ record_save k None ;;
          ret self
      | None =>
          let k := next_pk w in
          let self := set_pk (Some k) self in
          _ <~ modify (fun w => with_next_pk (k + 1) (with_rows (rows w ++ [self]) w)) ;;
          _ <~ record_save k None ;;
          ret self
      end
  end.

(** [save]: fills in [generated_filename] when it is [None] or empty,
    then passes through to the regular save. *)
Definition save (self : StoredFile) (update_fields : option (list Field)) : W StoredFile :=
  self <~ (match generated_filename self with
           | Some (_ :: _) => ret self
           | _ =>
               sg <~ generate_filename self ;;
               ret (set_generated_filename (Some sg.2) sg.1)
           end) ;;
  Model_save self update_fields.

(** The files after a write to [path] that raised: the path as the write
    left it, every other file as it was. *)
Definition after_failed_write (path : str) (content : FileContent)
    (files : gmap str FileContent) : gmap str FileContent :=
  match partial_write env path content with
  | Some left_there => <[path := left_there]> files
  | None => files
  end.

(** Writing a file: [open(path, 'wb+')] and the writes that follow, in
    [write_to_disk]; [Image.save(path)] in [generate_derivation].  The
    file is opened before anything is written and nothing removes it when
    a write raises. *)
Definition write_file (path : str) (content : FileContent) : W unit :=
  if write_fails env path then
    _ <~ modify (fun w => with_disk (after_failed_write path content (disk w)) w) ;;
    throw IOError
  else modify (fun w => with_disk (<[path := content]> (disk w)) w).

(** The first lines of [write_to_disk]: the hash and the generated name
    are computed when they are missing, and noted in [updated_fields]. *)
Definition resolve_hash_and_name (self : StoredFile) : W (StoredFile * list Field) :=
  st1 <~
    (if hash_missing self
     then s <~ generate_hash self ;; ret (s, [F_hash])
     else ret (self, [])) ;;
  let '(self, updated_fields) := st1 in
  match generated_filename self with
  | None =>
      sg <~ generate_filename self ;;
      ret (set_generated_filename (Some sg.2) sg.1,
           updated_fields ++ [F_generated_filename])
  | Some _ => ret (self, updated_fields)
  end.

Definition write_to_disk (self : StoredFile) (data : Data) (save_ : bool) : W StoredFile :=
  st <~ resolve_hash_and_name self ;;
  let '(self, updated_fields) := st in
  _ <~ ensure_local_path_exists self ;;
  written <~ try_except
    (path <~ lift (local_path self) ;;
     _ <~ write_file path (Bytes (data_bytes data)) ;;
     ret true)
    is_IOError
    (fun _ => ret false) ;;
  if written : bool then
    let self := set_remote_status default_remote_status self in
    let updated_fields := updated_fields ++ [F_remote_status] in
    if save_ then save self (Some updated_fields) else ret self
  else
    let self := set_remote_status LOCAL_CORRUPT (set_is_valid (Some false) self) in
    let updated_fields := updated_fields ++ [F_is_valid; F_remote_status] in
    if save_ then save self (Some updated_fields) else ret self.

End Methods.

Section Derivations.

Variable settings : Settings.
Variable env : Env.
Variable cls : StoredFileClass.

Definition record_call (derivation_type : str) (original_image : option ref) : W unit :=
  modify (fun w => with_calls
    (calls w ++ [{| called_derivation_type := derivation_type;
                    called_original_image := original_image |}]) w).

(** The dict behind [_derivation_cache]; [{}] once it has been set up. *)
Definition cache_dict (self : Instance) : gmap str (option StoredFile) :=
  default ∅ (_derivation_cache self).

(** [if self._derivation_cache == None: self._derivation_cache = {}]. *)
Definition cache_setup (self : Instance) : Instance :=
  {| columns := columns self; _derivation_cache := Some (cache_dict self) |}.

(** [self._derivation_cache[k] = v]. *)
Definition cache_set (k : str) (v : option StoredFile) (self : Instance) : Instance :=
  {| columns := columns self;
     _derivation_cache := Some (<[k := v]> (cache_dict self)) |}.

(** The first row derived from this record whose [derivation_type]
    column holds [value]; a record that was never saved has no
    derivation. *)
Definition find_derivation (rs : list StoredFile) (self : StoredFile)
    (value : Z) : option StoredFile :=
  match pk self with
  | None => None
  | Some k =>
      find (fun r => bool_decide (derived_from r = Some k)
                     && bool_decide (derivation_type r = Some value))
           rs
  end.

(** [self.derivations.filter(derivation_type = derivation_type).first()].
    The column is an [IntegerField] and the value filtered by is the
    argument of [_get_derivation], the id of the rule, a string: the
    framework prepares it for the column with [int], which raises
    [ValueError] unless the string reads as a number. *)
Definition derivations_first (self : StoredFile) (derivation_type : str)
    : W (option StoredFile) :=
  value <~ lift (int_of_str derivation_type) ;;
  w <~ get ;;
  ret (find_derivation (rows w) self value).

(** [Image.open(path)]: a new image object, or [IOError]. *)
Definition Image_open (path : str) : W ref :=
  match decode env path with
  | Some i => pil (alloc i)
  | None => throw IOError
  end.

Definition everything (e : exc) : bool := true.

(** The body of the outer [try] of [generate_derivation]: transform,
    create the record of the derived file, write the file. *)
Definition derive (self : StoredFile) (derivation : DerivationRule) (original_image : ref)
    : W StoredFile :=
  new_image <~ pil (process_image settings original_image (rule_operations derivation)) ;;
  ni <~ pil (read new_image) ;;
  sf <~ save settings env
          {| pk := None; hash := None;
             original_filename := Some (lit "_auto_generated.jpg");
             file_size := None;
             width := Some (im_size ni).1;
             height := Some (im_size ni).2;
             mime_type := Some (lit "image/jpeg");
             generated_filename := None;
             is_valid := None;
             remote_status := LOCAL_INCOMPLETE;
             derived_from := pk self;
             derivation_type := Some (rule_value derivation);
             date_created := now env;
             date_stored := None;
             date_expires := date_expires self |} None ;;
  _ <~ try_except
    (_ <~ ensure_local_path_exists settings env sf ;;
     path <~ lift (local_path settings sf) ;;
     write_file env path (Encoded ni))
    is_IOError
    (fun e =>
       _ <~ save settings env
              (set_remote_status LOCAL_CORRUPT (set_is_valid (Some false) sf))
              (Some [F_is_valid; F_remote_status]) ;;
       (* re-raise *)
       throw e) ;;
  ret sf.

Definition generate_derivation (self : Instance) (derivation_type : str)
    (original_image : option ref) : W (Instance * option StoredFile) :=
  _ <~ record_call derivation_type original_image ;;
  match get_data_by_id (DERIVATION_TYPES cls) derivation_type with
  | None => throw (Exception (lit "unknown file derivation type"))
  | Some derivation =>
      let self := cache_setup self in
      if bool_decide (remote_status (columns self) = LOCAL_CORRUPT)
         || negb (truthy (is_valid (columns self)))
      then ret (cache_set derivation_type None self, None)
      else
        opened <~ (match original_image with
                   | Some r => ret (Some r)
                   | None =>
                       try_except
                         (path <~ lift (local_path settings (columns self)) ;;
                          r <~ Image_open path ;;
                          ret (Some r))
                         is_IOError
                         (fun _ => ret None)
                   end) ;;
        match opened with
        | None => ret (cache_set derivation_type None self, None)
        | Some image =>
            made <~ try_except
                      (sf <~ derive (columns self) derivation image ;; ret (Some sf))
                      everything
                      (fun _ => ret None) ;;
            match made with
            | None => ret (cache_set derivation_type None self, None)
            | Some sf =>
                sf <~ save settings env
                        (set_remote_status (default_remote_status settings) sf) None ;;
                ret (cache_set derivation_type (Some sf) self, Some sf)
            end
        end
  end.

(** [_get_derivation].  [allow_lazy] is assigned on both branches and
    read nowhere. *)
Definition _get_derivation (self : Instance) (derivation_type : str)
    (process_lazy force_reload : bool) : W (Instance * option StoredFile) :=
  match get_data_by_id (DERIVATION_TYPES cls) derivation_type with
  | None => throw (Exception (lit "unknown file derivation type"))
  | Some derivation =>
      let self := cache_setup self in
      looked <~
        (if negb (bool_decide (is_Some (cache_dict self !! derivation_type)))
            || force_reload
         then
           found <~ derivations_first (columns self) derivation_type ;;
           ret (cache_set derivation_type found self, true)
         else ret (self, false)) ;;
      let '(self, allow_lazy) := looked in
      (* the key is in the dict on both branches *)
      let derived_file := mjoin (cache_dict self !! derivation_type) in
      match derived_file with
      | Some d =>
          if bool_decide (remote_status d = LOCAL_CORRUPT)
          then ret (self, None)
          else ret (self, Some d)
      | None =>
          if (bool_decide (rule_mode derivation = LAZY)
              || bool_decide (rule_mode derivation = IMMEDIATELY))
             && process_lazy
          then generate_derivation self derivation_type None
          else ret (self, None)
      end
  end.

(** The loop of [generate_immediate_derivations]. *)
Fixpoint immediate_loop (table : list DerivationRule) (self : Instance)
    (original_image : ref) : W Instance :=
  match table with
  | [] => ret self
  | derivation :: rest =>
      self <~ (if bool_decide (rule_mode derivation = IMMEDIATELY)
               then r <~ generate_derivation self (rule_id derivation)
                           (Some original_image) ;;
                    ret r.1
               else ret self) ;;
      immediate_loop rest self original_image
  end.

(** [generate_immediate_derivations].  An image object is always true,
    so the test is on [is_valid] alone; the table iterated is the one
    reached through [self.file_class]. *)
Definition generate_immediate_derivations (self : Instance)
    (original_image : option ref) : W Instance :=
  image <~ (match original_image with
            | Some r => ret r
            | None =>
                path <~ lift (local_path settings (columns self)) ;;
                Image_open path
            end) ;;
  if truthy (is_valid (columns self)) then
    match file_class cls with
    | None => throw (AttributeError (lit "file_class"))
    | Some table => immediate_loop table self image
    end
  else ret self.

End Derivations.

(** ** [base.py] and [views.py]: further methods *)

(** Exceptions of other classes, all below [Exception], written with the
    name of their class. *)
Definition TypeError : exc := Exception (lit "TypeError").
Definition IndexError : exc := Exception (lit "IndexError").
Definition DoesNotExist : exc := Exception (lit "DoesNotExist").

(** The file type tests: [self.mime_type in [...]].  [None] is in no list. *)
Definition mime_in (self : StoredFile) (types : list str) : bool :=
  match mime_type self with
  | Some m => bool_decide (m ∈ types)
  | None => false
  end.

Definition is_image (self : StoredFile) : bool :=
  mime_in self [lit "image/gif"; lit "image/jpeg"; lit "image/png"].

Definition is_video (self : StoredFile) : bool :=
  mime_in self [lit "video/mpeg"; lit "video/webm"; lit "video/x-flv"].

Definition is_audio (self : StoredFile) : bool :=
  mime_in self [lit "audio/mpeg"; lit "audio/x-wav"].

(** [a + b] on a [str] and a value that may be [None]. *)
Definition str_add (a : str) (b : option str) : result str :=
  match b with
  | Some b => Ok (a ++ b)
  | None => Raise TypeError
  end.

Definition internal_url (settings : Settings) (self : StoredFile) : result str :=
  str_add (SCULPT_S3FILES_INTERNAL_URL settings) (generated_filename self).

Definition external_url (settings : Settings) (self : StoredFile) : result str :=
  str_add (SCULPT_S3FILES_EXTERNAL_URL settings) (generated_filename self).

(** [s.split(c, maxsplit)] for a one-character [c], reading from the left;
    [cur] is the piece being read. *)
Fixpoint split_from (c : ascii) (s : str) (maxsplit : nat) (cur : str) : list str :=
  match s with
  | [] => [cur]
  | a :: s' =>
      match maxsplit with
      | S n => if Ascii.eqb a c then cur :: split_from c s' n []
               else split_from c s' maxsplit (cur ++ [a])
      | O => split_from c s' O (cur ++ [a])
      end
  end.

(** [s.rsplit(c, maxsplit)]: the same, reading from the right. *)
Definition rsplit (c : ascii) (s : str) (maxsplit : nat) : list str :=
  reverse (map reverse (split_from c (reverse s) maxsplit [])).

(** [os.path.basename]. *)
Definition basename (p : str) : str :=
  slice_from p (rfind PosixPath.sep p + 1).

(** [l[-2]]. *)
Definition second_to_last {A} (l : list A) : result A :=
  match reverse l with
  | _ :: x :: _ => Ok x
  | _ => Raise IndexError
  end.

(** The original file name [create_from_http_response] takes from the path
    of the URL it fetched. *)
Definition response_basename (path : str) : result str :=
  let basename := basename path in
  if bool_decide (basename = []) then
    (* bare directory requested, use the last directory name instead *)
    basename <- second_to_last (rsplit PosixPath.sep path 2) ;;;
    if bool_decide (basename = []) then Ok (lit "_unknown_") else Ok basename
  else Ok basename.

Definition set_date_expires (v : option Z) (r : StoredFile) : StoredFile :=
  {| pk := pk r; hash := hash r; original_filename := original_filename r;
     file_size := file_size r; width := width r; height := height r;
     mime_type := mime_type r; generated_filename := generated_filename r;
     is_valid := is_valid r; remote_status := remote_status r;
     derived_from := derived_from r; derivation_type := derivation_type r;
     date_created := date_created r; date_stored := date_stored r;
     date_expires := v |}.

Section FurtherMethods.

Variable settings : Settings.
Variable env : Env.
Variable cls : StoredFileClass.

(** [self.derived_from]: the record the foreign key points at, loaded from
    the store; [None] when the key is null. *)
Definition get_derived_from (self : StoredFile) : W (option StoredFile) :=
  match derived_from self with
  | None => ret None
  | Some k =>
      w <~ get ;;
      match find (fun r => bool_decide (pk r = Some k)) (rows w) with
      | Some r => ret (Some r)
      | None => throw DoesNotExist
      end
  end.

(** [save(update_fields = ['date_expires'])]: the first lines of [save],
    then the update of that one column of the stored row.  (The log of
    saves does not know this column and is left alone.) *)
Definition save_date_expires (self : StoredFile) : W StoredFile :=
  self <~ (match generated_filename self with
           | Some (_ :: _) => ret self
           | _ =>
               sg <~ generate_filename settings env self ;;
               ret (set_generated_filename (Some sg.2) sg.1)
           end) ;;
  match pk self with
  | None => throw ValueError
  | Some k =>
      w <~ get ;;
      if has_row k (rows w) then
        _ <~ modify (with_rows
               (map (fun r => if bool_decide (pk r = Some k)
                              then set_date_expires (date_expires self) r else r)
                  (rows w))) ;;
        ret self
      else throw DatabaseError
  end.

(** [keepable.derivations.update(date_expires = None)]: one statement on
    every row derived from the record. *)
Definition derivations_update_date_expires (keepable : StoredFile) : W unit :=
  match pk keepable with
  | None => ret tt
  | Some k =>
      modify (fun w => with_rows
        (map (fun r => if bool_decide (derived_from r = Some k)
                       then set_date_expires None r else r)
           (rows w)) w)
  end.

(** [keep].  The record handed back is [self] as it is in memory after the
    call: changed when it is the record kept, untouched when the record
    kept is its parent, which is another object. *)
Definition keep (self : StoredFile) : W StoredFile :=
  keepable <~ (match derivation_type self with
               | Some _ => get_derived_from self
               | None => ret (Some self)
               end) ;;
  match keepable with
  | None => throw (AttributeError (lit "date_expires"))
  | Some keepable =>
      let keepable := set_date_expires None keepable in
      keepable <~ save_date_expires keepable ;;
      _ <~ derivations_update_date_expires keepable ;;
      ret (match derivation_type self with
           | Some _ => self
           | None => keepable
           end)
  end.

(** What [generate_results] reports of one file. *)
Record FileResult := {
  result_hash : option str;
  result_size : option Z;
  result_url : str;
  result_width : option Z;
  result_height : option Z;
  result_is_image : bool;
  result_is_video : bool;
  result_is_audio : bool;
}.

Definition file_result (sf : StoredFile) : result FileResult :=
  url <- external_url settings sf ;;;
  Ok {| result_hash := hash sf; result_size := file_size sf; result_url := url;
        result_width := width sf; result_height := height sf;
        result_is_image := is_image sf; result_is_video := is_video sf;
        result_is_audio := is_audio sf |}.

(** [c.lower()] and [s.lower()], on ASCII. *)
Definition lower_char (c : ascii) : ascii :=
  let n := nat_of_ascii c in
  if (65 <=? n)%nat && (n <=? 90)%nat then ascii_of_nat (n + 32) else c.

Definition lower (s : str) : str := map lower_char s.

(** The loop of [generate_results] over [include_derivations]: only what
    is in the cache already is asked for, and the answer is read without
    a test for [None]. *)
Fixpoint include_loop (ids : list str) (sf : Instance)
    (results : gmap str FileResult) : W (Instance * gmap str FileResult) :=
  match ids with
  | [] => ret (sf, results)
  | derivation_id :: rest =>
      if bool_decide (is_Some (cache_dict sf !! derivation_id)) then
        got <~ _get_derivation settings env cls sf derivation_id true false ;;
        match got.2 with
        | None => throw (AttributeError (lit "hash"))
        | Some dsf =>
            r <~ lift (file_result dsf) ;;
            include_loop rest got.1 (<[lower derivation_id := r]> results)
        end
      else include_loop rest sf results
  end.

(** [AjaxFileUploadView.generate_results] of [views.py]. *)
Definition generate_results (include_derivations : list str) (sf : Instance)
    : W (Instance * gmap str FileResult) :=
  file <~ lift (file_result (columns sf)) ;;
  let results : gmap str FileResult := {[ lit "file" := file ]} in
  match _derivation_cache sf with
  | None => ret (sf, results)
  | Some _ => include_loop include_derivations sf results
  end.

End FurtherMethods.

(** ** Concrete situations used in the examples below *)

Module Fixtures.

Definition settings0 : Settings :=
  default_settings (lit "/srv/media") (lit "/media/").

Definition photo : image :=
  {| im_size := (400, 300); im_mode := lit "RGB"; im_data := Decoded 0 |}.

(** A host where everything works. *)
Definition env_ok : Env :=
  {| auto_hash := fun n _ => lit "c0ffee" ++ repeat "7"%char n;
     dir_exists := fun _ => true;
     makedirs_fails := fun _ => false;
     write_fails := fun _ => false;
     partial_write := fun _ _ => None;
     decode := fun _ => Some photo;
     now := 1000 |}.

(** A host whose disk is full: a file can be made, nothing can be written
    to it. *)
Definition env_disk_full : Env :=
  {| auto_hash := auto_hash env_ok;
     dir_exists := fun _ => true;
     makedirs_fails := fun _ => false;
     write_fails := fun _ => true;
     partial_write := fun _ _ => Some (Bytes []);
     decode := fun _ => Some photo;
     now := 1000 |}.

(** An application class whose [file_class] attribute is itself. *)
Definition AppFile : StoredFileClass :=
  {| DERIVATION_TYPES := DERIVATION_TYPES_default;
     file_class := Some DERIVATION_TYPES_default |}.

(** An uploaded photo, saved and valid. *)
Definition upload : StoredFile :=
  {| pk := Some 1; hash := Some (lit "abcdef0123");
     original_filename := Some (lit "photo.jpg");
     file_size := Some 4096; width := Some 400; height := Some 300;
     mime_type := Some (lit "image/jpeg");
     generated_filename := Some (lit "a/b/cdef0123.jpg");
     is_valid := Some true; remote_status := LOCAL_ONLY;
     derived_from := None; derivation_type := None;
     date_created := 900; date_stored := None; date_expires := Some 2000 |}.

(** Its thumbnail, generated earlier and in good state. *)
Definition thumbnail : StoredFile :=
  {| pk := Some 2; hash := Some (lit "c0ffee");
     original_filename := Some (lit "_auto_generated.jpg");
     file_size := None; width := Some 50; height := Some 50;
     mime_type := Some (lit "image/jpeg");
     generated_filename := Some (lit "c/0/ffee.jpg");
     is_valid := None; remote_status := LOCAL_ONLY;
     derived_from := Some 1; derivation_type := Some 0;
     date_created := 950; date_stored := None; date_expires := Some 2000 |}.

(** The operation of the built-in THUMBNAIL rule. *)
Definition thumbnail_op : Operation :=
  {| operation := lit "resize"; target_size := (50, 50); resize_mode := CROP;
     anchor_horizontal := CENTER; anchor_vertical := VCENTER;
     background_color := None |}.

(** A resize in one of the two modes left as [pass]. *)
Definition minimum_size_op : Operation :=
  {| operation := lit "resize"; target_size := (100, 100);
     resize_mode := MINIMUM_SIZE;
     anchor_horizontal := LEFT; anchor_vertical := TOP;
     background_color := None |}.

(** A crop to the aspect ratio 3:4. *)
Definition crop_3_4 : Operation :=
  {| operation := lit "resize"; target_size := (3, 4); resize_mode := CROP;
     anchor_horizontal := LEFT; anchor_vertical := TOP;
     background_color := None |}.

(** A host that cannot decode the stored file. *)
Definition env_undecodable : Env :=
  {| auto_hash := auto_hash env_ok;
     dir_exists := fun _ => true;
     makedirs_fails := fun _ => false;
     write_fails := fun _ => false;
     partial_write := fun _ _ => None;
     decode := fun _ => None;
     now := 1000 |}.

(** An application class with one LAZY rule. *)
Definition LazyFile : StoredFileClass :=
  {| DERIVATION_TYPES :=
       [ {| rule_value := 1; rule_id := lit "PREVIEW"; rule_label := lit "Preview";
            rule_mode := LAZY; rule_operations := [thumbnail_op] |} ];
     file_class := None |}.

(** The upload after a later write failed: marked corrupt. *)
Definition corrupt_upload : StoredFile :=
  set_remote_status LOCAL_CORRUPT (set_is_valid (Some false) upload).

(** The upload before its first write: no hash, no path yet. *)
Definition unwritten_upload : StoredFile :=
  set_generated_filename None (set_hash None upload).

(** The upload before anyone checked it. *)
Definition unchecked_upload : StoredFile := set_is_valid None upload.

(** An upload whose name is a hidden file's. *)
Definition dotfile : StoredFile :=
  {| pk := None; hash := Some (lit "abcdef0123");
     original_filename := Some (lit ".bashrc");
     file_size := Some 120; width := None; height := None;
     mime_type := Some (lit "text/plain");
     generated_filename := None;
     is_valid := None; remote_status := LOCAL_INCOMPLETE;
     derived_from := None; derivation_type := None;
     date_created := 900; date_stored := None; date_expires := None |}.

Definition world_of (rs : list StoredFile) (n : Z) : World :=
  {| images := []; rows := rs; next_pk := n; disk := ∅; entropy := 0;
     calls := []; saves := [] |}.

End Fixtures.

(** Further situations. *)
Module Cases.

(** An operation of a kind [process_image] does not know. *)
Definition rotate_op : Operation :=
  {| operation := lit "rotate"; target_size := (50, 50); resize_mode := CROP;
     anchor_horizontal := CENTER; anchor_vertical := VCENTER;
     background_color := None |}.

(** A resize whose target has no height. *)
Definition flat_op : Operation :=
  {| operation := lit "resize"; target_size := (50, 0); resize_mode := CROP;
     anchor_horizontal := CENTER; anchor_vertical := VCENTER;
     background_color := None |}.

(** A paletted image, as a GIF decodes. *)
Definition palette_photo : image :=
  {| im_size := (400, 300); im_mode := lit "P"; im_data := Decoded 1 |}.

(** The built-in THUMBNAIL rule. *)
Definition thumbnail_rule : DerivationRule :=
  {| rule_value := 0; rule_id := lit "THUMBNAIL"; rule_label := lit "Thumbnail";
     rule_mode := IMMEDIATELY; rule_operations := [Fixtures.thumbnail_op] |}.

(** A host where no directory exists and none can be made. *)
Definition env_no_dirs : Env :=
  {| auto_hash := auto_hash Fixtures.env_ok;
     dir_exists := fun _ => false;
     makedirs_fails := fun _ => true;
     write_fails := fun _ => false;
     partial_write := fun _ _ => None;
     decode := fun _ => Some Fixtures.photo;
     now := 1000 |}.

(** The upload as an object just loaded, and a store that holds it, with
    its decoded image at hand. *)
Definition loaded (r : StoredFile) : Instance :=
  {| columns := r; _derivation_cache := None |}.

Definition store : World :=
  with_images [Fixtures.photo] (Fixtures.world_of [Fixtures.upload] 2).

(** The thumbnail, after its file was found to be bad. *)
Definition bad_thumbnail : StoredFile :=
  set_remote_status LOCAL_CORRUPT (set_is_valid (Some false) Fixtures.thumbnail).

(** An application class with a rule in a mode that is not implemented. *)
Definition banner_rule : DerivationRule :=
  {| rule_value := 2; rule_id := lit "BANNER"; rule_label := lit "Banner";
     rule_mode := LAZY; rule_operations := [Fixtures.minimum_size_op] |}.

Definition BannerFile : StoredFileClass :=
  {| DERIVATION_TYPES := [banner_rule]; file_class := None |}.

(** The upload as an object whose cache holds a derived record. *)
Definition cached (r d : StoredFile) : Instance :=
  {| columns := r;
     _derivation_cache := Some {[ lit "THUMBNAIL" := Some d ]} |}.

(** The upload as an object whose cache holds the absence of a
    thumbnail. *)
Definition absent (r : StoredFile) : Instance :=
  {| columns := r; _derivation_cache := Some {[ lit "THUMBNAIL" := None ]} |}.

(** The store with the upload and its thumbnail. *)
Definition store_with_thumbnail : World :=
  Fixtures.world_of [Fixtures.upload; Fixtures.thumbnail] 3.

End Cases.

(** ** Notions used to state the properties *)

(** A derived record that [_get_derivation] hands out: one that is there
    and is not corrupt. *)
Definition usable (d : option StoredFile) : option StoredFile :=
  match d with
  | Some d => if bool_decide (remote_status d = LOCAL_CORRUPT) then None else Some d
  | None => None
  end.

(** The call of [generate_derivation] for a rule, with an image. *)
Definition call_for (original_image : option ref) (rule : DerivationRule) : GenerateCall :=
  {| called_derivation_type := rule_id rule;
     called_original_image := original_image |}.

Definition immediate (rule : DerivationRule) : bool :=
  bool_decide (rule_mode rule = IMMEDIATELY).

(** The columns [write_to_disk] computes itself when they are missing. *)
Definition freshly_computed (self : StoredFile) : list Field :=
  (if hash_missing self then [F_hash] else [])
  ++ (match generated_filename self with None => [F_generated_filename] | Some _ => [] end).

(** What [Model.save] does to the rows when it updates some columns of
    the row with primary key [k]. *)
Definition updated_rows (self : StoredFile) (k : Z) (fields : list Field)
    (rs : list StoredFile) : list StoredFile :=
  map (fun r => if bool_decide (pk r = Some k)
                then foldr (copy_field self) r fields else r) rs.

(** A computation that leaves the log of calls of [generate_derivation]
    as it found it. *)
Definition quiet {A} (m : W A) : Prop := forall w, calls (m w).1 = calls w.

(** What the locals of [process_image] show of the heap: the images
    behind the references, not the references. *)
Definition view (h : heap) (l : Locals)
    : option image * option (Z * Z) * option (option image) * option box :=
  (h !! working_image l, next_size l, (fun r => h !! r) <$> next_image l, crop_box l).

(** The image [thumbnail] leaves behind. *)
Definition fitted (i : image) (target : Z * Z) : result image :=
  sz <- Image.thumbnail_size (im_size i) target ;;;
  Ok (if bool_decide (sz = im_size i) then i
      else {| im_size := sz; im_mode := im_mode i; im_data := Resampled sz (im_data i) |}).

(** Two calls that give the same image: both raise the same exception, or
    both return a reference, each to an image in its heap, and the two
    images are equal. *)
Definition same_image (o1 o2 : heap * result ref) : Prop :=
  match o1.2, o2.2 with
  | Ok a, Ok b => exists i, o1.1 !! a = Some i /\ o2.1 !! b = Some i
  | Raise e1, Raise e2 => e1 = e2
  | _, _ => False
  end.

(** Locals whose references point at images. *)
Definition sound (h : heap) (l : Locals) : Prop :=
  is_Some (h !! working_image l)
  /\ match next_image l with Some r => is_Some (h !! r) | None => True end.

(** Two runs that end alike: both raise the same exception, or both
    return, and whatever the locals show is the same in both. *)
Definition alike (o1 o2 : heap * result Locals) : Prop :=
  match o1.2, o2.2 with
  | Ok l1, Ok l2 => view o1.1 l1 = view o2.1 l2 /\ sound o1.1 l1 /\ sound o2.1 l2
  | Raise e1, Raise e2 => e1 = e2
  | _, _ => False
  end.

(** Two runs, alike, that only added images to their heaps. *)
Definition alike_and_framed (h1 h2 : heap) (o1 o2 : heap * result Locals) : Prop :=
  alike o1 o2 /\ h1 `prefix_of` o1.1 /\ h2 `prefix_of` o2.1.

(** What [_get_derivation] looks at: the store on a miss or a forced
    reload, where the query may raise, the cache otherwise. *)
Definition looked_up (self : Instance) (dt : str) (force_reload : bool) (w : World)
    : result (option StoredFile) :=
  if negb (bool_decide (is_Some (cache_dict self !! dt))) || force_reload
  then value <- int_of_str dt ;;; Ok (find_derivation (rows w) (columns self) value)
  else Ok (mjoin (cache_dict self !! dt)).

(** The record [generate_derivation] creates for a derived image, as it is
    handed to [objects.create]. *)
Definition derived_record (env : Env) (self : StoredFile) (rule : DerivationRule)
    (ni : image) : StoredFile :=
  {| pk := None; hash := None;
     original_filename := Some (lit "_auto_generated.jpg");
     file_size := None;
     width := Some (im_size ni).1;
     height := Some (im_size ni).2;
     mime_type := Some (lit "image/jpeg");
     generated_filename := None;
     is_valid := None;
     remote_status := LOCAL_INCOMPLETE;
     derived_from := pk self;
     derivation_type := Some (rule_value rule);
     date_created := now env;
     date_stored := None;
     date_expires := date_expires self |}.

(** A new record as its first [save] leaves it: hash, path and primary key
    filled in. *)
Definition inserted (settings : Settings) (env : Env) (r : StoredFile) (name : str)
    (w : World) : StoredFile :=
  let h := auto_hash env (entropy w) r in
  set_pk (Some (next_pk w))
    (set_generated_filename (Some (hashed_path settings h name)) (set_hash (Some h) r)).

(** The store after that first [save]. *)
Definition after_insert (r : StoredFile) (w : World) : World :=
  with_saves (saves w ++ [{| saved_pk := next_pk w; saved_fields := None |}])
    (with_next_pk (next_pk w + 1)
       (with_rows (rows w ++ [r]) (with_entropy (S (entropy w)) w))).

(** The last lines of [generate_derivation], from the [try] on, once the
    image is at hand. *)
Definition derive_and_cache (settings : Settings) (env : Env) (self : Instance)
    (dt : str) (rule : DerivationRule) (image : ref) : W (Instance * option StoredFile) :=
  Eff.bind
    (try_except
       (Eff.bind (derive settings env (columns self) rule image) (fun sf => ret (Some sf)))
       everything (fun _ => ret None))
    (fun made =>
       match made with
       | None => ret (cache_set dt None (cache_setup self), None)
       | Some sf =>
           Eff.bind (save settings env
                       (set_remote_status (default_remote_status settings) sf) None)
             (fun sf => ret (cache_set dt (Some sf) (cache_setup self), Some sf))
       end).

(** What [keep] does to a row, for the record kept with primary key [k]. *)
Definition kept_row (k : Z) (r : StoredFile) : StoredFile :=
  if bool_decide (pk r = Some k) || bool_decide (derived_from r = Some k)
  then set_date_expires None r else r.

(** ** The design document's wording, where it is compared with the code *)

Module AsWritten.

(** "The substring after the last [.] in [originalFilename], including
    the dot, or empty if none." *)
Definition extension (original : str) : str :=
  let i := rfind PosixPath.extsep original in
  if i <? 0 then [] else slice_from original i.

(** "[splitLevels] directory segments of [splitChars] characters each,
    taken from the front of the hash; the remainder of the hash forms the
    base filename, concatenated with the original file's extension":
    the layout, for a given extension. *)
Definition layout (h ext : str) (splitLevels splitChars : nat) : str :=
  concat (map (fun i => take splitChars (drop (i * splitChars) h) ++ [PosixPath.sep])
              (seq 0 splitLevels))
  ++ drop (splitLevels * splitChars) h ++ ext.

Definition generate (h : str) (original : str) (splitLevels splitChars : nat) : str :=
  layout h (extension original) splitLevels splitChars.

(** "If [isTooWide], the intermediate size is height-matched
    ([height = workingHeight],
     [width = round(workingHeight * targetAspect)])." *)
Definition height_matched (wsize : Z * Z) (target : Z * Z) : result (Z * Z) :=
  fh <- float_of_int wsize.2 ;;;
  target_aspect <- aspect_ratio target ;;;
  w <- round_half_away (PrimFloat.mul fh target_aspect) ;;;
  Ok (w, wsize.2).

End AsWritten.

(** * Properties *)

(** ** The image pipeline *)

(** C10: with an empty list of operations [process_image] hands back the
    source image itself, the very same object, and touches no image. *)
Theorem process_image_no_operations (settings : Settings) (source_image : ref) (h : heap) :
  process_image settings source_image [] h = (h, Ok source_image).
Proof. reflexivity. Qed.

(** C7, as the design document has it, fails: a 10x5 working image cropped
    to the ratio 3:4 is too wide, and the code gives the intermediate
    width [int(5 * 0.75) = 3], where rounding [3.75] gives 4. *)
Lemma crop_width_is_not_rounded :
  intermediate_size Fixtures.crop_3_4 (10, 5) None = Ok (Some (3, 5))
  /\ AsWritten.height_matched (10, 5) (3, 4) = Ok (4, 5).
Proof. split; vm_compute; reflexivity. Qed.

(** C7, amended: in CROP mode, when the working image's aspect ratio is
    strictly greater than the target's, the intermediate height is the
    working height and the intermediate width is
    [int(workingHeight * targetAspect)], truncated toward zero; otherwise
    the intermediate width is the working width and the height is
    [int(workingWidth / targetAspect)]. *)
Theorem crop_intermediate_size (op : Operation) (wsize : Z * Z)
    (stale : option (Z * Z)) (current target : float) :
  resize_mode op = CROP ->
  aspect_ratio wsize = Ok current ->
  aspect_ratio (target_size op) = Ok target ->
  intermediate_size op wsize stale =
    if PrimFloat.ltb target current
    then fh <- float_of_int wsize.2 ;;;
         nw <- int_of_float (PrimFloat.mul fh target) ;;;
         Ok (Some (nw, wsize.2))
    else fw <- float_of_int wsize.1 ;;;
         q <- float_div fw target ;;;
         nh <- int_of_float q ;;;
         Ok (Some (wsize.1, nh)).
Proof.
  intros Hmode Hcur Htgt.
  unfold intermediate_size, compute_next_size.
  rewrite Hcur, Htgt, Hmode. simpl.
  destruct (PrimFloat.ltb target current); reflexivity.
Qed.

Lemma crop_intermediate_size_witness :
  intermediate_size Fixtures.crop_3_4 (10, 5) None = Ok (Some (3, 5)).
Proof.
  rewrite (crop_intermediate_size Fixtures.crop_3_4 (10, 5) None 2%float 0.75%float);
    reflexivity.
Defined.

(** [int] drops the fractional part, whatever the sign. *)
Example int_of_float_truncates :
  int_of_float 3.75%float = Ok 3
  /\ int_of_float (-3.75)%float = Ok (-3)
  /\ round_half_away 3.75%float = Ok 4.
Proof. repeat split. Qed.

(** C3 fails on the code: after a CROP step, a MINIMUM_SIZE step does not
    fail.  It finds [next_size = (300, 300)] left by the step before, pads
    the 50x50 working image onto a canvas of that size and shrinks it to
    100x100. *)
Theorem minimum_size_after_crop_returns_an_image :
  process_image Fixtures.settings0 0%nat
    [Fixtures.thumbnail_op; Fixtures.minimum_size_op] [Fixtures.photo]
  = ([ Fixtures.photo;
       {| im_size := (50, 50); im_mode := lit "RGB";
          im_data := Resampled (50, 50) (Cropped (50, 0, 350, 300) (Decoded 0)) |};
       {| im_size := (100, 100); im_mode := lit "RGB";
          im_data :=
            Resampled (100, 100)
              (Pasted (Filled (300, 300) None)
                 (Resampled (50, 50) (Cropped (50, 0, 350, 300) (Decoded 0)))
                 (0, 0, 50, 50)) |} ],
     Ok 2%nat).
Proof. vm_compute. reflexivity. Qed.

(** The two modes left as [pass] assign nothing to [next_size]. *)
Lemma intermediate_size_unimplemented (op : Operation) (wsize : Z * Z)
    (stale : option (Z * Z)) :
  resize_mode op = MINIMUM_SIZE \/ resize_mode op = MAXIMUM_SIZE ->
  intermediate_size op wsize stale = Ok stale
  \/ exists e, intermediate_size op wsize stale = Raise e.
Proof.
  intros Hm. unfold intermediate_size, compute_next_size.
  destruct (aspect_ratio wsize); simpl; [|eauto].
  destruct (aspect_ratio (target_size op)); simpl; [|eauto].
  destruct Hm as [-> | ->]; auto.
Qed.

Lemma resize_unimplemented_unbound (settings : Settings) (op : Operation)
    (l : Locals) (h : heap) :
  resize_mode op = MINIMUM_SIZE \/ resize_mode op = MAXIMUM_SIZE ->
  next_size l = None ->
  exists h' e, resize settings op l h = (h', Raise e).
Proof.
  intros Hm Hns. unfold resize, Eff.bind, read at 1.
  destruct (h !! working_image l) as [w|]; [|eauto].
  unfold lift.
  destruct (intermediate_size_unimplemented op (im_size w) (next_size l) Hm)
    as [-> | [e ->]]; [|eauto].
  rewrite Hns.
  unfold anchor_x, anchor_y, local, Eff.bind, ret, throw.
  destruct (anchor_horizontal op); eauto.
  destruct (anchor_vertical op); eauto.
  destruct (bool_decide (im_mode w = lit "RGB")).
  - unfold read. destruct (h !! working_image l); eauto.
    destruct Hm as [-> | ->]; eauto.
  - unfold Image.convert, Eff.bind, read, alloc.
    destruct (h !! working_image l); eauto.
    repeat case_match; simplify_eq; eauto.
    all: destruct Hm; congruence.
Qed.

(** When the unimplemented mode comes first, [next_size] is still unbound
    and the call ends in an exception ([UnboundLocalError], unless an
    earlier line raised). *)
Lemma unimplemented_mode_first_raises (settings : Settings) (source : ref)
    (op : Operation) (ops : list Operation) (h : heap) :
  operation op = lit "resize" ->
  resize_mode op = MINIMUM_SIZE \/ resize_mode op = MAXIMUM_SIZE ->
  exists h' e, process_image settings source (op :: ops) h = (h', Raise e).
Proof.
  intros Hop Hm. unfold process_image. simpl turns. unfold turn.
  rewrite bool_decide_eq_true_2 by done.
  unfold Eff.bind at 1 2 3.
  edestruct (resize_unimplemented_unbound settings op) as (h' & e & ->); eauto.
Qed.

(** ** Readiness *)

Lemma is_ready_reads_unbound_global (self : StoredFile) :
  is_valid self = Some true ->
  is_ready self = Raise (NameError (lit "REMOTE_STATUS")).
Proof. intros H. unfold is_ready. rewrite H. reflexivity. Qed.

(** Whatever the record, [is_ready] never answers [True]. *)
Lemma is_ready_never_true (self : StoredFile) :
  is_ready self <> Ok (Some true).
Proof.
  unfold is_ready. destruct (is_valid self) as [[|]|] eqn:E; simpl; congruence.
Qed.

(** C2 fails on the code: for a valid record whose status is LOCAL_ONLY
    the property does not answer true, it raises [NameError], because
    [REMOTE_STATUS] is read as a global of the module and is an attribute
    of the class. *)
Theorem is_ready_raises_on_a_ready_record :
  is_valid Fixtures.upload = Some true
  /\ remote_status Fixtures.upload = LOCAL_ONLY
  /\ is_ready Fixtures.upload = Raise (NameError (lit "REMOTE_STATUS")).
Proof. repeat split. Qed.

(** ** Storage paths *)

Lemma clamp_id (len i : Z) : 0 <= i <= len -> clamp len i = i.
Proof. intros H. unfold clamp. destruct (Z.ltb_spec i 0); lia. Qed.

Lemma slice_take_drop (s : str) (a b : nat) :
  (a <= b)%nat -> (b <= length s)%nat ->
  slice s (Z.of_nat a) (Z.of_nat b) = take (b - a) (drop a s).
Proof.
  intros Hab Hb. unfold slice. rewrite !clamp_id by lia.
  f_equal; [lia | f_equal; lia].
Qed.

Lemma slice_from_drop (s : str) (a : nat) :
  (a <= length s)%nat -> slice_from s (Z.of_nat a) = drop a s.
Proof. intros H. unfold slice_from. rewrite clamp_id by lia. f_equal; lia. Qed.

(** [rfind]: either the character is absent, or the answer is its last place. *)
Lemma rfind_from_spec (c : ascii) (s : str) (i found : Z) :
  ((c ∉ s) /\ rfind_from c s i found = found)
  \/ (exists k : nat, s !! k = Some c /\ rfind_from c s i found = i + Z.of_nat k).
Proof.
  revert i found. induction s as [|a s IH]; intros i found; simpl.
  - left. split; [apply not_elem_of_nil | done].
  - destruct (IH (i + 1) (if Ascii.eqb a c then i else found)) as [[Hn Hr] | (k & Hk & Hr)].
    + rewrite Hr. destruct (Ascii.eqb_spec a c) as [-> | Hne].
      * right. exists 0%nat. split; [done | lia].
      * left. split; [|done]. rewrite elem_of_cons. intros [-> | ?]; done.
    + right. exists (S k). split; [done | lia].
Qed.

Lemma rfind_spec (c : ascii) (s : str) :
  ((c ∉ s) /\ rfind c s = -1)
  \/ (exists k : nat, s !! k = Some c /\ rfind c s = Z.of_nat k).
Proof.
  unfold rfind. destruct (rfind_from_spec c s 0 (-1)) as [? | (k & ? & ?)]; [auto|].
  right. exists k. split; [done | lia].
Qed.

(** The extension [splitext] answers is empty or begins with a dot. *)
Lemma splitext_ext (p : str) :
  (PosixPath.splitext p).2 = [] \/ exists t, (PosixPath.splitext p).2 = PosixPath.extsep :: t.
Proof.
  unfold PosixPath.splitext.
  destruct (_ && _) eqn:E; [|by left]. right. simpl.
  apply andb_true_iff in E as [E _]. apply Z.ltb_lt in E.
  destruct (rfind_spec PosixPath.extsep p) as [[_ Hr] | (k & Hk & Hr)].
  - destruct (rfind_spec PosixPath.sep p) as [[_ Hs] | (j & _ & Hs)]; lia.
  - rewrite Hr. rewrite slice_from_drop by (apply lookup_lt_Some in Hk; lia).
    exists (drop (S k) p). by apply drop_S in Hk.
Qed.

Lemma splitext_root_ext (p : str) :
  (PosixPath.splitext p).1 ++ (PosixPath.splitext p).2 = p.
Proof.
  unfold PosixPath.splitext.
  destruct (_ && _) eqn:E; [|by rewrite app_nil_r]. simpl.
  apply andb_true_iff in E as [E _]. apply Z.ltb_lt in E.
  destruct (rfind_spec PosixPath.extsep p) as [[_ Hr] | (k & Hk & Hr)].
  - destruct (rfind_spec PosixPath.sep p) as [[_ Hs] | (j & _ & Hs)]; lia.
  - rewrite Hr. apply lookup_lt_Some in Hk.
    rewrite slice_from_drop by lia.
    change 0 with (Z.of_nat 0). rewrite slice_take_drop by lia.
    rewrite Nat.sub_0_r. simpl. apply take_drop.
Qed.

Lemma endswith_after_segment (a s : str) :
  s <> [] -> PosixPath.sep ∉ s ->
  endswith_char PosixPath.sep (a ++ PosixPath.sep :: s) = false.
Proof.
  intros Hne Hs. unfold endswith_char.
  destruct (last (a ++ PosixPath.sep :: s)) as [y|] eqn:E; [|done].
  rewrite last_app in E. rewrite last_cons in E.
  destruct (last s) as [z|] eqn:Ez.
  - simplify_eq. apply last_Some_elem_of in Ez.
    destruct (Ascii.eqb_spec y PosixPath.sep); [subst; done | done].
  - apply last_None in Ez. done.
Qed.

Lemma join2_segment (a s : str) :
  a <> [] -> endswith_char PosixPath.sep a = false ->
  startswith_char PosixPath.sep s = false ->
  PosixPath.join2 a s = a ++ PosixPath.sep :: s.
Proof.
  intros Ha He Hs. unfold PosixPath.join2. rewrite Hs, He.
  rewrite bool_decide_eq_false_2 by done. done.
Qed.

Lemma startswith_plain (s : str) :
  PosixPath.sep ∉ s -> startswith_char PosixPath.sep s = false.
Proof.
  destruct s as [|c s]; [done|]. simpl. intros H.
  destruct (Ascii.eqb_spec c PosixPath.sep); [|done].
  subst. exfalso. apply H. left.
Qed.

Lemma join_segments (segs : list str) (a lastc : str) :
  a <> [] -> endswith_char PosixPath.sep a = false ->
  Forall (fun s => s <> [] /\ PosixPath.sep ∉ s) segs ->
  startswith_char PosixPath.sep lastc = false ->
  PosixPath.join a (segs ++ [lastc])
  = a ++ concat (map (fun s => PosixPath.sep :: s) segs) ++ PosixPath.sep :: lastc.
Proof.
  unfold PosixPath.join.
  revert a. induction segs as [|s segs IH]; intros a Ha He Hsegs Hl; simpl.
  - by apply join2_segment.
  - inversion Hsegs as [|? ? [Hs1 Hs2] Hrest]; subst.
    rewrite join2_segment by auto using startswith_plain.
    rewrite IH; auto.
    + rewrite <- !app_assoc. simpl. done.
    + by destruct a.
    + by apply endswith_after_segment.
Qed.

Lemma concat_segments (segs : list str) (a lastc : str) :
  a ++ concat (map (fun s => PosixPath.sep :: s) segs) ++ PosixPath.sep :: lastc
  = concat (map (fun s => s ++ [PosixPath.sep]) (a :: segs)) ++ lastc.
Proof.
  revert a. induction segs as [|s segs IH]; intros a; simpl.
  - by rewrite app_nil_r, <- app_assoc.
  - simpl in IH. rewrite <- !app_assoc. simpl. f_equal. f_equal.
    rewrite IH. by rewrite <- !app_assoc.
Qed.

Lemma endswith_plain (s : str) :
  PosixPath.sep ∉ s -> endswith_char PosixPath.sep s = false.
Proof.
  intros H. unfold endswith_char. destruct (last s) as [y|] eqn:E; [|done].
  apply last_Some_elem_of in E.
  destruct (Ascii.eqb_spec y PosixPath.sep); [subst; done | done].
Qed.

Lemma segment_plain (h : str) (n c : nat) :
  PosixPath.sep ∉ h -> PosixPath.sep ∉ take c (drop n h).
Proof.
  intros H Hin. apply H. eapply subseteq_drop, subseteq_take, Hin.
Qed.

Lemma segment_length (h : str) (n c : nat) :
  (n + c <= length h)%nat -> length (take c (drop n h)) = c.
Proof. intros H. rewrite length_take, length_drop. lia. Qed.

Section Path.
Variable settings : Settings.
Variable env : Env.

Lemma hashed_path_layout (h original : str) :
  h <> [] -> PosixPath.sep ∉ h ->
  0 <= SCULPT_S3FILES_SPLIT_LEVELS settings ->
  1 <= SCULPT_S3FILES_SPLIT_CHARS settings ->
  SCULPT_S3FILES_SPLIT_LEVELS settings * SCULPT_S3FILES_SPLIT_CHARS settings
    <= Z.of_nat (length h) ->
  hashed_path settings h original
  = AsWritten.layout h (PosixPath.splitext original).2
      (Z.to_nat (SCULPT_S3FILES_SPLIT_LEVELS settings))
      (Z.to_nat (SCULPT_S3FILES_SPLIT_CHARS settings)).
Proof.
  intros Hne Hplain HL HC Hlen. unfold hashed_path, AsWritten.layout.
  set (L := SCULPT_S3FILES_SPLIT_LEVELS settings) in *.
  set (C := SCULPT_S3FILES_SPLIT_CHARS settings) in *.
  destruct (PosixPath.splitext original) as [root ext] eqn:Esplit. simpl.
  assert (Hext : ext = [] \/ exists t, ext = PosixPath.extsep :: t).
  { pose proof (splitext_ext original) as H. by rewrite Esplit in H. }
  replace (slice_from h (L * C)) with (drop (Z.to_nat L * Z.to_nat C) h).
  2:{ replace (L * C) with (Z.of_nat (Z.to_nat L * Z.to_nat C)) by lia.
      rewrite slice_from_drop by lia. done. }
  assert (Hsegs : map (fun i => slice h (i * C) ((i + 1) * C)) (range L)
                  = map (fun i => take (Z.to_nat C) (drop (i * Z.to_nat C) h))
                        (seq 0 (Z.to_nat L))).
  { unfold range. rewrite map_map. apply map_ext_in. intros n Hn.
    apply in_seq in Hn.
    replace (Z.of_nat n * C) with (Z.of_nat (n * Z.to_nat C)) by lia.
    replace ((Z.of_nat n + 1) * C) with (Z.of_nat (n * Z.to_nat C + Z.to_nat C)) by lia.
    rewrite slice_take_drop by nia.
    f_equal. lia. }
  rewrite Hsegs.
  assert (Hlast : startswith_char PosixPath.sep
                    (drop (Z.to_nat L * Z.to_nat C) h ++ ext) = false).
  { destruct (drop (Z.to_nat L * Z.to_nat C) h) as [|c t] eqn:Ed.
    - destruct Hext as [-> | [t ->]]; done.
    - simpl. destruct (Ascii.eqb_spec c PosixPath.sep); [|done]. subst c.
      exfalso. apply Hplain. apply (subseteq_drop (Z.to_nat L * Z.to_nat C) h).
      rewrite Ed. left. }
  destruct (Z.to_nat L) as [|n] eqn:EL; [done|].
  rewrite <- cons_seq. rewrite !map_cons. simpl PosixPath.join_all.
  rewrite join_segments.
  - rewrite concat_segments. rewrite map_cons, map_map. done.
  - intros E. apply (f_equal length) in E. rewrite segment_length in E; simpl in *; nia.
  - by apply endswith_plain, segment_plain.
  - apply Forall_map, Forall_forall. intros i Hi. apply elem_of_seq in Hi. simpl.
    split; [|by apply segment_plain].
    intros E. apply (f_equal length) in E. rewrite segment_length in E; simpl in *; nia.
  - done.
Qed.
End Path.

(** For an ordinary file name, one without [/] that does not begin with a
    dot, the extension of [os.path.splitext] is the substring from the
    last dot. *)
Lemma splitext_ordinary_name (c : ascii) (rest : str) :
  c <> PosixPath.extsep ->
  PosixPath.sep ∉ c :: rest ->
  (PosixPath.splitext (c :: rest)).2 = AsWritten.extension (c :: rest).
Proof.
  intros Hc Hsep. unfold PosixPath.splitext, AsWritten.extension.
  destruct (rfind_spec PosixPath.sep (c :: rest)) as [[_ Hs] | (j & Hj & _)].
  2:{ exfalso. apply Hsep. by eapply list_elem_of_lookup_2. }
  rewrite Hs.
  destruct (rfind_spec PosixPath.extsep (c :: rest)) as [[_ Hr] | (k & Hk & Hr)];
    rewrite Hr; [done|].
  destruct k as [|k]; [simpl in Hk; congruence|].
  replace (Z.of_nat (S k) <? 0) with false by (symmetry; apply Z.ltb_ge; lia).
  replace (-1 <? Z.of_nat (S k)) with true by (symmetry; apply Z.ltb_lt; lia).
  apply lookup_lt_Some in Hk.
  change (-1 + 1) with (Z.of_nat 0). rewrite slice_take_drop by lia.
  simpl. destruct (Ascii.eqb_spec c PosixPath.extsep); [done|]. done.
Qed.

Section GenerateFilename.
Variable settings : Settings.
Variable env : Env.

Lemma generate_filename_with_hash (self : StoredFile) (h name : str) (w : World) :
  hash self = Some h -> h <> [] ->
  original_filename self = Some name ->
  generate_filename settings env self w = (w, Ok (self, hashed_path settings h name)).
Proof.
  intros Hh Hne Hn. unfold generate_filename, hash_missing, Eff.bind, ret.
  rewrite Hh. destruct h; [done|]. rewrite Hn, Hh. done.
Qed.

(** C8, amended: for a record with a hash free of [/] that is at least
    SPLIT_LEVELS * SPLIT_CHARS long, with SPLIT_LEVELS >= 0 and
    SPLIT_CHARS >= 1, [generate_filename] returns SPLIT_LEVELS directory
    segments of SPLIT_CHARS characters each, taken from the front of the
    hash, then the remainder of the hash followed by the extension of the
    original file name as [os.path.splitext] gives it; the path depends
    on the hash, the file name and the settings only; with
    SPLIT_LEVELS = 0 it is the single component hash + extension. *)
Theorem generate_filename_layout (self : StoredFile) (h name : str) (w : World) :
  hash self = Some h -> h <> [] ->
  original_filename self = Some name ->
  PosixPath.sep ∉ h ->
  0 <= SCULPT_S3FILES_SPLIT_LEVELS settings ->
  1 <= SCULPT_S3FILES_SPLIT_CHARS settings ->
  SCULPT_S3FILES_SPLIT_LEVELS settings * SCULPT_S3FILES_SPLIT_CHARS settings
    <= Z.of_nat (length h) ->
  let levels := Z.to_nat (SCULPT_S3FILES_SPLIT_LEVELS settings) in
  let chars := Z.to_nat (SCULPT_S3FILES_SPLIT_CHARS settings) in
  let path := AsWritten.layout h (PosixPath.splitext name).2 levels chars in
  generate_filename settings env self w = (w, Ok (self, path))
  /\ Forall (fun i => length (take chars (drop (i * chars) h)) = chars) (seq 0 levels)
  /\ (forall (self' : StoredFile) (w' : World),
        hash self' = Some h -> original_filename self' = Some name ->
        generate_filename settings env self' w' = (w', Ok (self', path)))
  /\ (levels = 0%nat -> path = h ++ (PosixPath.splitext name).2).
Proof.
  intros Hh Hne Hn Hplain HL HC Hlen levels chars path.
  assert (Hpath : hashed_path settings h name = path)
    by (by apply hashed_path_layout).
  repeat split.
  - rewrite (generate_filename_with_hash self h name) by done. by rewrite Hpath.
  - apply Forall_forall. intros i Hi. apply elem_of_seq in Hi.
    apply segment_length. subst levels chars. nia.
  - intros self' w' Hh' Hn'.
    rewrite (generate_filename_with_hash self' h name) by done. by rewrite Hpath.
  - intros H0. subst path. unfold AsWritten.layout. rewrite H0. done.
Qed.

End GenerateFilename.

Lemma generate_filename_layout_witness :
  generate_filename Fixtures.settings0 Fixtures.env_ok Fixtures.upload
    (Fixtures.world_of [] 1)
  = (Fixtures.world_of [] 1, Ok (Fixtures.upload, lit "a/b/cdef0123.jpg")).
Proof.
  destruct (generate_filename_layout Fixtures.settings0 Fixtures.env_ok
              Fixtures.upload (lit "abcdef0123") (lit "photo.jpg")
              (Fixtures.world_of [] 1)) as [H _].
  - reflexivity.
  - discriminate.
  - reflexivity.
  - apply (bool_decide_unpack _). vm_compute. exact I.
  - vm_compute. discriminate.
  - vm_compute. discriminate.
  - vm_compute. discriminate.
  - exact H.
Defined.

(** C8, as the design document has it, fails: for the file name
    [.bashrc] the substring from the last dot is the whole name, and the
    code appends no extension at all. *)
Lemma generate_filename_hidden_file :
  generate_filename Fixtures.settings0 Fixtures.env_ok Fixtures.dotfile
    (Fixtures.world_of [] 1)
  = (Fixtures.world_of [] 1, Ok (Fixtures.dotfile, lit "a/b/cdef0123"))
  /\ AsWritten.generate (lit "abcdef0123") (lit ".bashrc") 2 1
     = lit "a/b/cdef0123.bashrc".
Proof. split; vm_compute; reflexivity. Qed.

(** ** Derivations *)

Section DerivationProperties.
Variable settings : Settings.
Variable env : Env.
Variable cls : StoredFileClass.

Lemma get_derivation_cached_absent (self : Instance) (dt : str) (rule : DerivationRule) (w : World) :
  get_data_by_id (DERIVATION_TYPES cls) dt = Some rule ->
  cache_dict self !! dt = Some None ->
  rule_mode rule = LAZY \/ rule_mode rule = IMMEDIATELY ->
  _get_derivation settings env cls self dt true false w
  = generate_derivation settings env cls (cache_setup self) dt None w.
Proof.
  intros Hrule Hc Hmode. unfold _get_derivation. rewrite Hrule.
  assert (Hc' : cache_dict (cache_setup self) !! dt = Some None) by done.
  rewrite Hc'. rewrite bool_decide_eq_true_2 by eauto. simpl.
  unfold Eff.bind at 1, ret at 1. rewrite Hc'. simpl.
  destruct Hmode as [-> | ->]; done.
Qed.


(** [_get_derivation], by cases on what it looks at. *)
Lemma get_derivation_unfold (self : Instance) (dt : str) (rule : DerivationRule)
    (process_lazy force_reload : bool) (w : World) :
  get_data_by_id (DERIVATION_TYPES cls) dt = Some rule ->
  _get_derivation settings env cls self dt process_lazy force_reload w
  = match looked_up self dt force_reload w with
    | Raise e => (w, Raise e)
    | Ok found =>
        let self1 :=
          if negb (bool_decide (is_Some (cache_dict self !! dt))) || force_reload
          then cache_set dt found (cache_setup self)
          else cache_setup self in
        match found with
        | Some d => (w, Ok (self1, usable (Some d)))
        | None =>
            if (bool_decide (rule_mode rule = LAZY)
                || bool_decide (rule_mode rule = IMMEDIATELY)) && process_lazy
            then generate_derivation settings env cls self1 dt None w
            else (w, Ok (self1, None))
        end
    end.
Proof.
  intros Hrule. unfold _get_derivation, looked_up. rewrite Hrule.
  change (cache_dict (cache_setup self)) with (cache_dict self).
  destruct (negb (bool_decide (is_Some (cache_dict self !! dt))) || force_reload) eqn:E.
  - unfold derivations_first, Eff.bind, lift, get, ret.
    destruct (int_of_str dt) as [value|e]; [|done]. simpl.
    unfold cache_dict at 1. simpl. rewrite lookup_insert_eq. simpl.
    destruct (find_derivation (rows w) (columns self) value) as [d|]; simpl.
    + by destruct (bool_decide (remote_status d = LOCAL_CORRUPT)).
    + by destruct ((_ || _) && process_lazy).
  - unfold Eff.bind at 1, ret at 1.
    change (cache_dict (cache_setup self)) with (cache_dict self).
    destruct (mjoin (cache_dict self !! dt)) as [d|]; simpl.
    + by destruct (bool_decide (remote_status d = LOCAL_CORRUPT)).
    + by destruct ((_ || _) && process_lazy).
Qed.



End DerivationProperties.



(** C1 fails on the code: a LAZY rule whose generation failed, so that
    [generate_derivation] left the absence in the cache; the next
    [_get_derivation], without [force_reload], finds the absence there
    and calls [generate_derivation] again.  ([allow_lazy] is set to false
    on the cache hit, and the test that follows reads [process_lazy]
    only.) *)
Theorem cached_absence_is_generated_again :
  let fresh := {| columns := Fixtures.upload; _derivation_cache := None |} in
  let call := {| called_derivation_type := lit "PREVIEW";
                 called_original_image := None |} in
  exists w1 self1,
    generate_derivation Fixtures.settings0 Fixtures.env_undecodable Fixtures.LazyFile
      fresh (lit "PREVIEW") None (Fixtures.world_of [Fixtures.upload] 2)
    = (w1, Ok (self1, None))
    /\ cache_dict self1 !! lit "PREVIEW" = Some None
    /\ calls w1 = [call]
    /\ exists w2 self2,
         _get_derivation Fixtures.settings0 Fixtures.env_undecodable Fixtures.LazyFile
           self1 (lit "PREVIEW") true false w1
         = (w2, Ok (self2, None))
         /\ calls w2 = [call; call].
Proof.
  do 2 eexists. split; [vm_compute; reflexivity|].
  split; [vm_compute; reflexivity|].
  split; [vm_compute; reflexivity|].
  do 2 eexists. split; vm_compute; reflexivity.
Qed.

(** ** Writing to disk *)

Section WriteToDisk.
Variable settings : Settings.
Variable env : Env.

Lemma Model_save_update (self : StoredFile) (k : Z) (f : Field) (fields : list Field) (w : World) :
  pk self = Some k -> has_row k (rows w) = true ->
  Model_save self (Some (f :: fields)) w
  = (with_saves (saves w ++ [{| saved_pk := k; saved_fields := Some (f :: fields) |}])
       (with_rows (updated_rows self k (f :: fields) (rows w)) w),
     Ok self).
Proof.
  intros Hpk Hrow. unfold Model_save. rewrite Hpk.
  unfold Eff.bind, get. rewrite Hrow. reflexivity.
Qed.

Local Arguments Model_save : simpl never.

Lemma with_entropy_same (w : World) : with_entropy (entropy w) w = w.
Proof. by destruct w. Qed.



Lemma bind_run {S A B} (m : Eff.M S A) (k : A -> Eff.M S B) (s s1 : S) (a : A) :
  m s = (s1, Ok a) -> Eff.bind m k s = k a s1.
Proof. intros H. unfold Eff.bind. by rewrite H. Qed.


Lemma pk_copy_fields (self r : StoredFile) (fields : list Field) :
  pk (foldr (copy_field self) r fields) = pk r.
Proof. induction fields as [|f fs IH]; [done|]. simpl. by destruct f. Qed.



(** The first lines of [write_to_disk]: the hash and the name, computed
    when missing. *)
Lemma write_to_disk_prepare (self : StoredFile) (name : str) (w : World) :
  original_filename self = Some name ->
  exists n self2 g,
    resolve_hash_and_name settings env self w
    = (with_entropy n w, Ok (self2, freshly_computed self))
    /\ pk self2 = pk self
    /\ original_filename self2 = Some name
    /\ generated_filename self2 = Some g.
Proof.
  intros Hname. unfold resolve_hash_and_name, freshly_computed.
  destruct (hash_missing self) eqn:Eh.
  - unfold generate_hash, Eff.bind, get, modify, ret. simpl.
    destruct (generated_filename self) as [g|] eqn:Eg.
    + do 3 eexists. split; [reflexivity|]. done.
    + unfold generate_filename, hash_missing, Eff.bind, ret. simpl.
      destruct (auto_hash env (entropy w) self); simpl; rewrite Hname; simpl;
        do 3 eexists; (split; [reflexivity|]); done.
  - unfold Eff.bind at 1, ret at 1.
    destruct (generated_filename self) as [g|] eqn:Eg.
    + exists (entropy w). do 2 eexists. rewrite with_entropy_same.
      split; [reflexivity|]. done.
    + unfold generate_filename, Eff.bind, ret. rewrite Eh, Hname.
      exists (entropy w). do 2 eexists. rewrite with_entropy_same.
      split; [reflexivity|]. done.
Qed.

(** [write_to_disk] up to the write: the name is resolved, the directory
    is there, and the file is written or the write raised. *)
Lemma write_to_disk_written (self : StoredFile) (data : Data) (w : World)
    (name : str) :
  original_filename self = Some name ->
  (forall d, makedirs_fails env d = false) ->
  exists n self2 g,
    pk self2 = pk self
    /\ original_filename self2 = Some name
    /\ generated_filename self2 = Some g
    /\ forall save_ : bool,
         let path := PosixPath.join (SCULPT_S3FILES_LOCAL_DIR settings) [g] in
         write_to_disk settings env self data save_ w
         = if write_fails env path
           then
             let bad := set_remote_status LOCAL_CORRUPT (set_is_valid (Some false) self2) in
             (if save_
              then save settings env bad
                     (Some (freshly_computed self ++ [F_is_valid; F_remote_status]))
              else ret bad)
               (with_disk (after_failed_write env path (Bytes (data_bytes data)) (disk w))
                  (with_entropy n w))
           else
             let good := set_remote_status (default_remote_status settings) self2 in
             (if save_
              then save settings env good (Some (freshly_computed self ++ [F_remote_status]))
              else ret good)
               (with_disk (<[path := Bytes (data_bytes data)]> (disk w))
                  (with_entropy n w)).
Proof.
  intros Hname Hmk.
  destruct (write_to_disk_prepare self name w Hname)
    as (n & self2 & g & Hprep & Hpk2 & Hname2 & Hg2).
  exists n, self2, g. repeat (split; [done|]). intros save_ path.
  unfold write_to_disk. rewrite (bind_run _ _ _ _ _ Hprep).
  assert (Hpath : local_path settings self2 = Ok path)
    by (unfold local_path; by rewrite Hg2).
  assert (Hdir : ensure_local_path_exists settings env self2 (with_entropy n w)
                 = (with_entropy n w, Ok tt)).
  { unfold ensure_local_path_exists, Eff.bind, lift. rewrite Hpath.
    destruct (dir_exists env _); [done|]. by rewrite Hmk. }
  rewrite (bind_run _ _ _ _ _ Hdir).
  unfold try_except, Eff.bind at 1, write_file.
  unfold Eff.bind at 1 2, lift. rewrite Hpath.
  destruct (write_fails env path) eqn:Ew.
  - unfold Eff.bind, modify, throw, ret. simpl. by destruct save_.
  - unfold modify, ret. simpl. by destruct save_.
Qed.


End WriteToDisk.



(** ** Immediate derivations *)

Lemma quiet_ret {A} (a : A) : quiet (ret a).
Proof. by intros w. Qed.
Lemma quiet_throw {A} (e : exc) : quiet (@throw World A e).
Proof. by intros w. Qed.
Lemma quiet_lift {A} (r : result A) : quiet (lift r).
Proof. by intros w. Qed.
Lemma quiet_get : quiet (@get World).
Proof. by intros w. Qed.
Lemma quiet_bind {A B} (m : W A) (k : A -> W B) :
  quiet m -> (forall a, quiet (k a)) -> quiet (Eff.bind m k).
Proof.
  intros Hm Hk w. unfold Eff.bind. specialize (Hm w).
  destruct (m w) as [w1 [a|e]]; simpl in *; [|done].
  by rewrite Hk.
Qed.
Lemma quiet_try_except {A} (m : W A) (c : exc -> bool) (h : exc -> W A) :
  quiet m -> (forall e, quiet (h e)) -> quiet (try_except m c h).
Proof.
  intros Hm Hh w. unfold try_except. specialize (Hm w).
  destruct (m w) as [w1 [a|e]]; simpl in *; [done|].
  destruct (c e); [by rewrite Hh | done].
Qed.
Lemma quiet_pil {A} (m : H A) : quiet (pil m).
Proof. intros w. unfold pil, zoom. by destruct (m (images w)). Qed.
Lemma quiet_modify (f : World -> World) :
  (forall w, calls (f w) = calls w) -> quiet (modify f).
Proof. intros Hf w. apply Hf. Qed.

Section ImmediateDerivations.
Variable settings : Settings.
Variable env : Env.
Variable cls : StoredFileClass.

Ltac quiet_step :=
  first
    [ apply quiet_ret | apply quiet_throw | apply quiet_lift | apply quiet_get
    | apply quiet_pil
    | apply quiet_modify; intros; reflexivity
    | apply quiet_bind; [|intros]
    | apply quiet_try_except; [|intros] ].

Lemma quiet_generate_hash self : quiet (generate_hash env self).
Proof. unfold generate_hash. repeat quiet_step. Qed.

Lemma quiet_generate_filename self : quiet (generate_filename settings env self).
Proof.
  unfold generate_filename. quiet_step.
  - destruct (hash_missing self); [apply quiet_generate_hash | quiet_step].
  - destruct (original_filename a); quiet_step.
Qed.

Lemma quiet_Model_save self uf : quiet (Model_save self uf).
Proof.
  unfold Model_save, record_save.
  destruct uf as [[|f fs]|]; [quiet_step| |].
  - destruct (pk self); [|quiet_step]. quiet_step; [quiet_step|].
    destruct (has_row z (rows a)); repeat quiet_step.
  - quiet_step; [quiet_step|]. destruct (pk self); repeat quiet_step.
Qed.

Lemma quiet_save self uf : quiet (save settings env self uf).
Proof.
  unfold save. quiet_step; [|apply quiet_Model_save].
  destruct (generated_filename self) as [[|? ?]|]; try quiet_step;
    try apply quiet_generate_filename; quiet_step.
Qed.

Lemma quiet_ensure self : quiet (ensure_local_path_exists settings env self).
Proof.
  unfold ensure_local_path_exists. quiet_step; [quiet_step|].
  destruct (dir_exists env _); [quiet_step|].
  destruct (makedirs_fails env _); quiet_step.
Qed.

Lemma quiet_write_file path c : quiet (write_file env path c).
Proof. unfold write_file. destruct (write_fails env path); quiet_step. Qed.

Lemma quiet_derive self rule img : quiet (derive settings env self rule img).
Proof.
  unfold derive. repeat (quiet_step; try apply quiet_save; try apply quiet_ensure;
                         try apply quiet_write_file).
Qed.

Lemma generate_filename_ok self name w :
  original_filename self = Some name ->
  exists w1 self1 g,
    generate_filename settings env self w = (w1, Ok (self1, g))
    /\ original_filename self1 = Some name.
Proof.
  intros Hname. unfold generate_filename, Eff.bind.
  destruct (hash_missing self).
  - unfold generate_hash, Eff.bind, get, modify, ret. simpl. rewrite Hname. eauto 10.
  - unfold ret. rewrite Hname. eauto 10.
Qed.

Lemma Model_save_all_ok self w :
  exists w1 self1,
    Model_save self None w = (w1, Ok self1)
    /\ original_filename self1 = original_filename self.
Proof.
  unfold Model_save, Eff.bind, get, record_save, modify, ret.
  destruct (pk self); simpl; eauto 10.
Qed.

(** [save()] of a record that has an original file name never raises. *)
Lemma save_all_ok self name w :
  original_filename self = Some name ->
  exists w1 self1,
    save settings env self None w = (w1, Ok self1)
    /\ original_filename self1 = Some name.
Proof.
  intros Hname. unfold save.
  assert (Hregen : exists w1 self1,
    Eff.bind (Eff.bind (generate_filename settings env self)
                (fun sg => ret (set_generated_filename (Some sg.2) sg.1)))
      (fun self0 => Model_save self0 None) w = (w1, Ok self1)
    /\ original_filename self1 = Some name).
  { destruct (generate_filename_ok self name w Hname) as (w1 & self1 & g & Hg & Hn).
    unfold Eff.bind at 1 2. rewrite Hg. unfold ret.
    destruct (Model_save_all_ok (set_generated_filename (Some (self1, g).2) (self1, g).1) w1)
      as (w2 & self2 & Hs & Hn2).
    rewrite Hs. exists w2, self2. split; [done|]. rewrite Hn2. done. }
  destruct (generated_filename self) as [[|c g]|]; [exact Hregen | | exact Hregen].
  unfold Eff.bind, ret.
  destruct (Model_save_all_ok self w) as (w2 & self2 & Hs & Hn2).
  rewrite Hs. exists w2, self2. split; [done|]. congruence.
Qed.

Lemma bind_ok_inv {S A B} (m : Eff.M S A) (k : A -> Eff.M S B) (s s' : S) (b : B) :
  Eff.bind m k s = (s', Ok b) ->
  exists s1 a, m s = (s1, Ok a) /\ k a s1 = (s', Ok b).
Proof.
  unfold Eff.bind. destruct (m s) as [s1 [a|e]]; [eauto | done].
Qed.

(** The record [derive] hands back is named [_auto_generated.jpg]. *)
Lemma derive_names_the_child self rule img w w' sf :
  derive settings env self rule img w = (w', Ok sf) ->
  original_filename sf = Some (lit "_auto_generated.jpg").
Proof.
  unfold derive. intros H.
  apply bind_ok_inv in H as (w1 & new_image & _ & H).
  apply bind_ok_inv in H as (w2 & ni & _ & H).
  apply bind_ok_inv in H as (w3 & sf0 & Hsave & H).
  apply bind_ok_inv in H as (w4 & u & _ & H).
  unfold ret in H. simplify_eq.
  edestruct (save_all_ok) as (w5 & sf5 & Hs5 & Hn5); [|rewrite Hs5 in Hsave].
  2:{ simplify_eq. exact Hn5. }
  done.
Qed.

Lemma generate_derivation_with_image (self : Instance) (rule : DerivationRule)
    (dt : str) (img : ref) (w : World) :
  get_data_by_id (DERIVATION_TYPES cls) dt = Some rule ->
  exists w' self' r,
    generate_derivation settings env cls self dt (Some img) w = (w', Ok (self', r))
    /\ calls w' = calls w ++ [{| called_derivation_type := dt;
                                 called_original_image := Some img |}]
    /\ columns self' = columns self.
Proof.
  intros Hrule. unfold generate_derivation.
  unfold Eff.bind at 1, record_call, modify. rewrite Hrule.
  set (w0 := with_calls _ w).
  destruct (_ || _); [unfold ret; eauto 10|].
  unfold Eff.bind at 1, ret at 1.
  unfold Eff.bind at 1, try_except.
  pose proof (quiet_derive (columns (cache_setup self)) rule img w0) as Hq.
  unfold Eff.bind at 1.
  destruct (derive settings env (columns (cache_setup self)) rule img w0)
    as [w1 [sf|e]] eqn:Ed; simpl in Hq.
  - unfold ret at 1. simpl.
    apply derive_names_the_child in Ed.
    destruct (save_all_ok (set_remote_status (default_remote_status settings) sf)
                (lit "_auto_generated.jpg") w1 Ed) as (w2 & sf2 & Hs & _).
    pose proof (quiet_save
                  (set_remote_status (default_remote_status settings) sf) None w1) as Hq2.
    unfold Eff.bind. rewrite Hs in *. simpl in Hq2. unfold ret.
    do 3 eexists. split; [reflexivity|]. split; [|done]. simpl. congruence.
  - simpl. unfold ret. do 3 eexists. split; [reflexivity|]. split; [|done]. done.
Qed.

Lemma immediate_loop_calls (table : list DerivationRule) (self : Instance)
    (img : ref) (w : World) :
  (forall r, r ∈ table -> rule_mode r = IMMEDIATELY ->
             is_Some (get_data_by_id (DERIVATION_TYPES cls) (rule_id r))) ->
  exists w' self',
    immediate_loop settings env cls table self img w = (w', Ok self')
    /\ calls w' = calls w ++ map (call_for (Some img)) (List.filter immediate table).
Proof.
  revert self w. induction table as [|d table IH]; intros self w Hknown.
  - exists w, self. split; [done|]. simpl. by rewrite app_nil_r.
  - simpl. unfold immediate at 1.
    destruct (bool_decide_reflect (rule_mode d = IMMEDIATELY)) as [Hd|Hd].
    + destruct (Hknown d) as [rule Hrule]; [left | done |].
      destruct (generate_derivation_with_image self rule (rule_id d) img w Hrule)
        as (w1 & self1 & r & Hg & Hc & _).
      unfold Eff.bind at 1 2. rewrite Hg. unfold ret.
      destruct (IH self1 w1) as (w2 & self2 & Hl & Hc2).
      { intros r' Hr'. apply Hknown. by right. }
      simpl. rewrite Hl. exists w2, self2. split; [done|].
      rewrite Hc2, Hc. by rewrite <- app_assoc.
    + unfold Eff.bind at 1, ret at 1.
      destruct (IH self w) as (w2 & self2 & Hl & Hc2).
      { intros r' Hr'. apply Hknown. by right. }
      rewrite Hl. eauto.
Qed.

(** Without the attribute [file_class], which [AbstractStoredFile] does
    not define, a valid record gets [AttributeError]. *)
Lemma generate_immediate_derivations_no_file_class (self : Instance) (img : ref)
    (w : World) :
  file_class cls = None ->
  is_valid (columns self) = Some true ->
  generate_immediate_derivations settings env cls self (Some img) w
  = (w, Raise (AttributeError (lit "file_class"))).
Proof.
  intros Hfc Hv. unfold generate_immediate_derivations, Eff.bind, ret.
  by rewrite Hv, Hfc.
Qed.

(** C6, amended: where the rule table is reached through
    [self.file_class] and its IMMEDIATELY rules are known to the record's
    class, [generate_immediate_derivations] returns normally and, when the
    record's [is_valid] is true, invokes [generate_derivation] exactly for
    the rules whose mode is IMMEDIATELY, in the order of the table and for
    no others, passing to every invocation the same image: the one it was
    given, or the one it decoded, once.  When [is_valid] is not true it
    invokes [generate_derivation] for no rule. *)
Theorem generate_immediate_derivations_calls (self : Instance)
    (original_image : option ref) (table : list DerivationRule) (w : World) :
  file_class cls = Some table ->
  (forall r, r ∈ table -> rule_mode r = IMMEDIATELY ->
             is_Some (get_data_by_id (DERIVATION_TYPES cls) (rule_id r))) ->
  (original_image = None ->
   exists path i, local_path settings (columns self) = Ok path
                  /\ decode env path = Some i) ->
  let image := default (length (images w)) original_image in
  exists w' self',
    generate_immediate_derivations settings env cls self original_image w
    = (w', Ok self')
    /\ calls w' = calls w ++
         (if truthy (is_valid (columns self))
          then map (call_for (Some image)) (List.filter immediate table)
          else []).
Proof.
  intros Hfc Hknown Hopen image. unfold generate_immediate_derivations.
  assert (Himg : exists w0,
    (match original_image with
     | Some r => ret r
     | None => Eff.bind (lift (local_path settings (columns self)))
                 (fun path => Image_open env path)
     end) w = (w0, Ok image) /\ calls w0 = calls w).
  { subst image. destruct original_image as [r|]; simpl.
    - by exists w.
    - destruct Hopen as (path & i & Hp & Hd); [done|].
      unfold Eff.bind, lift. rewrite Hp. unfold Image_open. rewrite Hd.
      unfold pil, zoom, alloc. eexists. split; [reflexivity | done]. }
  destruct Himg as (w0 & Hrun & Hc0).
  rewrite (bind_run _ _ _ _ _ Hrun).
  destruct (truthy (is_valid (columns self))).
  - rewrite Hfc.
    destruct (immediate_loop_calls table self image w0 Hknown) as (w' & self' & Hl & Hc).
    exists w', self'. split; [done|]. by rewrite Hc, Hc0.
  - exists w0, self. split; [done|]. by rewrite app_nil_r.
Qed.

End ImmediateDerivations.

Lemma generate_immediate_derivations_calls_witness :
  exists w' self',
    generate_immediate_derivations Fixtures.settings0 Fixtures.env_ok Fixtures.AppFile
      {| columns := Fixtures.upload; _derivation_cache := None |} (Some 0%nat)
      (with_images [Fixtures.photo] (Fixtures.world_of [Fixtures.upload] 2))
    = (w', Ok self')
    /\ calls w' = [{| called_derivation_type := lit "THUMBNAIL";
                      called_original_image := Some 0%nat |}].
Proof.
  destruct (generate_immediate_derivations_calls Fixtures.settings0 Fixtures.env_ok
              Fixtures.AppFile
              {| columns := Fixtures.upload; _derivation_cache := None |} (Some 0%nat)
              DERIVATION_TYPES_default
              (with_images [Fixtures.photo] (Fixtures.world_of [Fixtures.upload] 2)))
    as (w' & self' & Hrun & Hcalls).
  - reflexivity.
  - intros r Hr _. apply list_elem_of_singleton in Hr. subst r.
    eexists. reflexivity.
  - discriminate.
  - exists w', self'. split; [exact Hrun | exact Hcalls].
Defined.

(** C6, as the design document has it, fails: for an upload nobody has
    checked yet ([is_valid] is [None]) the THUMBNAIL rule is IMMEDIATELY
    and [generate_derivation] is not invoked for it. *)
Lemma unchecked_record_generates_nothing :
  List.filter immediate DERIVATION_TYPES_default <> []
  /\ exists w' self',
       generate_immediate_derivations Fixtures.settings0 Fixtures.env_ok Fixtures.AppFile
         {| columns := Fixtures.unchecked_upload; _derivation_cache := None |}
         (Some 0%nat)
         (with_images [Fixtures.photo] (Fixtures.world_of [Fixtures.unchecked_upload] 2))
       = (w', Ok self')
       /\ calls w' = [].
Proof. split; [discriminate|]. do 2 eexists. vm_compute. split; reflexivity. Qed.

(** ** Purity of the pipeline *)

Lemma lookup_fresh (h : heap) (x : image) : (h ++ [x]) !! length h = Some x.
Proof. by apply list_lookup_middle. Qed.

Lemma insert_fresh (h : heap) (x y : image) : <[length h := y]> (h ++ [x]) = h ++ [y].
Proof.
  replace (length h) with (length h + 0)%nat by lia. by rewrite insert_app_r.
Qed.

Lemma lookup_old (h : heap) (x : image) (r : ref) (i : image) :
  h !! r = Some i -> (h ++ [x]) !! r = Some i.
Proof. intros H. by apply lookup_app_l_Some. Qed.

Lemma thumbnail_fresh (h : heap) (c : image) (target : Z * Z) :
  Image.thumbnail (length h) target (h ++ [c])
  = match fitted c target with
    | Ok c' => (h ++ [c'], Ok tt)
    | Raise e => (h ++ [c], Raise e)
    end.
Proof.
  unfold Image.thumbnail, fitted, Eff.bind, read, lift, write, ret.
  rewrite lookup_fresh.
  destruct (Image.thumbnail_size (im_size c) target) as [sz|e]; simpl; [|done].
  destruct (bool_decide (sz = im_size c)); [done|]. by rewrite insert_fresh.
Qed.

Lemma crop_run (h : heap) (r : ref) (i : image) (b : box) :
  h !! r = Some i ->
  Image.crop r b h
  = (h ++ [{| im_size := (b.1.2 - b.1.1.1, b.2 - b.1.1.2); im_mode := im_mode i;
              im_data := Cropped b (im_data i) |}], Ok (length h)).
Proof.
  intros H. unfold Image.crop, Eff.bind, read. rewrite H.
  by destruct b as [[[x0 y0] x1] y1].
Qed.

Lemma convert_run (h : heap) (r : ref) (i : image) (m : str) :
  h !! r = Some i ->
  Image.convert r m h
  = (h ++ [{| im_size := im_size i; im_mode := m; im_data := Converted m (im_data i) |}],
     Ok (length h)).
Proof. intros H. unfold Image.convert, Eff.bind, read. by rewrite H. Qed.

Lemma paste_fresh (h : heap) (f : image) (src : ref) (s : image) (b : box) :
  h !! src = Some s ->
  Image.paste (length h) src b (h ++ [f])
  = (h ++ [{| im_size := im_size f; im_mode := im_mode f;
              im_data := Pasted (im_data f) (im_data s) b |}], Ok tt).
Proof.
  intros H. unfold Image.paste, Eff.bind, read, write.
  rewrite lookup_fresh, (lookup_old _ _ _ _ H). by rewrite insert_fresh.
Qed.

(** Stepping through a computation, one bind at a time. *)
Lemma bind_ret {S A B} (a : A) (k : A -> Eff.M S B) (s : S) :
  Eff.bind (ret a) k s = k a s.
Proof. done. Qed.

Lemma bind_pure {S A B} (m : Eff.M S A) (k : A -> Eff.M S B) (r : result A) (s : S) :
  m s = (s, r) ->
  Eff.bind m k s = match r with Ok a => k a s | Raise e => (s, Raise e) end.
Proof. intros H. unfold Eff.bind. rewrite H. by destruct r. Qed.

Lemma bind_read {B} (r : ref) (i : image) (k : image -> H B) (h : heap) :
  h !! r = Some i -> Eff.bind (read r) k h = k i h.
Proof. intros H. unfold Eff.bind, read. by rewrite H. Qed.

Lemma bind_read_none {B} (r : ref) (k : image -> H B) (h : heap) :
  h !! r = None -> Eff.bind (read r) k h = (h, Raise SystemError).
Proof. intros H. unfold Eff.bind, read. by rewrite H. Qed.

Lemma anchor_x_pure (op : Operation) (sz : Z * Z) (ns : option (Z * Z)) :
  exists r, forall h, anchor_x op sz ns h = (h, r).
Proof.
  unfold anchor_x, local, Eff.bind, ret, throw.
  destruct (anchor_horizontal op), ns; eauto.
Qed.

Lemma anchor_y_pure (op : Operation) (sz : Z * Z) (ns : option (Z * Z)) :
  exists r, forall h, anchor_y op sz ns h = (h, r).
Proof.
  unfold anchor_y, local, Eff.bind, ret, throw.
  destruct (anchor_vertical op), ns; eauto.
Qed.

Section Purity.
Variable settings : Settings.

(** The part of the resize step that crops. *)
Lemma crop_tail (op : Operation) (l : Locals) (h : heap) (wi : ref) (wcur : image)
    (ns : option (Z * Z)) (x y : Z) :
  h !! wi = Some wcur ->
  (Eff.bind (local "next_size" ns) (fun n =>
     let cb := (x, y, x + n.1, y + n.2) in
     Eff.bind (Image.crop wi cb) (fun ni =>
       Eff.bind (Image.thumbnail ni (target_size op)) (fun _ =>
         ret {| working_image := wi; next_size := ns; next_image := Some ni;
                crop_box := Some cb |})))) h
  = match ns with
    | None => (h, Raise (UnboundLocalError (lit "next_size")))
    | Some n =>
        let cb := (x, y, x + n.1, y + n.2) in
        let c := {| im_size := (n.1, n.2); im_mode := im_mode wcur;
                    im_data := Cropped cb (im_data wcur) |} in
        match fitted c (target_size op) with
        | Ok c' => (h ++ [c'],
                    Ok {| working_image := wi; next_size := ns;
                          next_image := Some (length h); crop_box := Some cb |})
        | Raise e => (h ++ [c], Raise e)
        end
    end.
Proof.
  intros Hw. destruct ns as [n|]; [|done].
  unfold local. rewrite bind_ret. cbv zeta.
  unfold Eff.bind at 1. rewrite (crop_run _ _ _ _ Hw). cbn [fst snd].
  replace (x + n.1 - x) with n.1 by lia. replace (y + n.2 - y) with n.2 by lia.
  unfold Eff.bind at 1. rewrite thumbnail_fresh.
  by destruct (fitted _ _).
Qed.

(** The part of the resize step that pads. *)
Lemma expand_tail (op : Operation) (l : Locals) (h : heap) (wi : ref) (wcur : image)
    (ns : option (Z * Z)) (x y : Z) :
  h !! wi = Some wcur ->
  (let paste_box := (- x, - y, - x + (im_size wcur).1, - y + (im_size wcur).2) in
   Eff.bind (local "next_size" ns) (fun n =>
     Eff.bind (Image.new (lit "RGB") n (background_color op)) (fun ni =>
       Eff.bind (Image.paste ni wi paste_box) (fun _ =>
         Eff.bind (if SCULPT_S3FILES_DUMP_DERIVATIONS settings
                   then local "crop_box" (crop_box l) else ret (0, 0, 0, 0)) (fun _ =>
           Eff.bind (Image.thumbnail ni (target_size op)) (fun _ =>
             ret {| working_image := wi; next_size := ns; next_image := Some ni;
                    crop_box := crop_box l |})))))) h
  = match ns with
    | None => (h, Raise (UnboundLocalError (lit "next_size")))
    | Some n =>
        let paste_box := (- x, - y, - x + (im_size wcur).1, - y + (im_size wcur).2) in
        let p := {| im_size := n; im_mode := lit "RGB";
                    im_data := Pasted (Filled n (background_color op)) (im_data wcur)
                                 paste_box |} in
        if SCULPT_S3FILES_DUMP_DERIVATIONS settings && bool_decide (crop_box l = None)
        then (h ++ [p], Raise (UnboundLocalError (lit "crop_box")))
        else
          match fitted p (target_size op) with
          | Ok p' => (h ++ [p'],
                      Ok {| working_image := wi; next_size := ns;
                            next_image := Some (length h); crop_box := crop_box l |})
          | Raise e => (h ++ [p], Raise e)
          end
    end.
Proof.
  intros Hw. destruct ns as [n|]; [|done].
  cbv zeta. unfold local at 1. rewrite bind_ret.
  unfold Eff.bind at 1. unfold Image.new at 1, alloc at 1.
  unfold Eff.bind at 1. rewrite (paste_fresh _ _ _ _ _ Hw). cbn [im_size im_mode im_data].
  destruct (SCULPT_S3FILES_DUMP_DERIVATIONS settings); cbn [andb].
  - destruct (crop_box l) as [cb|]; cbn [bool_decide decide_rel]; unfold local.
    + rewrite bind_ret. rewrite bool_decide_eq_false_2 by done.
      unfold Eff.bind at 1. rewrite thumbnail_fresh. by destruct (fitted _ _).
    + by rewrite bool_decide_eq_true_2.
  - rewrite bind_ret. unfold Eff.bind at 1. rewrite thumbnail_fresh.
    by destruct (fitted _ _).
Qed.

Lemma bind_lift {A B} (r : result A) (k : A -> H B) (h : heap) :
  Eff.bind (lift r) k h = match r with Ok a => k a h | Raise e => (h, Raise e) end.
Proof. by destruct r. Qed.

Lemma bind_convert {B} (r : ref) (i : image) (m : str) (k : ref -> H B) (h : heap) :
  h !! r = Some i ->
  Eff.bind (Image.convert r m) k h
  = k (length h)
      (h ++ [{| im_size := im_size i; im_mode := m; im_data := Converted m (im_data i) |}]).
Proof. intros Hr. unfold Eff.bind. by rewrite (convert_run _ _ _ _ Hr). Qed.

Ltac lookups :=
  repeat first
    [ rewrite lookup_fresh
    | erewrite lookup_old by (first [eassumption | apply lookup_fresh]) ].

Ltac finish_crop op l1 l2 ns x y Hcb E1 E2 :=
  let T1 := fresh in let T2 := fresh in
  pose proof (crop_tail op l1 _ _ _ ns x y E1) as T1; cbv zeta in T1;
  pose proof (crop_tail op l2 _ _ _ ns x y E2) as T2; cbv zeta in T2;
  rewrite T1, T2; clear T1 T2; rewrite ?Hcb;
  repeat case_match; unfold alike_and_framed, alike, view, sound; cbn [fst snd working_image
    next_size next_image crop_box fmap option_fmap option_map];
  lookups;
  repeat split; try done; try congruence;
  try (by apply prefix_app_r); try (by eexists);
  try (rewrite <- app_assoc; by apply prefix_app_r).

Ltac finish_expand op l1 l2 ns x y Hcb E1 E2 :=
  let T1 := fresh in let T2 := fresh in
  pose proof (expand_tail op l1 _ _ _ ns x y E1) as T1; cbv zeta in T1;
  pose proof (expand_tail op l2 _ _ _ ns x y E2) as T2; cbv zeta in T2;
  rewrite T1, T2; clear T1 T2; rewrite ?Hcb;
  repeat case_match; unfold alike_and_framed, alike, view, sound; cbn [fst snd working_image
    next_size next_image crop_box fmap option_fmap option_map];
  lookups;
  repeat split; try done; try congruence;
  try (by apply prefix_app_r); try (by eexists);
  try (rewrite <- app_assoc; by apply prefix_app_r).

Lemma resize_sim (op : Operation) (l1 l2 : Locals) (h1 h2 : heap) :
  view h1 l1 = view h2 l2 ->
  alike_and_framed h1 h2 (resize settings op l1 h1) (resize settings op l2 h2).
Proof.
  unfold view. intros Hv. injection Hv as Hw Hns Hni Hcb.
  unfold resize.
  destruct (h1 !! working_image l1) as [w|] eqn:E1; symmetry in Hw.
  2:{ rewrite !bind_read_none by done. by repeat split. }
  rewrite (bind_read _ _ _ _ E1), (bind_read _ _ _ _ Hw).
  rewrite Hns, !bind_lift.
  destruct (intermediate_size op (im_size w) (next_size l2)) as [ns|e];
    [|by repeat split].
  destruct (anchor_x_pure op (im_size w) ns) as [rx Hx].
  rewrite !(bind_pure _ _ _ _ (Hx _)).
  destruct rx as [x|e]; [|by repeat split].
  destruct (anchor_y_pure op (im_size w) ns) as [ry Hy].
  rewrite !(bind_pure _ _ _ _ (Hy _)).
  destruct ry as [y|e]; [|by repeat split].
  destruct (bool_decide (im_mode w = lit "RGB")).
  - rewrite !bind_ret.
    rewrite (bind_read _ _ _ _ E1), (bind_read _ _ _ _ Hw).
    destruct (resize_mode op).
    + finish_crop op l1 l2 ns x y Hcb E1 Hw.
    + finish_expand op l1 l2 ns x y Hcb E1 Hw.
    + finish_expand op l1 l2 ns x y Hcb E1 Hw.
    + finish_expand op l1 l2 ns x y Hcb E1 Hw.
  - rewrite (bind_convert _ _ _ _ _ E1), (bind_convert _ _ _ _ _ Hw).
    rewrite !(bind_read _ _ _ _ (lookup_fresh _ _)).
    destruct (resize_mode op).
    + finish_crop op l1 l2 ns x y Hcb
        (lookup_fresh h1 (Build_image (im_size w) (lit "RGB")
                            (Converted (lit "RGB") (im_data w))))
        (lookup_fresh h2 (Build_image (im_size w) (lit "RGB")
                            (Converted (lit "RGB") (im_data w)))).
    + finish_expand op l1 l2 ns x y Hcb
        (lookup_fresh h1 (Build_image (im_size w) (lit "RGB")
                            (Converted (lit "RGB") (im_data w))))
        (lookup_fresh h2 (Build_image (im_size w) (lit "RGB")
                            (Converted (lit "RGB") (im_data w)))).
    + finish_expand op l1 l2 ns x y Hcb
        (lookup_fresh h1 (Build_image (im_size w) (lit "RGB")
                            (Converted (lit "RGB") (im_data w))))
        (lookup_fresh h2 (Build_image (im_size w) (lit "RGB")
                            (Converted (lit "RGB") (im_data w)))).
    + finish_expand op l1 l2 ns x y Hcb
        (lookup_fresh h1 (Build_image (im_size w) (lit "RGB")
                            (Converted (lit "RGB") (im_data w))))
        (lookup_fresh h2 (Build_image (im_size w) (lit "RGB")
                            (Converted (lit "RGB") (im_data w)))).
Qed.


Lemma bind_unfold {S A B} (m : Eff.M S A) (k : A -> Eff.M S B) (s : S) :
  Eff.bind m k s
  = match m s with
    | (s', Ok a) => k a s'
    | (s', Raise e) => (s', Raise e)
    end.
Proof. done. Qed.

Lemma turn_sim (op : Operation) (l1 l2 : Locals) (h1 h2 : heap) :
  view h1 l1 = view h2 l2 -> sound h1 l1 -> sound h2 l2 ->
  alike_and_framed h1 h2 (turn settings op l1 h1) (turn settings op l2 h2).
Proof.
  intros Hv Hs1 Hs2. unfold turn.
  rewrite (bind_unfold _ _ h1), (bind_unfold _ _ h2).
  match goal with
  | |- alike_and_framed _ _ (match ?m1 with _ => _ end) (match ?m2 with _ => _ end) =>
      assert (Hstep : alike_and_framed h1 h2 m1 m2);
      [| destruct m1 as [h1' [l1'|e1]], m2 as [h2' [l2'|e2]] ]
  end.
  { destruct (bool_decide (operation op = lit "resize")); [by apply resize_sim|].
    unfold alike_and_framed, alike, ret. simpl.
    repeat split; try done; first [apply Hs1 | apply Hs2]. }
  all: destruct Hstep as (Ha & Hp1 & Hp2); unfold alike in Ha; simpl in Ha; try done.
  destruct Ha as (Hv' & [Hw1 Hn1] & [Hw2 Hn2]).
  unfold view in Hv'. injection Hv' as _ Hns Hni Hcb.
  unfold local, Eff.bind, ret, throw.
  destruct (next_image l1') as [n1|], (next_image l2') as [n2|]; simpl in Hni;
    try done.
  injection Hni as Hni.
  unfold alike_and_framed, alike, view, sound. simpl.
  repeat split; try done. congruence.
Qed.

Lemma turns_sim (ops : list Operation) (l1 l2 : Locals) (h1 h2 : heap) :
  view h1 l1 = view h2 l2 -> sound h1 l1 -> sound h2 l2 ->
  alike_and_framed h1 h2 (turns settings ops l1 h1) (turns settings ops l2 h2).
Proof.
  revert l1 l2 h1 h2. induction ops as [|op ops IH]; intros l1 l2 h1 h2 Hv Hs1 Hs2.
  - unfold alike_and_framed, alike. simpl.
    repeat split; try done; first [apply Hs1 | apply Hs2].
  - simpl turns. rewrite (bind_unfold _ _ h1), (bind_unfold _ _ h2).
    pose proof (turn_sim op l1 l2 h1 h2 Hv Hs1 Hs2) as (Ha & Hp1 & Hp2).
    destruct (turn settings op l1 h1) as [h1' [l1'|e1]],
             (turn settings op l2 h2) as [h2' [l2'|e2]];
      unfold alike in Ha; simpl in Ha, Hp1, Hp2; try done.
    destruct Ha as (Hv' & Hs1' & Hs2').
    destruct (IH l1' l2' h1' h2' Hv' Hs1' Hs2') as (Ha' & Hp1' & Hp2').
    repeat split; [done | by etrans | by etrans].
Qed.


Lemma process_image_sim (source1 source2 : ref) (ops : list Operation)
    (h1 h2 : heap) (img : image) :
  h1 !! source1 = Some img -> h2 !! source2 = Some img ->
  same_image (process_image settings source1 ops h1)
             (process_image settings source2 ops h2)
  /\ h1 `prefix_of` (process_image settings source1 ops h1).1
  /\ h2 `prefix_of` (process_image settings source2 ops h2).1.
Proof.
  intros H1 H2. unfold process_image.
  rewrite (bind_unfold _ _ h1), (bind_unfold _ _ h2).
  match goal with
  | |- context [turns settings ops ?l1 h1] =>
      match goal with
      | |- context [turns settings ops ?l2 h2] =>
          pose proof (turns_sim ops l1 l2 h1 h2) as Hsim
      end
  end.
  destruct Hsim as (Ha & Hp1 & Hp2).
  { unfold view. simpl. by rewrite H1, H2. }
  { split; simpl; [by rewrite H1 | done]. }
  { split; simpl; [by rewrite H2 | done]. }
  match type of Ha with
  | alike ?m1 ?m2 => destruct m1 as [h1' [l1'|e1]], m2 as [h2' [l2'|e2]]
  end; unfold alike in Ha; simpl in *; try done.
  destruct Ha as (Hv & [[i Hi] _] & _).
  unfold view in Hv. injection Hv as Hw _ _ _.
  split; [|done]. unfold same_image, ret. simpl.
  exists i. split; [done | congruence].
Qed.

(** C9: [process_image] never mutates the source image: after the call
    the source reference holds the same image (size, mode and pixels), and
    so does every image that existed before, the call only adds images;
    and calling it twice with the same source image and operations gives
    the same outcome: the same exception, or two images that are equal,
    pixels included. *)
Theorem process_image_is_pure (source : ref) (ops : list Operation) (h : heap)
    (img : image) :
  h !! source = Some img ->
  let o1 := process_image settings source ops h in
  let o2 := process_image settings source ops o1.1 in
  o1.1 !! source = Some img
  /\ h `prefix_of` o1.1
  /\ o2.1 !! source = Some img
  /\ same_image o1 o2.
Proof.
  intros Hs o1 o2.
  destruct (process_image_sim source source ops h h img Hs Hs) as (_ & Hp & _).
  assert (Hs1 : o1.1 !! source = Some img) by (by eapply prefix_lookup_Some).
  destruct (process_image_sim source source ops h o1.1 img Hs Hs1) as (Hsame & _ & Hp2).
  repeat split; try done.
  by eapply prefix_lookup_Some.
Qed.
End Purity.

Lemma process_image_is_pure_witness :
  same_image
    (process_image Fixtures.settings0 0%nat [Fixtures.thumbnail_op] [Fixtures.photo])
    (process_image Fixtures.settings0 0%nat [Fixtures.thumbnail_op]
       (process_image Fixtures.settings0 0%nat [Fixtures.thumbnail_op]
          [Fixtures.photo]).1).
Proof.
  exact (proj2 (proj2 (proj2
           (process_image_is_pure Fixtures.settings0 0%nat [Fixtures.thumbnail_op]
              [Fixtures.photo] Fixtures.photo eq_refl)))).
Defined.

(** ** The image pipeline: further properties *)

Section PipelineShape.
Variable settings : Settings.

(** X1: an operations list whose first entry is not a resize makes
    [process_image] raise [UnboundLocalError]: the end of the first turn
    reads [next_image], which only a resize assigns.  No image is made. *)
Theorem first_operation_must_be_resize (source : ref) (op : Operation)
    (ops : list Operation) (h : heap) :
  operation op <> lit "resize" ->
  process_image settings source (op :: ops) h
  = (h, Raise (UnboundLocalError (lit "next_image"))).
Proof.
  intros Hop. unfold process_image. simpl turns. unfold turn.
  rewrite bool_decide_eq_false_2 by done. reflexivity.
Qed.

Lemma turns_app (a b : list Operation) (l : Locals) (h : heap) :
  turns settings (a ++ b) l h = Eff.bind (turns settings a l) (turns settings b) h.
Proof.
  revert l h. induction a as [|op a IH]; intros l h; [done|].
  simpl. rewrite !bind_unfold. destruct (turn settings op l h) as [h1 [l1|e]]; [|done].
  rewrite IH. by rewrite bind_unfold.
Qed.

(** After a turn of the loop, [working_image] and [next_image] name the
    same image. *)
Lemma turn_binds_next_image (op : Operation) (l l' : Locals) (h h' : heap) :
  turn settings op l h = (h', Ok l') -> next_image l' = Some (working_image l').
Proof.
  unfold turn. intros H.
  apply bind_ok_inv in H as (h1 & l1 & _ & H).
  apply bind_ok_inv in H as (h2 & ni & Hni & H).
  unfold local in Hni. destruct (next_image l1) as [n|] eqn:E; [|done].
  unfold ret in *. simplify_eq. simpl. done.
Qed.

Lemma turns_bind_next_image (ops : list Operation) (l l' : Locals) (h h' : heap) :
  ops <> [] ->
  turns settings ops l h = (h', Ok l') -> next_image l' = Some (working_image l').
Proof.
  revert l h. induction ops as [|op ops IH]; intros l h Hne H; [done|].
  simpl in H. apply bind_ok_inv in H as (h1 & l1 & Hturn & H).
  destruct ops as [|op2 ops].
  - unfold turns, ret in H. simplify_eq. by eapply turn_binds_next_image.
  - by eapply IH.
Qed.

(** X2: an entry that is not a resize, at the end of a list that is not
    empty, changes nothing: the outcome, exception or image, and the heap
    are those of the list without it. *)
Theorem trailing_operation_of_another_kind (source : ref) (ops : list Operation)
    (op : Operation) (h : heap) :
  ops <> [] ->
  operation op <> lit "resize" ->
  process_image settings source (ops ++ [op]) h = process_image settings source ops h.
Proof.
  intros Hne Hop. unfold process_image.
  rewrite !bind_unfold, turns_app, bind_unfold.
  destruct (turns settings ops _ h) as [h1 [l1|e]] eqn:E; [|done].
  apply turns_bind_next_image in E; [|done].
  simpl turns. unfold turn. rewrite bool_decide_eq_false_2 by done.
  unfold Eff.bind, ret, local. rewrite E. done.
Qed.

(** X3: a resize whose target height is 0, first in the list, makes
    [process_image] raise [ZeroDivisionError] when it computes the target
    aspect ratio, before any image is made. *)
Theorem zero_target_height_raises (source : ref) (op : Operation)
    (ops : list Operation) (h : heap) (img : image) (current fw : float) :
  h !! source = Some img ->
  operation op = lit "resize" ->
  aspect_ratio (im_size img) = Ok current ->
  float_of_int (target_size op).1 = Ok fw ->
  (target_size op).2 = 0 ->
  process_image settings source (op :: ops) h = (h, Raise ZeroDivisionError).
Proof.
  intros Hs Hop Hc Hw Hz. unfold process_image. simpl turns. unfold turn.
  rewrite bool_decide_eq_true_2 by done.
  unfold resize. rewrite !bind_unfold. simpl working_image.
  unfold read at 1. rewrite Hs. rewrite bind_unfold.
  unfold lift, intermediate_size. rewrite Hc. simpl.
  unfold aspect_ratio at 1. rewrite Hw, Hz. reflexivity.
Qed.

Lemma fitted_mode (c c' : image) (target : Z * Z) :
  fitted c target = Ok c' -> im_mode c' = im_mode c.
Proof.
  unfold fitted. destruct (Image.thumbnail_size _ _) as [sz|]; simpl; [|done].
  intros [= <-]. by destruct (bool_decide _).
Qed.

Ltac rgb_crop op l ns x y E :=
  let T := fresh in
  pose proof (crop_tail op l _ _ _ ns x y E) as T; cbv zeta in T;
  rewrite T; clear T;
  destruct ns as [n|]; [|done];
  destruct (fitted _ _) as [c'|] eqn:Ef; [|done];
  intros [= <- <-];
  do 3 eexists; split; [reflexivity|]; split; [apply lookup_fresh|];
  split; [exact Ef|]; simpl; try done.

Ltac rgb_expand op l ns x y E :=
  let T := fresh in
  pose proof (expand_tail settings op l _ _ _ ns x y E) as T; cbv zeta in T;
  rewrite T; clear T;
  destruct ns as [n|]; [|done];
  destruct (_ && _); [done|];
  destruct (fitted _ _) as [c'|] eqn:Ef; [|done];
  intros [= <- <-];
  do 3 eexists; split; [reflexivity|]; split; [apply lookup_fresh|];
  split; [exact Ef|]; simpl; try done.

(** A resize step leaves in [next_image] an RGB image as [thumbnail]
    fitted it. *)
Lemma resize_leaves_fitted (op : Operation) (l l' : Locals) (h h' : heap) :
  resize settings op l h = (h', Ok l') ->
  exists ni i c, next_image l' = Some ni /\ h' !! ni = Some i
                 /\ fitted c (target_size op) = Ok i /\ im_mode c = lit "RGB".
Proof.
  unfold resize.
  destruct (h !! working_image l) as [w|] eqn:E.
  2:{ by rewrite bind_read_none. }
  rewrite (bind_read _ _ _ _ E), bind_lift.
  destruct (intermediate_size op (im_size w) (next_size l)) as [ns|e]; [|done].
  destruct (anchor_x_pure op (im_size w) ns) as [rx Hx].
  rewrite (bind_pure _ _ _ _ (Hx _)). destruct rx as [x|e]; [|done].
  destruct (anchor_y_pure op (im_size w) ns) as [ry Hy].
  rewrite (bind_pure _ _ _ _ (Hy _)). destruct ry as [y|e]; [|done].
  destruct (bool_decide_reflect (im_mode w = lit "RGB")) as [Hrgb|Hrgb].
  - rewrite bind_ret, (bind_read _ _ _ _ E).
    destruct (resize_mode op).
    + rgb_crop op l ns x y E.
    + rgb_expand op l ns x y E.
    + rgb_expand op l ns x y E.
    + rgb_expand op l ns x y E.
  - rewrite (bind_convert _ _ _ _ _ E).
    rewrite (bind_read _ _ _ _ (lookup_fresh _ _)).
    destruct (resize_mode op).
    + rgb_crop op l ns x y
        (lookup_fresh h (Build_image (im_size w) (lit "RGB")
                           (Converted (lit "RGB") (im_data w)))).
    + rgb_expand op l ns x y
        (lookup_fresh h (Build_image (im_size w) (lit "RGB")
                           (Converted (lit "RGB") (im_data w)))).
    + rgb_expand op l ns x y
        (lookup_fresh h (Build_image (im_size w) (lit "RGB")
                           (Converted (lit "RGB") (im_data w)))).
    + rgb_expand op l ns x y
        (lookup_fresh h (Build_image (im_size w) (lit "RGB")
                           (Converted (lit "RGB") (im_data w)))).
Qed.

Lemma resize_gives_rgb (op : Operation) (l l' : Locals) (h h' : heap) :
  resize settings op l h = (h', Ok l') ->
  exists ni i, next_image l' = Some ni /\ h' !! ni = Some i /\ im_mode i = lit "RGB".
Proof.
  intros H. apply resize_leaves_fitted in H as (ni & i & c & Hn & Hi & Hf & Hm).
  exists ni, i. repeat split; try done. apply fitted_mode in Hf. congruence.
Qed.

(** The size [thumbnail] settles on is within the target. *)
Lemma thumbnail_size_fits (cur target sz : Z * Z) :
  1 <= target.1 -> 0 <= target.2 ->
  Image.thumbnail_size cur target = Ok sz ->
  sz.1 <= target.1 /\ sz.2 <= target.2.
Proof.
  destruct cur as [x y], target as [tw th], sz as [x' y']. simpl. intros Hw Hh.
  unfold Image.thumbnail_size, Image.floordiv. simpl.
  destruct (Z.ltb_spec tw x) as [Hx|Hx].
  - destruct (Z.eqb_spec x 0); [lia|]. simpl.
    destruct (Z.ltb_spec th (Z.max (y * tw / x) 1)) as [Hy|Hy].
    + destruct (Z.eqb_spec (Z.max (y * tw / x) 1) 0); [lia|]. simpl.
      intros [= <- <-]. split; [|lia].
      assert (tw * th / Z.max (y * tw / x) 1 <= tw); [|lia].
      apply Z.div_le_upper_bound; nia.
    + intros [= <- <-]. lia.
  - simpl. destruct (Z.ltb_spec th y) as [Hy|Hy].
    + destruct (Z.eqb_spec y 0); [lia|]. simpl.
      intros [= <- <-]. split; [|lia].
      assert (x * th / y <= Z.max x 0); [|lia].
      apply Z.div_le_upper_bound; nia.
    + intros [= <- <-]. lia.
Qed.

Lemma fitted_fits (c c' : image) (target : Z * Z) :
  1 <= target.1 -> 0 <= target.2 ->
  fitted c target = Ok c' ->
  (im_size c').1 <= target.1 /\ (im_size c').2 <= target.2.
Proof.
  intros Hw Hh. unfold fitted.
  destruct (Image.thumbnail_size _ _) as [sz|] eqn:E; simpl; [|done].
  apply thumbnail_size_fits in E; [|done..].
  intros [= <-]. destruct (bool_decide_reflect (sz = im_size c)) as [<-|]; done.
Qed.

Lemma turn_keeps_rgb (op : Operation) (l l' : Locals) (h h' : heap) :
  (forall r, next_image l = Some r ->
     exists i, h !! r = Some i /\ im_mode i = lit "RGB") ->
  turn settings op l h = (h', Ok l') ->
  forall r, next_image l' = Some r ->
    exists i, h' !! r = Some i /\ im_mode i = lit "RGB".
Proof.
  intros Hinv H. unfold turn in H.
  apply bind_ok_inv in H as (h1 & l1 & Hstep & H).
  apply bind_ok_inv in H as (h2 & ni & Hni & H).
  unfold local in Hni. destruct (next_image l1) as [n|] eqn:E; [|done].
  unfold ret in *. simplify_eq. simpl. intros r [= <-].
  destruct (bool_decide (operation op = lit "resize")).
  - apply resize_gives_rgb in Hstep as (ni2 & i & Hn & Hi & Hm).
    rewrite E in Hn. simplify_eq. eauto.
  - unfold ret in Hstep. simplify_eq. by apply Hinv.
Qed.

Lemma turns_keep_rgb (ops : list Operation) (l l' : Locals) (h h' : heap) :
  (forall r, next_image l = Some r ->
     exists i, h !! r = Some i /\ im_mode i = lit "RGB") ->
  turns settings ops l h = (h', Ok l') ->
  forall r, next_image l' = Some r ->
    exists i, h' !! r = Some i /\ im_mode i = lit "RGB".
Proof.
  revert l h. induction ops as [|op ops IH]; intros l h Hinv H.
  - unfold turns, ret in H. by simplify_eq.
  - simpl in H. apply bind_ok_inv in H as (h1 & l1 & Hturn & H).
    eapply IH; [|exact H]. by eapply turn_keeps_rgb.
Qed.

(** X4: whatever the mode of the source image, the image [process_image]
    returns for a list of operations that is not empty is an image of the
    heap in mode RGB. *)
Theorem process_image_gives_rgb (source : ref) (ops : list Operation)
    (h h' : heap) (r : ref) :
  ops <> [] ->
  process_image settings source ops h = (h', Ok r) ->
  exists i, h' !! r = Some i /\ im_mode i = lit "RGB".
Proof.
  intros Hne H. unfold process_image in H.
  apply bind_ok_inv in H as (h1 & l1 & Hturns & H).
  unfold ret in H. simplify_eq.
  eapply turns_keep_rgb; [|exact Hturns|by eapply turns_bind_next_image].
  by intros r [=].
Qed.

(** X5: when the last operation is a resize to a target of at least one
    pixel each way, the image [process_image] returns is no wider and no
    higher than that target, in both modes that are implemented and
    whatever the earlier operations did. *)
Theorem last_resize_fits_target (source : ref) (ops : list Operation) (op : Operation)
    (h h' : heap) (r : ref) :
  operation op = lit "resize" ->
  1 <= (target_size op).1 -> 1 <= (target_size op).2 ->
  process_image settings source (ops ++ [op]) h = (h', Ok r) ->
  exists i, h' !! r = Some i
            /\ (im_size i).1 <= (target_size op).1
            /\ (im_size i).2 <= (target_size op).2.
Proof.
  intros Hop Hw Hh H. unfold process_image in H.
  apply bind_ok_inv in H as (h1 & l1 & Hturns & H).
  unfold ret in H. simplify_eq.
  rewrite turns_app in Hturns.
  apply bind_ok_inv in Hturns as (h0 & l0 & _ & Hlast).
  simpl in Hlast. apply bind_ok_inv in Hlast as (h2 & l2 & Hturn & Hret).
  unfold ret in Hret. simplify_eq.
  unfold turn in Hturn. rewrite bool_decide_eq_true_2 in Hturn by done.
  apply bind_ok_inv in Hturn as (h3 & l3 & Hres & Hturn).
  apply resize_leaves_fitted in Hres as (ni & i & c & Hn & Hi & Hf & _).
  rewrite Hn in Hturn. unfold local, Eff.bind, ret in Hturn. simplify_eq. simpl.
  exists i. split; [done|]. apply fitted_fits in Hf; [done | done | lia].
Qed.

End PipelineShape.

Lemma first_operation_must_be_resize_witness :
  process_image Fixtures.settings0 0%nat [Cases.rotate_op; Fixtures.thumbnail_op]
    [Fixtures.photo]
  = ([Fixtures.photo], Raise (UnboundLocalError (lit "next_image"))).
Proof.
  apply first_operation_must_be_resize.
  intros E. vm_compute in E. discriminate E.
Defined.

Lemma trailing_operation_of_another_kind_witness :
  process_image Fixtures.settings0 0%nat ([Fixtures.thumbnail_op] ++ [Cases.rotate_op])
    [Fixtures.photo]
  = process_image Fixtures.settings0 0%nat [Fixtures.thumbnail_op] [Fixtures.photo].
Proof.
  apply trailing_operation_of_another_kind.
  - discriminate.
  - intros E. vm_compute in E. discriminate E.
Defined.

Lemma zero_target_height_raises_witness :
  process_image Fixtures.settings0 0%nat [Cases.flat_op] [Fixtures.photo]
  = ([Fixtures.photo], Raise ZeroDivisionError).
Proof.
  eapply (zero_target_height_raises Fixtures.settings0 0%nat Cases.flat_op []
            [Fixtures.photo] Fixtures.photo).
  - reflexivity.
  - reflexivity.
  - vm_compute. reflexivity.
  - vm_compute. reflexivity.
  - reflexivity.
Defined.

Lemma process_image_gives_rgb_witness :
  exists h' r i,
    process_image Fixtures.settings0 0%nat [Fixtures.thumbnail_op] [Cases.palette_photo]
    = (h', Ok r)
    /\ h' !! r = Some i /\ im_mode i = lit "RGB".
Proof.
  eassert (E : process_image Fixtures.settings0 0%nat [Fixtures.thumbnail_op]
                 [Cases.palette_photo] = (_, Ok _)) by (vm_compute; reflexivity).
  destruct (process_image_gives_rgb Fixtures.settings0 0%nat [Fixtures.thumbnail_op]
              [Cases.palette_photo] _ _ ltac:(discriminate) E) as (i & Hi & Hm).
  eauto 10.
Defined.

Lemma last_resize_fits_target_witness :
  exists h' r i,
    process_image Fixtures.settings0 0%nat ([Fixtures.crop_3_4] ++ [Fixtures.thumbnail_op])
      [Fixtures.photo]
    = (h', Ok r)
    /\ h' !! r = Some i /\ (im_size i).1 <= 50 /\ (im_size i).2 <= 50.
Proof.
  eassert (E : process_image Fixtures.settings0 0%nat
                 ([Fixtures.crop_3_4] ++ [Fixtures.thumbnail_op])
                 [Fixtures.photo] = (_, Ok _)) by (vm_compute; reflexivity).
  destruct (last_resize_fits_target Fixtures.settings0 0%nat [Fixtures.crop_3_4]
              Fixtures.thumbnail_op [Fixtures.photo] _ _ eq_refl
              ltac:(simpl; lia) ltac:(simpl; lia) E) as (i & Hi & Hw & Hh).
  eauto 10.
Defined.

(** ** File types *)

Ltac two_lists :=
  unfold mime_in;
  match goal with |- context [mime_type ?s] => destruct (mime_type s) as [m|]; [|done] end;
  apply andb_false_iff;
  match goal with
  | |- bool_decide ?P = false \/ bool_decide ?Q = false =>
      destruct (bool_decide_reflect P) as [Hp|Hp]; [|by left];
      destruct (bool_decide_reflect Q) as [Hq|Hq]; [|by right];
      exfalso; apply list_elem_of_In in Hp, Hq; cbv in Hp, Hq;
      intuition (subst; discriminate)
  end.

(** X6: the three file type tests exclude one another: no record is an
    image and a video, an image and an audio file, or a video and an
    audio file, whatever its MIME type. *)
Theorem file_types_exclusive (self : StoredFile) :
  is_image self && is_video self = false
  /\ is_image self && is_audio self = false
  /\ is_video self && is_audio self = false.
Proof.
  unfold is_image, is_video, is_audio.
  split; [two_lists|]. split; two_lists.
Qed.

(** ** Derivations: further properties *)

Section DerivationLookup.
Variable settings : Settings.
Variable env : Env.
Variable cls : StoredFileClass.

(** X7: for a derivation type the class does not list, [_get_derivation]
    and [generate_derivation] both raise
    [Exception('unknown file derivation type')], with any arguments, and
    neither touches the rows, the images or the files. *)
Theorem unknown_rule_raises (self : Instance) (dt : str) (process_lazy force_reload : bool)
    (img : option ref) (w : World) :
  get_data_by_id (DERIVATION_TYPES cls) dt = None ->
  _get_derivation settings env cls self dt process_lazy force_reload w
  = (w, Raise (Exception (lit "unknown file derivation type")))
  /\ exists w',
       generate_derivation settings env cls self dt img w
       = (w', Raise (Exception (lit "unknown file derivation type")))
       /\ rows w' = rows w /\ images w' = images w /\ disk w' = disk w.
Proof.
  intros H. unfold _get_derivation, generate_derivation. rewrite H. split; [done|].
  unfold Eff.bind, record_call, modify, throw. simpl. eauto.
Qed.

(** When [_get_derivation] finds a derived record, in the cache or in the
    store, it hands it out if it is usable, caches it, and changes
    nothing. *)
Lemma get_derivation_found (self : Instance) (dt : str) (rule : DerivationRule)
    (process_lazy force_reload : bool) (w : World) (d : StoredFile) :
  get_data_by_id (DERIVATION_TYPES cls) dt = Some rule ->
  looked_up self dt force_reload w = Ok (Some d) ->
  exists self',
    _get_derivation settings env cls self dt process_lazy force_reload w
    = (w, Ok (self', usable (Some d)))
    /\ cache_dict self' !! dt = Some (Some d)
    /\ columns self' = columns self.
Proof.
  intros Hrule Hl.
  rewrite (get_derivation_unfold settings env cls self dt rule) by done.
  rewrite Hl. cbv zeta. eexists. split; [reflexivity|]. split.
  - unfold looked_up in Hl.
    destruct (negb (bool_decide (is_Some (cache_dict self !! dt))) || force_reload) eqn:E.
    + unfold cache_dict. simpl. by rewrite lookup_insert_eq.
    + change (cache_dict (cache_setup self)) with (cache_dict self).
      destruct (cache_dict self !! dt) as [[?|]|]; simpl in *; congruence.
  - by destruct (_ || _).
Qed.

(** X8: a derived record that is marked LOCAL_CORRUPT is never redone by
    [_get_derivation]: when that is what it finds, in the cache on a hit
    without [force_reload], or in the store when the query goes through,
    the answer is [None], with any [process_lazy] and in every mode of
    the rule, and the store, the images, the files and the log of calls
    of [generate_derivation] are left as they were. *)
Theorem corrupt_derivation_is_not_redone (self : Instance) (dt : str)
    (rule : DerivationRule) (process_lazy force_reload : bool) (w : World)
    (d : StoredFile) :
  get_data_by_id (DERIVATION_TYPES cls) dt = Some rule ->
  looked_up self dt force_reload w = Ok (Some d) ->
  remote_status d = LOCAL_CORRUPT ->
  exists self',
    _get_derivation settings env cls self dt process_lazy force_reload w
    = (w, Ok (self', None))
    /\ cache_dict self' !! dt = Some (Some d).
Proof.
  intros Hrule Hl Hc.
  destruct (get_derivation_found self dt rule process_lazy force_reload w d Hrule Hl)
    as (self' & H & Hcache & _).
  exists self'. rewrite H. unfold usable. by rewrite bool_decide_eq_true_2.
Qed.

(** X9: a derived record that [_get_derivation] finds and that is not
    corrupt is handed out as it is; nothing is generated, whatever the
    mode of the rule, nothing is changed, and the record is in the cache
    afterwards. *)
Theorem found_derivation_is_served (self : Instance) (dt : str)
    (rule : DerivationRule) (process_lazy force_reload : bool) (w : World)
    (d : StoredFile) :
  get_data_by_id (DERIVATION_TYPES cls) dt = Some rule ->
  looked_up self dt force_reload w = Ok (Some d) ->
  remote_status d <> LOCAL_CORRUPT ->
  exists self',
    _get_derivation settings env cls self dt process_lazy force_reload w
    = (w, Ok (self', Some d))
    /\ cache_dict self' !! dt = Some (Some d).
Proof.
  intros Hrule Hl Hc.
  destruct (get_derivation_found self dt rule process_lazy force_reload w d Hrule Hl)
    as (self' & H & Hcache & _).
  exists self'. rewrite H. unfold usable. by rewrite bool_decide_eq_false_2.
Qed.

(** X10: [_get_derivation] generates nothing for a rule in mode MANUAL,
    nor when [process_lazy] is false: when its look at the cache or at
    the store goes through, it answers with what it found, if that is
    usable, has what it found in the cache afterwards, absence included,
    and leaves the store, the images, the files and the log of calls
    alone. *)
Theorem no_generation_unless_allowed (self : Instance) (dt : str)
    (rule : DerivationRule) (process_lazy force_reload : bool) (w : World)
    (found : option StoredFile) :
  get_data_by_id (DERIVATION_TYPES cls) dt = Some rule ->
  rule_mode rule = MANUAL \/ process_lazy = false ->
  looked_up self dt force_reload w = Ok found ->
  exists self',
    _get_derivation settings env cls self dt process_lazy force_reload w
    = (w, Ok (self', usable found))
    /\ cache_dict self' !! dt = Some found
    /\ columns self' = columns self.
Proof.
  intros Hrule Hno Hl.
  destruct found as [d|].
  { by eapply get_derivation_found. }
  rewrite (get_derivation_unfold settings env cls self dt rule) by done.
  rewrite Hl. cbv zeta.
  assert (Hgate : (bool_decide (rule_mode rule = LAZY)
                   || bool_decide (rule_mode rule = IMMEDIATELY)) && process_lazy = false).
  { destruct Hno as [-> | ->]; [done | by rewrite andb_false_r]. }
  rewrite Hgate. eexists. split; [reflexivity|]. split.
  - unfold looked_up in Hl.
    destruct (negb (bool_decide (is_Some (cache_dict self !! dt))) || force_reload) eqn:E.
    + unfold cache_dict. simpl. by rewrite lookup_insert_eq.
    + change (cache_dict (cache_setup self)) with (cache_dict self).
      apply orb_false_iff in E as [E _]. apply negb_false_iff in E.
      apply bool_decide_eq_true in E as [v Hv]. rewrite Hv in *. simpl in Hl. congruence.
  - by destruct (negb _ || force_reload).
Qed.

(** X30: on a cache miss, and with [force_reload], [_get_derivation] asks
    the store for the derivations whose integer column equals the id of
    the rule: when that id does not read as a number, as [THUMBNAIL] does
    not, the query raises [ValueError]; nothing is cached for the type,
    nothing is generated and nothing is changed. *)
Theorem store_lookup_by_id_raises (self : Instance) (dt : str)
    (rule : DerivationRule) (process_lazy force_reload : bool) (w : World) :
  get_data_by_id (DERIVATION_TYPES cls) dt = Some rule ->
  int_of_str dt = Raise ValueError ->
  cache_dict self !! dt = None \/ force_reload = true ->
  _get_derivation settings env cls self dt process_lazy force_reload w
  = (w, Raise ValueError).
Proof.
  intros Hrule Hint Hmiss.
  rewrite (get_derivation_unfold settings env cls self dt rule) by done.
  unfold looked_up.
  assert (E : negb (bool_decide (is_Some (cache_dict self !! dt))) || force_reload = true).
  { destruct Hmiss as [Hm | ->]; [|by rewrite orb_true_r].
    rewrite bool_decide_eq_false_2; [done|]. rewrite Hm. by intros [? ?]. }
  rewrite E, Hint. done.
Qed.

End DerivationLookup.

Lemma unknown_rule_raises_witness :
  _get_derivation Fixtures.settings0 Fixtures.env_ok AbstractStoredFile
    (Cases.loaded Fixtures.upload) (lit "POSTER") true false Cases.store
  = (Cases.store, Raise (Exception (lit "unknown file derivation type"))).
Proof.
  exact (proj1 (unknown_rule_raises Fixtures.settings0 Fixtures.env_ok AbstractStoredFile
                  (Cases.loaded Fixtures.upload) (lit "POSTER") true false None
                  Cases.store eq_refl)).
Defined.

Lemma corrupt_derivation_is_not_redone_witness :
  exists self',
    _get_derivation Fixtures.settings0 Fixtures.env_ok AbstractStoredFile
      (Cases.cached Fixtures.upload Cases.bad_thumbnail) (lit "THUMBNAIL") true false
      (Fixtures.world_of [Fixtures.upload; Cases.bad_thumbnail] 3)
    = (Fixtures.world_of [Fixtures.upload; Cases.bad_thumbnail] 3, Ok (self', None)).
Proof.
  destruct (corrupt_derivation_is_not_redone Fixtures.settings0 Fixtures.env_ok
              AbstractStoredFile (Cases.cached Fixtures.upload Cases.bad_thumbnail)
              (lit "THUMBNAIL") Cases.thumbnail_rule true false
              (Fixtures.world_of [Fixtures.upload; Cases.bad_thumbnail] 3)
              Cases.bad_thumbnail eq_refl eq_refl eq_refl) as (self' & H & _).
  exists self'. exact H.
Defined.

Lemma found_derivation_is_served_witness :
  exists self',
    _get_derivation Fixtures.settings0 Fixtures.env_ok AbstractStoredFile
      (Cases.cached Fixtures.upload Fixtures.thumbnail) (lit "THUMBNAIL") true false
      Cases.store_with_thumbnail
    = (Cases.store_with_thumbnail, Ok (self', Some Fixtures.thumbnail)).
Proof.
  destruct (found_derivation_is_served Fixtures.settings0 Fixtures.env_ok
              AbstractStoredFile (Cases.cached Fixtures.upload Fixtures.thumbnail)
              (lit "THUMBNAIL") Cases.thumbnail_rule true false
              Cases.store_with_thumbnail
              Fixtures.thumbnail eq_refl eq_refl ltac:(discriminate)) as (self' & H & _).
  exists self'. exact H.
Defined.

Lemma no_generation_unless_allowed_witness :
  exists self',
    _get_derivation Fixtures.settings0 Fixtures.env_ok AbstractStoredFile
      (Cases.absent Fixtures.upload) (lit "THUMBNAIL") false false Cases.store
    = (Cases.store, Ok (self', None)).
Proof.
  destruct (no_generation_unless_allowed Fixtures.settings0 Fixtures.env_ok
              AbstractStoredFile (Cases.absent Fixtures.upload) (lit "THUMBNAIL")
              Cases.thumbnail_rule false false Cases.store None eq_refl
              (or_intror eq_refl) eq_refl)
    as (self' & H & _).
  exists self'. exact H.
Defined.

Lemma store_lookup_by_id_raises_witness :
  _get_derivation Fixtures.settings0 Fixtures.env_ok AbstractStoredFile
    (Cases.loaded Fixtures.upload) (lit "THUMBNAIL") true false
    Cases.store_with_thumbnail
  = (Cases.store_with_thumbnail, Raise ValueError).
Proof.
  exact (store_lookup_by_id_raises Fixtures.settings0 Fixtures.env_ok AbstractStoredFile
           (Cases.loaded Fixtures.upload) (lit "THUMBNAIL") Cases.thumbnail_rule
           true false Cases.store_with_thumbnail eq_refl eq_refl (or_introl eq_refl)).
Defined.

Section DerivationOutcome.
Variable settings : Settings.
Variable env : Env.
Variable cls : StoredFileClass.

Lemma save_insert (self : StoredFile) (name : str) (w : World) :
  pk self = None -> hash self = None -> generated_filename self = None ->
  original_filename self = Some name ->
  save settings env self None w
  = (after_insert (inserted settings env self name w) w,
     Ok (inserted settings env self name w)).
Proof.
  intros Hpk Hh Hg Hn. unfold save. rewrite Hg.
  unfold generate_filename, hash_missing. rewrite Hh.
  unfold generate_hash, Eff.bind, get, modify, ret. simpl. rewrite Hn. simpl.
  unfold Model_save. simpl. rewrite Hpk. reflexivity.
Qed.

Lemma join_all_last (dirs : list str) (b : str) :
  b <> [] -> PosixPath.join_all (dirs ++ [b]) <> [].
Proof.
  intros Hb. destruct dirs as [|a p]; simpl; [done|].
  unfold PosixPath.join. rewrite fold_left_app. simpl.
  unfold PosixPath.join2.
  destruct (startswith_char _ b); [done|].
  destruct (_ || _); intros E; apply app_eq_nil in E as [_ E]; done.
Qed.

(** The path of a derived file is never empty. *)
Lemma hashed_path_jpg (h : str) :
  hashed_path settings h (lit "_auto_generated.jpg") <> [].
Proof.
  unfold hashed_path.
  replace (PosixPath.splitext (lit "_auto_generated.jpg"))
    with (lit "_auto_generated", lit ".jpg") by (vm_compute; reflexivity).
  apply join_all_last. intros E. apply app_eq_nil in E as [_ E]. done.
Qed.

Lemma inserted_jpg_path (r : StoredFile) (w : World) :
  exists c g,
    generated_filename (inserted settings env r (lit "_auto_generated.jpg") w)
    = Some (c :: g).
Proof.
  unfold inserted. simpl.
  destruct (hashed_path settings _ _) as [|c g] eqn:Eg; [by apply hashed_path_jpg in Eg|].
  eauto.
Qed.

(** [save()] of a stored record whose path is filled in: the row is
    replaced, or added when it is gone. *)
Lemma save_stored (self : StoredFile) (k : Z) (c : ascii) (g : str) (w : World) :
  pk self = Some k -> generated_filename self = Some (c :: g) ->
  save settings env self None w
  = (with_saves (saves w ++ [{| saved_pk := k; saved_fields := None |}])
       (with_rows (if has_row k (rows w)
                   then map (fun r => if bool_decide (pk r = Some k) then self else r) (rows w)
                   else rows w ++ [self]) w),
     Ok self).
Proof.
  intros Hpk Hg. unfold save. rewrite Hg.
  unfold Eff.bind at 1, ret at 1. unfold Model_save.
  unfold Eff.bind, get, modify, ret, record_save. rewrite Hpk. reflexivity.
Qed.

Lemma map_no_row (k : Z) (x : StoredFile) (rs : list StoredFile) :
  has_row k rs = false ->
  map (fun r => if bool_decide (pk r = Some k) then x else r) rs = rs.
Proof.
  unfold has_row. induction rs as [|r rs IH]; [done|]. simpl.
  intros [H1 H2]%orb_false_iff. rewrite H1. f_equal. auto.
Qed.

Lemma has_row_app (k : Z) (rs : list StoredFile) (x : StoredFile) :
  pk x = Some k -> has_row k (rs ++ [x]) = true.
Proof.
  intros H. unfold has_row. rewrite existsb_app. simpl.
  rewrite bool_decide_eq_true_2 by done. by rewrite orb_true_r.
Qed.

(** [derive] up to the record of the derived file: the pipeline ran and
    the record is in the store. *)
Lemma derive_insert (self : StoredFile) (rule : DerivationRule) (img : ref) (w : World)
    (h1 : heap) (r1 : ref) (ni : image) :
  process_image settings img (rule_operations rule) (images w) = (h1, Ok r1) ->
  h1 !! r1 = Some ni ->
  let sf := inserted settings env (derived_record env self rule ni)
              (lit "_auto_generated.jpg") w in
  derive settings env self rule img w
  = Eff.bind
      (try_except
         (Eff.bind (ensure_local_path_exists settings env sf) (fun _ =>
          Eff.bind (lift (local_path settings sf)) (fun path =>
          write_file env path (Encoded ni))))
         is_IOError
         (fun e =>
            Eff.bind (save settings env
                        (set_remote_status LOCAL_CORRUPT (set_is_valid (Some false) sf))
                        (Some [F_is_valid; F_remote_status]))
              (fun _ => throw e)))
      (fun _ => ret sf)
      (after_insert sf (with_images h1 w)).
Proof.
  intros Hp Hl sf. unfold derive.
  unfold Eff.bind at 1, pil, zoom. rewrite Hp.
  unfold Eff.bind at 1, read. simpl. rewrite Hl.
  change (with_images h1 (with_images h1 w)) with (with_images h1 w).
  rewrite (bind_run _ _ _ _ _
             (save_insert (derived_record env self rule ni) (lit "_auto_generated.jpg")
                (with_images h1 w) eq_refl eq_refl eq_refl eq_refl)).
  reflexivity.
Qed.

Lemma derive_raises (self : StoredFile) (rule : DerivationRule) (img : ref) (w : World)
    (h1 : heap) (e : exc) :
  process_image settings img (rule_operations rule) (images w) = (h1, Raise e) ->
  derive settings env self rule img w = (with_images h1 w, Raise e).
Proof.
  intros Hp. unfold derive. unfold Eff.bind at 1, pil, zoom. by rewrite Hp.
Qed.

(** The first lines of [generate_derivation] on a record in good state,
    with the image at hand. *)
Lemma generate_derivation_good (self : Instance) (dt : str) (rule : DerivationRule)
    (img : ref) (w : World) :
  get_data_by_id (DERIVATION_TYPES cls) dt = Some rule ->
  remote_status (columns self) <> LOCAL_CORRUPT ->
  is_valid (columns self) = Some true ->
  generate_derivation settings env cls self dt (Some img) w
  = Eff.bind
      (try_except
         (Eff.bind (derive settings env (columns self) rule img) (fun sf => ret (Some sf)))
         everything (fun _ => ret None))
      (fun made =>
         match made with
         | None => ret (cache_set dt None (cache_setup self), None)
         | Some sf =>
             Eff.bind (save settings env
                         (set_remote_status (default_remote_status settings) sf) None)
               (fun sf => ret (cache_set dt (Some sf) (cache_setup self), Some sf))
         end)
      (with_calls (calls w ++ [{| called_derivation_type := dt;
                                  called_original_image := Some img |}]) w).
Proof.
  intros Hrule Hs Hv. unfold generate_derivation.
  unfold Eff.bind at 1, record_call, modify. rewrite Hrule.
  change (columns (cache_setup self)) with (columns self).
  rewrite bool_decide_eq_false_2 by done. rewrite Hv. simpl.
  unfold Eff.bind at 1, ret at 1. reflexivity.
Qed.

Lemma save_update_stored (self : StoredFile) (k : Z) (c : ascii) (g : str) (f : Field)
    (fields : list Field) (w : World) :
  pk self = Some k -> has_row k (rows w) = true ->
  generated_filename self = Some (c :: g) ->
  save settings env self (Some (f :: fields)) w
  = (with_saves (saves w ++ [{| saved_pk := k; saved_fields := Some (f :: fields) |}])
       (with_rows (updated_rows self k (f :: fields) (rows w)) w),
     Ok self).
Proof.
  intros Hpk Hrow Hg. unfold save. rewrite Hg.
  unfold Eff.bind at 1, ret at 1. by apply Model_save_update.
Qed.

Lemma updated_rows_last (self x : StoredFile) (k : Z) (fields : list Field)
    (rs : list StoredFile) :
  has_row k rs = false -> pk x = Some k ->
  updated_rows self k fields (rs ++ [x]) = rs ++ [foldr (copy_field self) x fields].
Proof.
  intros Hno Hx. unfold updated_rows. rewrite map_app. simpl.
  rewrite bool_decide_eq_true_2 by done. f_equal.
  revert Hno. unfold has_row. induction rs as [|r rs IH]; [done|]. simpl.
  intros [H1 H2]%orb_false_iff. rewrite H1. f_equal. auto.
Qed.

Lemma ensure_ok (sf : StoredFile) (g : str) (w : World) :
  generated_filename sf = Some g ->
  (forall d, makedirs_fails env d = false) ->
  ensure_local_path_exists settings env sf w = (w, Ok tt).
Proof.
  intros Hg Hmk. unfold ensure_local_path_exists, Eff.bind, lift, local_path.
  rewrite Hg. destruct (dir_exists env _); [done|]. by rewrite Hmk.
Qed.

(** X11: on a record in good state, when the pipeline gives an image and
    the host can make directories and write files, [generate_derivation]
    returns a new record and caches it.  The record is the one row added
    to the store, under the next primary key; it points at the source
    record, carries the value of the rule, the MIME type [image/jpeg], the
    size of the image made and the expiry date of the source, and its
    status is the configured default; the encoded image is the one file
    written, at the local path of the record. *)
Theorem generate_derivation_success (self : Instance) (dt : str) (rule : DerivationRule)
    (img : ref) (w : World) (h1 : heap) (r1 : ref) (ni : image) :
  get_data_by_id (DERIVATION_TYPES cls) dt = Some rule ->
  remote_status (columns self) <> LOCAL_CORRUPT ->
  is_valid (columns self) = Some true ->
  process_image settings img (rule_operations rule) (images w) = (h1, Ok r1) ->
  h1 !! r1 = Some ni ->
  has_row (next_pk w) (rows w) = false ->
  (forall d, makedirs_fails env d = false) ->
  (forall p, write_fails env p = false) ->
  exists w' sf path,
    generate_derivation settings env cls self dt (Some img) w
    = (w', Ok (cache_set dt (Some sf) (cache_setup self), Some sf))
    /\ pk sf = Some (next_pk w)
    /\ derived_from sf = pk (columns self)
    /\ derivation_type sf = Some (rule_value rule)
    /\ remote_status sf = default_remote_status settings
    /\ mime_type sf = Some (lit "image/jpeg")
    /\ width sf = Some (im_size ni).1 /\ height sf = Some (im_size ni).2
    /\ date_expires sf = date_expires (columns self)
    /\ rows w' = rows w ++ [sf]
    /\ local_path settings sf = Ok path
    /\ disk w' = <[path := Encoded ni]> (disk w).
Proof.
  intros Hrule Hs Hv Hp Hl Hfresh Hmk Hwr.
  rewrite (generate_derivation_good self dt rule img w Hrule Hs Hv).
  set (w0 := with_calls _ w).
  pose proof (derive_insert (columns self) rule img w0 h1 r1 ni Hp Hl) as Hd.
  cbv zeta in Hd.
  set (sf := inserted settings env (derived_record env (columns self) rule ni)
               (lit "_auto_generated.jpg") w0) in *.
  destruct (inserted_jpg_path (derived_record env (columns self) rule ni) w0)
    as (c & g & Hg).
  fold sf in Hg.
  set (w1 := after_insert sf (with_images h1 w0)) in *.
  set (path := PosixPath.join (SCULPT_S3FILES_LOCAL_DIR settings) [c :: g]).
  assert (Hpath : local_path settings sf = Ok path) by (unfold local_path; by rewrite Hg).
  assert (Hbody : derive settings env (columns self) rule img w0
                  = (with_disk (<[path := Encoded ni]> (disk w1)) w1, Ok sf)).
  { rewrite Hd. unfold try_except, Eff.bind at 1.
    rewrite (bind_run _ _ _ _ _ (ensure_ok sf _ w1 Hg Hmk)).
    unfold Eff.bind at 1, lift. rewrite Hpath.
    unfold write_file. rewrite Hwr. reflexivity. }
  unfold try_except, Eff.bind at 1.
  rewrite (bind_run _ _ _ _ _ Hbody). unfold ret at 1.
  rewrite (bind_run _ _ _ _ _
             (save_stored (set_remote_status (default_remote_status settings) sf)
                (next_pk w) c g _ eq_refl Hg)).
  unfold ret. do 2 eexists. exists path. split; [reflexivity|].
  repeat split; try done.
  subst w1. unfold after_insert. simpl. rewrite has_row_app by done.
  rewrite map_app. simpl. rewrite map_no_row by done.
  rewrite bool_decide_eq_true_2 by done. done.
Qed.

(** X12: when writing the file of the derived image raises an I/O error,
    [generate_derivation] returns [None] and caches the absence, and the
    record it had created stays in the store, marked [is_valid = False]
    and LOCAL_CORRUPT.  Nothing removes what the failed write left at the
    local path of that record; every other file is as it was. *)
Theorem failed_write_leaves_a_corrupt_record (self : Instance) (dt : str)
    (rule : DerivationRule) (img : ref) (w : World) (h1 : heap) (r1 : ref) (ni : image) :
  get_data_by_id (DERIVATION_TYPES cls) dt = Some rule ->
  remote_status (columns self) <> LOCAL_CORRUPT ->
  is_valid (columns self) = Some true ->
  process_image settings img (rule_operations rule) (images w) = (h1, Ok r1) ->
  h1 !! r1 = Some ni ->
  has_row (next_pk w) (rows w) = false ->
  (forall d, makedirs_fails env d = false) ->
  (forall p, write_fails env p = true) ->
  exists w' sf path,
    generate_derivation settings env cls self dt (Some img) w
    = (w', Ok (cache_set dt None (cache_setup self), None))
    /\ rows w' = rows w ++ [sf]
    /\ pk sf = Some (next_pk w)
    /\ derived_from sf = pk (columns self)
    /\ derivation_type sf = Some (rule_value rule)
    /\ is_valid sf = Some false
    /\ remote_status sf = LOCAL_CORRUPT
    /\ local_path settings sf = Ok path
    /\ disk w' = after_failed_write env path (Encoded ni) (disk w).
Proof.
  intros Hrule Hs Hv Hp Hl Hfresh Hmk Hwr.
  rewrite (generate_derivation_good self dt rule img w Hrule Hs Hv).
  set (w0 := with_calls _ w).
  pose proof (derive_insert (columns self) rule img w0 h1 r1 ni Hp Hl) as Hd.
  cbv zeta in Hd.
  set (sf := inserted settings env (derived_record env (columns self) rule ni)
               (lit "_auto_generated.jpg") w0) in *.
  destruct (inserted_jpg_path (derived_record env (columns self) rule ni) w0)
    as (c & g & Hg).
  fold sf in Hg.
  set (w1 := after_insert sf (with_images h1 w0)) in *.
  set (path := PosixPath.join (SCULPT_S3FILES_LOCAL_DIR settings) [c :: g]).
  assert (Hpath : local_path settings sf = Ok path) by (unfold local_path; by rewrite Hg).
  set (bad := set_remote_status LOCAL_CORRUPT (set_is_valid (Some false) sf)).
  set (w1' := with_disk (after_failed_write env path (Encoded ni) (disk w1)) w1).
  assert (Hrow1 : has_row (next_pk w) (rows w1') = true).
  { subst w1' w1. simpl. by apply has_row_app. }
  pose proof (save_update_stored bad (next_pk w) c g F_is_valid [F_remote_status] w1'
                eq_refl Hrow1 Hg) as Hsave.
  assert (Hbody : exists w2,
            derive settings env (columns self) rule img w0 = (w2, Raise IOError)
            /\ rows w2 = rows w ++ [bad]
            /\ disk w2 = after_failed_write env path (Encoded ni) (disk w)).
  { rewrite Hd. unfold try_except, Eff.bind at 1.
    rewrite (bind_run _ _ _ _ _ (ensure_ok sf _ w1 Hg Hmk)).
    unfold Eff.bind at 1, lift. rewrite Hpath.
    unfold write_file. rewrite Hwr.
    unfold Eff.bind at 1, modify at 1, throw at 1. simpl. fold w1'.
    fold bad. rewrite (bind_run _ _ _ _ _ Hsave). unfold throw.
    eexists. split; [reflexivity|]. split; [|done].
    simpl. by rewrite updated_rows_last. }
  destruct Hbody as (w2 & Hbody & Hrows & Hdisk).
  unfold try_except, Eff.bind at 1. unfold Eff.bind at 1. rewrite Hbody. simpl.
  unfold ret. exists w2, bad, path. split; [reflexivity|]. repeat split; done.
Qed.

(** X13: when the directory of the derived file is missing and cannot be
    made, the [OSError] passes the handler for I/O errors:
    [generate_derivation] returns [None] and caches the absence, and the
    record it had created stays in the store as it was created,
    LOCAL_INCOMPLETE and with [is_valid] unset, not marked corrupt; no
    file is written. *)
Theorem failed_makedirs_leaves_an_incomplete_record (self : Instance) (dt : str)
    (rule : DerivationRule) (img : ref) (w : World) (h1 : heap) (r1 : ref) (ni : image) :
  get_data_by_id (DERIVATION_TYPES cls) dt = Some rule ->
  remote_status (columns self) <> LOCAL_CORRUPT ->
  is_valid (columns self) = Some true ->
  process_image settings img (rule_operations rule) (images w) = (h1, Ok r1) ->
  h1 !! r1 = Some ni ->
  (forall d, dir_exists env d = false) ->
  (forall d, makedirs_fails env d = true) ->
  exists w' sf,
    generate_derivation settings env cls self dt (Some img) w
    = (w', Ok (cache_set dt None (cache_setup self), None))
    /\ rows w' = rows w ++ [sf]
    /\ pk sf = Some (next_pk w)
    /\ derived_from sf = pk (columns self)
    /\ derivation_type sf = Some (rule_value rule)
    /\ is_valid sf = None
    /\ remote_status sf = LOCAL_INCOMPLETE
    /\ disk w' = disk w.
Proof.
  intros Hrule Hs Hv Hp Hl Hno Hmk.
  rewrite (generate_derivation_good self dt rule img w Hrule Hs Hv).
  set (w0 := with_calls _ w).
  pose proof (derive_insert (columns self) rule img w0 h1 r1 ni Hp Hl) as Hd.
  cbv zeta in Hd.
  set (sf := inserted settings env (derived_record env (columns self) rule ni)
               (lit "_auto_generated.jpg") w0) in *.
  set (w1 := after_insert sf (with_images h1 w0)) in *.
  assert (Hbody : derive settings env (columns self) rule img w0 = (w1, Raise OSError)).
  { rewrite Hd. unfold try_except, Eff.bind at 1.
    unfold ensure_local_path_exists, Eff.bind at 1, Eff.bind at 1, lift, local_path.
    simpl. rewrite Hno, Hmk. reflexivity. }
  unfold try_except, Eff.bind at 1. unfold Eff.bind at 1. rewrite Hbody. simpl.
  unfold ret. exists w1, sf. split; [reflexivity|]. repeat split; done.
Qed.

(** X14: when the pipeline raises, whatever the exception,
    [generate_derivation] does not raise: it returns [None], caches the
    absence, and creates no record and no file. *)
Theorem failed_pipeline_creates_nothing (self : Instance) (dt : str)
    (rule : DerivationRule) (img : ref) (w : World) (h1 : heap) (e : exc) :
  get_data_by_id (DERIVATION_TYPES cls) dt = Some rule ->
  remote_status (columns self) <> LOCAL_CORRUPT ->
  is_valid (columns self) = Some true ->
  process_image settings img (rule_operations rule) (images w) = (h1, Raise e) ->
  exists w',
    generate_derivation settings env cls self dt (Some img) w
    = (w', Ok (cache_set dt None (cache_setup self), None))
    /\ rows w' = rows w /\ disk w' = disk w /\ next_pk w' = next_pk w.
Proof.
  intros Hrule Hs Hv Hp.
  rewrite (generate_derivation_good self dt rule img w Hrule Hs Hv).
  set (w0 := with_calls _ w).
  unfold try_except, Eff.bind at 1. unfold Eff.bind at 1.
  rewrite (derive_raises (columns self) rule img w0 h1 e Hp). simpl.
  unfold ret. eexists. split; [reflexivity|]. done.
Qed.

End DerivationOutcome.

Lemma generate_derivation_success_witness :
  exists w' sf,
    generate_derivation Fixtures.settings0 Fixtures.env_ok AbstractStoredFile
      (Cases.loaded Fixtures.upload) (lit "THUMBNAIL") (Some 0%nat) Cases.store
    = (w', Ok (cache_set (lit "THUMBNAIL") (Some sf)
                 (cache_setup (Cases.loaded Fixtures.upload)), Some sf))
    /\ rows w' = [Fixtures.upload; sf]
    /\ remote_status sf = LOCAL_ONLY.
Proof.
  edestruct (generate_derivation_success Fixtures.settings0 Fixtures.env_ok
               AbstractStoredFile (Cases.loaded Fixtures.upload) (lit "THUMBNAIL")
               Cases.thumbnail_rule 0%nat Cases.store)
    as (w' & sf & path & H & _ & _ & _ & Hst & _ & _ & _ & _ & Hrows & _).
  - reflexivity.
  - discriminate.
  - reflexivity.
  - vm_compute. reflexivity.
  - vm_compute. reflexivity.
  - reflexivity.
  - intros d. reflexivity.
  - intros p. reflexivity.
  - exists w', sf. split; [exact H|]. split; [exact Hrows | exact Hst].
Defined.

Lemma failed_write_leaves_a_corrupt_record_witness :
  exists w' sf,
    generate_derivation Fixtures.settings0 Fixtures.env_disk_full AbstractStoredFile
      (Cases.loaded Fixtures.upload) (lit "THUMBNAIL") (Some 0%nat) Cases.store
    = (w', Ok (cache_set (lit "THUMBNAIL") None
                 (cache_setup (Cases.loaded Fixtures.upload)), None))
    /\ rows w' = [Fixtures.upload; sf]
    /\ remote_status sf = LOCAL_CORRUPT.
Proof.
  edestruct (failed_write_leaves_a_corrupt_record Fixtures.settings0
               Fixtures.env_disk_full AbstractStoredFile (Cases.loaded Fixtures.upload)
               (lit "THUMBNAIL") Cases.thumbnail_rule 0%nat Cases.store)
    as (w' & sf & path & H & Hrows & _ & _ & _ & _ & Hst & _).
  - reflexivity.
  - discriminate.
  - reflexivity.
  - vm_compute. reflexivity.
  - vm_compute. reflexivity.
  - reflexivity.
  - intros d. reflexivity.
  - intros p. reflexivity.
  - exists w', sf. split; [exact H|]. split; [exact Hrows | exact Hst].
Defined.

Lemma failed_makedirs_leaves_an_incomplete_record_witness :
  exists w' sf,
    generate_derivation Fixtures.settings0 Cases.env_no_dirs AbstractStoredFile
      (Cases.loaded Fixtures.upload) (lit "THUMBNAIL") (Some 0%nat) Cases.store
    = (w', Ok (cache_set (lit "THUMBNAIL") None
                 (cache_setup (Cases.loaded Fixtures.upload)), None))
    /\ rows w' = [Fixtures.upload; sf]
    /\ remote_status sf = LOCAL_INCOMPLETE.
Proof.
  edestruct (failed_makedirs_leaves_an_incomplete_record Fixtures.settings0
               Cases.env_no_dirs AbstractStoredFile (Cases.loaded Fixtures.upload)
               (lit "THUMBNAIL") Cases.thumbnail_rule 0%nat Cases.store)
    as (w' & sf & H & Hrows & _ & _ & _ & _ & Hst & _).
  - reflexivity.
  - discriminate.
  - reflexivity.
  - vm_compute. reflexivity.
  - vm_compute. reflexivity.
  - intros d. reflexivity.
  - intros d. reflexivity.
  - exists w', sf. split; [exact H|]. split; [exact Hrows | exact Hst].
Defined.

Lemma failed_pipeline_creates_nothing_witness :
  exists w',
    generate_derivation Fixtures.settings0 Fixtures.env_ok Cases.BannerFile
      (Cases.loaded Fixtures.upload) (lit "BANNER") (Some 0%nat) Cases.store
    = (w', Ok (cache_set (lit "BANNER") None
                 (cache_setup (Cases.loaded Fixtures.upload)), None))
    /\ rows w' = [Fixtures.upload].
Proof.
  edestruct (failed_pipeline_creates_nothing Fixtures.settings0 Fixtures.env_ok
               Cases.BannerFile (Cases.loaded Fixtures.upload) (lit "BANNER")
               Cases.banner_rule 0%nat Cases.store)
    as (w' & H & Hrows & _).
  - reflexivity.
  - discriminate.
  - reflexivity.
  - vm_compute. reflexivity.
  - exists w'. split; [exact H | exact Hrows].
Defined.

(** ** [generate_derivation]: it returns, and what it returns is cached *)

Section DerivationTotality.
Variable settings : Settings.
Variable env : Env.
Variable cls : StoredFileClass.

Lemma save_keeps_status (self self' : StoredFile) (uf : option (list Field)) (w w' : World) :
  save settings env self uf w = (w', Ok self') ->
  remote_status self' = remote_status self.
Proof.
  unfold save. intros H. apply bind_ok_inv in H as (w1 & s1 & Hpre & H).
  assert (Hs1 : remote_status s1 = remote_status self).
  { destruct (generated_filename self) as [[|c g]|].
    - apply bind_ok_inv in Hpre as (w2 & sg & Hg & Hr). unfold ret in Hr. simplify_eq.
      unfold generate_filename in Hg. apply bind_ok_inv in Hg as (w3 & s3 & Hh & Hg).
      assert (remote_status s3 = remote_status self).
      { destruct (hash_missing self); [|unfold ret in Hh; by simplify_eq].
        unfold generate_hash, Eff.bind, get, modify, ret in Hh. by simplify_eq. }
      destruct (original_filename s3); [|done]. unfold ret in Hg. by simplify_eq.
    - unfold ret in Hpre. by simplify_eq.
    - apply bind_ok_inv in Hpre as (w2 & sg & Hg & Hr). unfold ret in Hr. simplify_eq.
      unfold generate_filename in Hg. apply bind_ok_inv in Hg as (w3 & s3 & Hh & Hg).
      assert (remote_status s3 = remote_status self).
      { destruct (hash_missing self); [|unfold ret in Hh; by simplify_eq].
        unfold generate_hash, Eff.bind, get, modify, ret in Hh. by simplify_eq. }
      destruct (original_filename s3); [|done]. unfold ret in Hg. by simplify_eq. }
  rewrite <- Hs1. clear Hpre Hs1.
  unfold Model_save in H. destruct uf as [[|f fs]|].
  - unfold ret in H. by simplify_eq.
  - destruct (pk s1); [|done]. unfold Eff.bind, get in H.
    destruct (has_row z (rows w1)); [|done]. unfold modify, record_save, ret in H.
    simpl in H. by simplify_eq.
  - unfold Eff.bind, get in H. destruct (pk s1); unfold modify, record_save, ret in H;
      simpl in H; by simplify_eq.
Qed.

Lemma default_remote_status_good : default_remote_status settings <> LOCAL_CORRUPT.
Proof. unfold default_remote_status. by destruct (bool_decide _). Qed.

(** Once the image is at hand, [generate_derivation] does not raise, and
    what it returns is what it caches. *)
Lemma derive_and_cache_returns (self : Instance) (dt : str) (rule : DerivationRule)
    (image : ref) (w : World) :
  exists w' r,
    derive_and_cache settings env self dt rule image w
    = (w', Ok (cache_set dt r (cache_setup self), r))
    /\ calls w' = calls w
    /\ match r with
       | Some sf => remote_status sf = default_remote_status settings
       | None => True
       end.
Proof.
  unfold derive_and_cache, try_except. unfold Eff.bind at 1. unfold Eff.bind at 1.
  pose proof (quiet_derive settings env (columns self) rule image w) as Hq.
  destruct (derive settings env (columns self) rule image w) as [w1 [sf|e]] eqn:Ed;
    simpl in Hq.
  - unfold ret at 1. simpl.
    apply derive_names_the_child in Ed.
    destruct (save_all_ok settings env
                (set_remote_status (default_remote_status settings) sf)
                (lit "_auto_generated.jpg") w1 Ed) as (w2 & sf2 & Hs & _).
    pose proof (quiet_save settings env
                  (set_remote_status (default_remote_status settings) sf) None w1) as Hq2.
    pose proof (save_keeps_status _ _ _ _ _ Hs) as Hst.
    unfold Eff.bind. rewrite Hs in *. simpl in Hq2. unfold ret.
    exists w2, (Some sf2). split; [reflexivity|]. split; [congruence | done].
  - simpl. unfold ret. exists w1, None. split; [reflexivity|]. done.
Qed.

(** [generate_derivation], by cases on the state of the record and on
    what opening the file gives. *)
Lemma generate_derivation_unfold (self : Instance) (dt : str) (rule : DerivationRule)
    (img : option ref) (w : World) :
  get_data_by_id (DERIVATION_TYPES cls) dt = Some rule ->
  let w0 := with_calls (calls w ++ [{| called_derivation_type := dt;
                                       called_original_image := img |}]) w in
  generate_derivation settings env cls self dt img w
  = if bool_decide (remote_status (columns self) = LOCAL_CORRUPT)
       || negb (truthy (is_valid (columns self)))
    then (w0, Ok (cache_set dt None (cache_setup self), None))
    else match img with
         | Some r => derive_and_cache settings env self dt rule r w0
         | None =>
             match local_path settings (columns self) with
             | Raise e => (w0, Raise e)
             | Ok path =>
                 match decode env path with
                 | Some i => derive_and_cache settings env self dt rule (length (images w))
                               (with_images (images w ++ [i]) w0)
                 | None => (w0, Ok (cache_set dt None (cache_setup self), None))
                 end
             end
         end.
Proof.
  intros Hrule w0. unfold generate_derivation.
  unfold Eff.bind at 1, record_call, modify. rewrite Hrule. fold w0.
  change (columns (cache_setup self)) with (columns self).
  destruct (_ || _); [done|].
  destruct img as [r|].
  - unfold Eff.bind at 1, ret at 1. reflexivity.
  - unfold Eff.bind at 1, try_except. unfold Eff.bind at 1, lift.
    unfold local_path.
    destruct (generated_filename (columns self)) as [g|]; [|done].
    unfold Eff.bind at 1, Image_open.
    destruct (decode env _) as [i|]; [|done].
    unfold pil, zoom, alloc. simpl. unfold ret at 1. reflexivity.
Qed.

(** X15: on a record whose [is_valid] is not [True], that is [False] or
    never checked, [generate_derivation] makes nothing: with or without
    an image passed in, it returns [None], caches the absence, and leaves
    the rows, the images and the files as they were. *)
Theorem unchecked_record_gets_no_derivation (self : Instance) (dt : str)
    (rule : DerivationRule) (img : option ref) (w : World) :
  get_data_by_id (DERIVATION_TYPES cls) dt = Some rule ->
  is_valid (columns self) <> Some true ->
  exists w',
    generate_derivation settings env cls self dt img w
    = (w', Ok (cache_set dt None (cache_setup self), None))
    /\ rows w' = rows w /\ images w' = images w /\ disk w' = disk w.
Proof.
  intros Hrule Hv. rewrite (generate_derivation_unfold self dt rule img w Hrule).
  cbv zeta.
  assert (Ht : truthy (is_valid (columns self)) = false).
  { destruct (is_valid (columns self)) as [[|]|]; done. }
  rewrite Ht, orb_true_r. eauto.
Qed.

(** X16: when no image is passed and the stored file cannot be decoded
    (I/O error), [generate_derivation] returns [None], caches the absence,
    and leaves the rows, the images and the files as they were. *)
Theorem unreadable_source_gives_no_derivation (self : Instance) (dt : str)
    (rule : DerivationRule) (path : str) (w : World) :
  get_data_by_id (DERIVATION_TYPES cls) dt = Some rule ->
  local_path settings (columns self) = Ok path ->
  decode env path = None ->
  exists w',
    generate_derivation settings env cls self dt None w
    = (w', Ok (cache_set dt None (cache_setup self), None))
    /\ rows w' = rows w /\ images w' = images w /\ disk w' = disk w.
Proof.
  intros Hrule Hp Hd. rewrite (generate_derivation_unfold self dt rule None w Hrule).
  cbv zeta. rewrite Hp, Hd. destruct (_ || _); eauto.
Qed.

(** X17: for a known rule, [generate_derivation] never raises when an
    image is passed in or the record has a generated file name: whatever
    goes wrong in the pipeline or in the file system, it returns, what it
    returns is what the cache then holds for that type, the other
    cache entries and the columns of the record are untouched, and a
    record it returns has the configured default status. *)
Theorem generate_derivation_never_raises (self : Instance) (dt : str)
    (rule : DerivationRule) (img : option ref) (w : World) :
  get_data_by_id (DERIVATION_TYPES cls) dt = Some rule ->
  is_Some img \/ is_Some (generated_filename (columns self)) ->
  exists w' r,
    generate_derivation settings env cls self dt img w
    = (w', Ok (cache_set dt r (cache_setup self), r))
    /\ calls w' = calls w ++ [{| called_derivation_type := dt;
                                 called_original_image := img |}]
    /\ match r with
       | Some sf => remote_status sf = default_remote_status settings
       | None => True
       end.
Proof.
  intros Hrule Hsrc. rewrite (generate_derivation_unfold self dt rule img w Hrule).
  cbv zeta. set (w0 := with_calls _ w).
  destruct (_ || _).
  { exists w0, None. done. }
  destruct img as [r|].
  - destruct (derive_and_cache_returns self dt rule r w0) as (w' & res & H & Hc & Hst).
    exists w', res. rewrite H. done.
  - destruct Hsrc as [[? [=]] | [g Hg]].
    unfold local_path. rewrite Hg.
    destruct (decode env _) as [i|].
    + destruct (derive_and_cache_returns self dt rule (length (images w))
                  (with_images (images w ++ [i]) w0)) as (w' & res & H & Hc & Hst).
      exists w', res. rewrite H. done.
    + exists w0, None. done.
Qed.

(** X18: the one case left: on a valid record in good state that has no
    generated file name, [generate_derivation] without an image raises
    [AttributeError], from [os.path.join] on [None], which the handler
    for I/O errors around [Image.open] does not catch; nothing is
    created. *)
Theorem generate_derivation_without_path_raises (self : Instance) (dt : str)
    (rule : DerivationRule) (w : World) :
  get_data_by_id (DERIVATION_TYPES cls) dt = Some rule ->
  remote_status (columns self) <> LOCAL_CORRUPT ->
  is_valid (columns self) = Some true ->
  generated_filename (columns self) = None ->
  exists w',
    generate_derivation settings env cls self dt None w
    = (w', Raise (AttributeError (lit "startswith")))
    /\ rows w' = rows w /\ images w' = images w /\ disk w' = disk w.
Proof.
  intros Hrule Hs Hv Hg. rewrite (generate_derivation_unfold self dt rule None w Hrule).
  cbv zeta. rewrite bool_decide_eq_false_2 by done. rewrite Hv. simpl.
  unfold local_path. rewrite Hg. eauto.
Qed.

(** X19: the derived record [generate_derivation] returns is the one a
    following [_get_derivation], without [force_reload], answers with,
    from the cache: the store is not read, nothing is generated again and
    nothing changes. *)
Theorem generated_derivation_is_served_from_cache (self self' : Instance) (dt : str)
    (rule : DerivationRule) (img : option ref) (w w' : World) (sf : StoredFile)
    (process_lazy : bool) :
  get_data_by_id (DERIVATION_TYPES cls) dt = Some rule ->
  generate_derivation settings env cls self dt img w = (w', Ok (self', Some sf)) ->
  _get_derivation settings env cls self' dt process_lazy false w'
  = (w', Ok (self', Some sf)).
Proof.
  intros Hrule Hgen.
  assert (Hshape : self' = cache_set dt (Some sf) (cache_setup self)
                   /\ remote_status sf = default_remote_status settings).
  { rewrite (generate_derivation_unfold self dt rule img w Hrule) in Hgen.
    cbv zeta in Hgen. set (w0 := with_calls _ w) in Hgen.
    destruct (_ || _); [by simplify_eq|].
    destruct img as [r|].
    - destruct (derive_and_cache_returns self dt rule r w0) as (w1 & res & H & _ & Hst).
      rewrite H in Hgen. by simplify_eq.
    - destruct (local_path settings (columns self)) as [path|e]; [|done].
      destruct (decode env path) as [i|]; [|by simplify_eq].
      destruct (derive_and_cache_returns self dt rule (length (images w))
                  (with_images (images w ++ [i]) w0)) as (w1 & res & H & _ & Hst).
      rewrite H in Hgen. by simplify_eq. }
  destruct Hshape as [-> Hst].
  unfold _get_derivation. rewrite Hrule.
  assert (Hc : cache_dict (cache_setup (cache_set dt (Some sf) (cache_setup self))) !! dt
               = Some (Some sf)).
  { unfold cache_dict. simpl. apply lookup_insert_eq. }
  rewrite Hc. rewrite bool_decide_eq_true_2 by eauto. simpl.
  unfold Eff.bind at 1, ret at 1. rewrite Hc. simpl.
  rewrite bool_decide_eq_false_2; [done|].
  rewrite Hst. apply default_remote_status_good.
Qed.

End DerivationTotality.

Lemma unchecked_record_gets_no_derivation_witness :
  exists w',
    generate_derivation Fixtures.settings0 Fixtures.env_ok AbstractStoredFile
      (Cases.loaded Fixtures.unchecked_upload) (lit "THUMBNAIL") (Some 0%nat) Cases.store
    = (w', Ok (cache_set (lit "THUMBNAIL") None
                 (cache_setup (Cases.loaded Fixtures.unchecked_upload)), None))
    /\ rows w' = rows Cases.store.
Proof.
  destruct (unchecked_record_gets_no_derivation Fixtures.settings0 Fixtures.env_ok
              AbstractStoredFile (Cases.loaded Fixtures.unchecked_upload)
              (lit "THUMBNAIL") Cases.thumbnail_rule (Some 0%nat) Cases.store
              eq_refl ltac:(discriminate)) as (w' & H & Hrows & _).
  exists w'. split; [exact H | exact Hrows].
Defined.

Lemma unreadable_source_gives_no_derivation_witness :
  exists w',
    generate_derivation Fixtures.settings0 Fixtures.env_undecodable AbstractStoredFile
      (Cases.loaded Fixtures.upload) (lit "THUMBNAIL") None Cases.store
    = (w', Ok (cache_set (lit "THUMBNAIL") None
                 (cache_setup (Cases.loaded Fixtures.upload)), None))
    /\ rows w' = rows Cases.store.
Proof.
  edestruct (unreadable_source_gives_no_derivation Fixtures.settings0
               Fixtures.env_undecodable AbstractStoredFile (Cases.loaded Fixtures.upload)
               (lit "THUMBNAIL") Cases.thumbnail_rule) as (w' & H & Hrows & _).
  - reflexivity.
  - reflexivity.
  - reflexivity.
  - exists w'. split; [exact H | exact Hrows].
Defined.

Lemma generate_derivation_never_raises_witness :
  exists w' r,
    generate_derivation Fixtures.settings0 Fixtures.env_disk_full AbstractStoredFile
      (Cases.loaded Fixtures.upload) (lit "THUMBNAIL") None Cases.store
    = (w', Ok (cache_set (lit "THUMBNAIL") r
                 (cache_setup (Cases.loaded Fixtures.upload)), r)).
Proof.
  destruct (generate_derivation_never_raises Fixtures.settings0 Fixtures.env_disk_full
              AbstractStoredFile (Cases.loaded Fixtures.upload) (lit "THUMBNAIL")
              Cases.thumbnail_rule None Cases.store eq_refl
              (or_intror (ex_intro _ _ eq_refl))) as (w' & r & H & _).
  exists w', r. exact H.
Defined.

Lemma generate_derivation_without_path_raises_witness :
  exists w',
    generate_derivation Fixtures.settings0 Fixtures.env_ok AbstractStoredFile
      (Cases.loaded Fixtures.unwritten_upload) (lit "THUMBNAIL") None Cases.store
    = (w', Raise (AttributeError (lit "startswith"))).
Proof.
  destruct (generate_derivation_without_path_raises Fixtures.settings0 Fixtures.env_ok
              AbstractStoredFile (Cases.loaded Fixtures.unwritten_upload)
              (lit "THUMBNAIL") Cases.thumbnail_rule Cases.store
              eq_refl ltac:(discriminate) eq_refl eq_refl) as (w' & H & _).
  exists w'. exact H.
Defined.

Lemma generated_derivation_is_served_from_cache_witness :
  exists w' self' sf,
    generate_derivation Fixtures.settings0 Fixtures.env_ok AbstractStoredFile
      (Cases.loaded Fixtures.upload) (lit "THUMBNAIL") (Some 0%nat) Cases.store
    = (w', Ok (self', Some sf))
    /\ _get_derivation Fixtures.settings0 Fixtures.env_ok AbstractStoredFile
         self' (lit "THUMBNAIL") true false w'
       = (w', Ok (self', Some sf)).
Proof.
  eassert (E : generate_derivation Fixtures.settings0 Fixtures.env_ok AbstractStoredFile
                 (Cases.loaded Fixtures.upload) (lit "THUMBNAIL") (Some 0%nat) Cases.store
               = (_, Ok (_, Some _))) by (vm_compute; reflexivity).
  do 3 eexists. split; [exact E|].
  exact (generated_derivation_is_served_from_cache Fixtures.settings0 Fixtures.env_ok
           AbstractStoredFile _ _ (lit "THUMBNAIL") Cases.thumbnail_rule _ _ _ _ true
           eq_refl E).
Defined.

(** ** Writing without saving, keeping, and immediate derivations *)

Section FurtherMethodsProperties.
Variable settings : Settings.
Variable env : Env.
Variable cls : StoredFileClass.

(** X20: [write_to_disk(data, save = False)], on a record with an
    original file name, saved or not, persists nothing: no row is added or
    changed and [save] is not called.  The file is written at the local
    path of the record and the record in memory gets the default status;
    or, when the write raises an I/O error, the record in memory is marked
    [is_valid = False] and LOCAL_CORRUPT, the path holds what the failed
    write left there, and every other file is as it was. *)
Theorem write_to_disk_unsaved (self : StoredFile) (data : Data) (w : World) (name : str) :
  original_filename self = Some name ->
  (forall d, makedirs_fails env d = false) ->
  exists w' self' path,
    write_to_disk settings env self data false w = (w', Ok self')
    /\ local_path settings self' = Ok path
    /\ rows w' = rows w /\ saves w' = saves w /\ next_pk w' = next_pk w
    /\ if write_fails env path
       then is_valid self' = Some false
            /\ remote_status self' = LOCAL_CORRUPT
            /\ disk w' = after_failed_write env path (Bytes (data_bytes data)) (disk w)
       else remote_status self' = default_remote_status settings
            /\ disk w' = <[path := Bytes (data_bytes data)]> (disk w).
Proof.
  intros Hname Hmk.
  destruct (write_to_disk_written settings env self data w name Hname Hmk)
    as (n & self2 & g & Hpk2 & Hname2 & Hg2 & Hrun).
  specialize (Hrun false). cbv zeta in Hrun. rewrite Hrun.
  set (path := PosixPath.join (SCULPT_S3FILES_LOCAL_DIR settings) [g]).
  destruct (write_fails env path) eqn:Ew; unfold ret;
    do 2 eexists; exists path; (split; [reflexivity|]);
    (split; [unfold local_path; simpl; by rewrite Hg2|]);
    rewrite Ew; done.
Qed.

(** X21: when the directory of the file is missing and cannot be made,
    [write_to_disk] raises the [OSError] of [os.makedirs], with either
    value of [save]: the record is not marked corrupt, nothing is saved
    and nothing is written. *)
Theorem write_to_disk_needs_the_directory (self : StoredFile) (data : Data)
    (save_ : bool) (w : World) (name : str) :
  original_filename self = Some name ->
  (forall d, dir_exists env d = false) ->
  (forall d, makedirs_fails env d = true) ->
  exists w',
    write_to_disk settings env self data save_ w = (w', Raise OSError)
    /\ rows w' = rows w /\ saves w' = saves w /\ disk w' = disk w.
Proof.
  intros Hname Hno Hmk.
  destruct (write_to_disk_prepare settings env self name w Hname)
    as (n & self2 & g & Hprep & Hpk2 & Hname2 & Hg2).
  unfold write_to_disk. rewrite (bind_run _ _ _ _ _ Hprep).
  unfold Eff.bind at 1.
  unfold ensure_local_path_exists, Eff.bind at 1, lift, local_path.
  rewrite Hg2, Hno, Hmk. unfold throw. eauto.
Qed.

(** X22: [generate_immediate_derivations] without an image opens the
    stored file before it tests anything: when the file cannot be decoded
    the [IOError] is raised to the caller, also for a record that is not
    valid, for which nothing would have been generated. *)
Theorem generate_immediate_derivations_unreadable (self : Instance) (path : str)
    (w : World) :
  local_path settings (columns self) = Ok path ->
  decode env path = None ->
  generate_immediate_derivations settings env cls self None w = (w, Raise IOError).
Proof.
  intros Hp Hd. unfold generate_immediate_derivations.
  unfold Eff.bind at 1. unfold Eff.bind at 1, lift. rewrite Hp.
  unfold Image_open. by rewrite Hd.
Qed.

Lemma save_date_expires_stored (self : StoredFile) (k : Z) (c : ascii) (g : str)
    (w : World) :
  pk self = Some k -> has_row k (rows w) = true ->
  generated_filename self = Some (c :: g) ->
  save_date_expires settings env self w
  = (with_rows (map (fun r => if bool_decide (pk r = Some k)
                              then set_date_expires (date_expires self) r else r)
                  (rows w)) w,
     Ok self).
Proof.
  intros Hpk Hrow Hg. unfold save_date_expires. rewrite Hg.
  unfold Eff.bind at 1, ret at 1. rewrite Hpk.
  unfold Eff.bind, get. rewrite Hrow. reflexivity.
Qed.

Lemma kept_rows (k : Z) (rs : list StoredFile) :
  map (fun r => if bool_decide (derived_from r = Some k)
                then set_date_expires None r else r)
    (map (fun r => if bool_decide (pk r = Some k)
                   then set_date_expires None r else r) rs)
  = map (kept_row k) rs.
Proof.
  rewrite map_map. apply map_ext. intros r. unfold kept_row.
  destruct (bool_decide (pk r = Some k)), (bool_decide (derived_from r = Some k));
    simpl; try done.
  all: destruct (bool_decide_reflect (derived_from r = Some k)); simpl; done.
Qed.

Lemma keep_record (keepable : StoredFile) (k : Z) (c : ascii) (g : str) (w : World) :
  pk keepable = Some k -> has_row k (rows w) = true ->
  generated_filename keepable = Some (c :: g) ->
  Eff.bind (save_date_expires settings env (set_date_expires None keepable))
    (fun keepable => Eff.bind (derivations_update_date_expires keepable)
                       (fun _ => ret keepable)) w
  = (with_rows (map (kept_row k) (rows w)) w, Ok (set_date_expires None keepable)).
Proof.
  intros Hpk Hrow Hg.
  rewrite (bind_run _ _ _ _ _
             (save_date_expires_stored (set_date_expires None keepable) k c g w
                Hpk Hrow Hg)).
  unfold derivations_update_date_expires. simpl pk. rewrite Hpk.
  unfold Eff.bind, modify, ret. simpl. rewrite kept_rows. reflexivity.
Qed.

(** X23: [keep] on an original that is stored clears the expiry date of
    the record, of its row and of the rows of all its derivations, and of
    no other row; files and images are untouched. *)
Theorem keep_clears_expiry (self : StoredFile) (k : Z) (c : ascii) (g : str)
    (w : World) :
  derivation_type self = None ->
  pk self = Some k -> has_row k (rows w) = true ->
  generated_filename self = Some (c :: g) ->
  exists w',
    keep settings env self w = (w', Ok (set_date_expires None self))
    /\ rows w' = map (kept_row k) (rows w)
    /\ disk w' = disk w /\ images w' = images w.
Proof.
  intros Hdt Hpk Hrow Hg. unfold keep. rewrite Hdt.
  unfold Eff.bind at 1, ret at 1.
  pose proof (keep_record self k c g w Hpk Hrow Hg) as H.
  unfold Eff.bind in *.
  destruct (save_date_expires settings env (set_date_expires None self) w)
    as [w1 [s1|e]]; [|done].
  destruct (derivations_update_date_expires s1 w1) as [w2 [u|e]]; [|done].
  unfold ret in *. simplify_eq. eexists. split; [reflexivity|]. done.
Qed.

(** X24: [keep] on a derived record keeps the original instead: the
    expiry date is cleared on the row of the record it is derived from
    and on the rows of all derivations of that record, the one [keep] was
    called on included, and on no other row.  The object [keep] was
    called on is not changed. *)
Theorem keep_on_a_derivation_keeps_the_original (self parent : StoredFile) (t k : Z)
    (c : ascii) (g : str) (w : World) :
  derivation_type self = Some t ->
  derived_from self = Some k ->
  find (fun r => bool_decide (pk r = Some k)) (rows w) = Some parent ->
  generated_filename parent = Some (c :: g) ->
  exists w',
    keep settings env self w = (w', Ok self)
    /\ rows w' = map (kept_row k) (rows w)
    /\ disk w' = disk w /\ images w' = images w.
Proof.
  intros Hdt Hdf Hfind Hg. unfold keep. rewrite Hdt.
  unfold get_derived_from. rewrite Hdf.
  unfold Eff.bind at 1. unfold Eff.bind at 1, get. rewrite Hfind. unfold ret at 1.
  assert (Hpk : pk parent = Some k).
  { apply find_some in Hfind as [_ H]. by apply bool_decide_eq_true in H. }
  assert (Hrow : has_row k (rows w) = true).
  { unfold has_row. apply existsb_exists. exists parent.
    apply find_some in Hfind as [Hin H]. done. }
  pose proof (keep_record parent k c g w Hpk Hrow Hg) as H.
  unfold Eff.bind in *.
  destruct (save_date_expires settings env (set_date_expires None parent) w)
    as [w1 [s1|e]]; [|done].
  destruct (derivations_update_date_expires s1 w1) as [w2 [u|e]]; [|done].
  unfold ret in *. simplify_eq. eexists. split; [reflexivity|]. done.
Qed.

End FurtherMethodsProperties.

Lemma write_to_disk_unsaved_witness :
  exists w' self',
    write_to_disk Fixtures.settings0 Fixtures.env_ok Fixtures.dotfile
      (HttpResponse (lit "data")) false (Fixtures.world_of [] 1)
    = (w', Ok self')
    /\ rows w' = [] /\ saves w' = [].
Proof.
  destruct (write_to_disk_unsaved Fixtures.settings0 Fixtures.env_ok Fixtures.dotfile
              (HttpResponse (lit "data")) (Fixtures.world_of [] 1) (lit ".bashrc")
              eq_refl (fun _ => eq_refl))
    as (w' & self' & path & H & _ & Hrows & Hsaves & _).
  exists w', self'. split; [exact H|]. split; [exact Hrows | exact Hsaves].
Defined.

Lemma write_to_disk_needs_the_directory_witness :
  exists w',
    write_to_disk Fixtures.settings0 Cases.env_no_dirs Fixtures.upload
      (HttpResponse (lit "data")) true (Fixtures.world_of [Fixtures.upload] 2)
    = (w', Raise OSError).
Proof.
  destruct (write_to_disk_needs_the_directory Fixtures.settings0 Cases.env_no_dirs
              Fixtures.upload (HttpResponse (lit "data")) true
              (Fixtures.world_of [Fixtures.upload] 2) (lit "photo.jpg")
              eq_refl (fun _ => eq_refl) (fun _ => eq_refl)) as (w' & H & _).
  exists w'. exact H.
Defined.

Lemma generate_immediate_derivations_unreadable_witness :
  generate_immediate_derivations Fixtures.settings0 Fixtures.env_undecodable
    Fixtures.AppFile (Cases.loaded Fixtures.corrupt_upload) None Cases.store
  = (Cases.store, Raise IOError).
Proof.
  eapply generate_immediate_derivations_unreadable; reflexivity.
Defined.

Lemma keep_clears_expiry_witness :
  exists w',
    keep Fixtures.settings0 Fixtures.env_ok Fixtures.upload Cases.store_with_thumbnail
    = (w', Ok (set_date_expires None Fixtures.upload))
    /\ rows w' = [set_date_expires None Fixtures.upload;
                  set_date_expires None Fixtures.thumbnail].
Proof.
  edestruct (keep_clears_expiry Fixtures.settings0 Fixtures.env_ok Fixtures.upload 1
               "a"%char (lit "/b/cdef0123.jpg") Cases.store_with_thumbnail)
    as (w' & H & Hrows & _).
  - reflexivity.
  - reflexivity.
  - reflexivity.
  - reflexivity.
  - exists w'. split; [exact H|]. rewrite Hrows. reflexivity.
Defined.

Lemma keep_on_a_derivation_keeps_the_original_witness :
  exists w',
    keep Fixtures.settings0 Fixtures.env_ok Fixtures.thumbnail Cases.store_with_thumbnail
    = (w', Ok Fixtures.thumbnail)
    /\ rows w' = [set_date_expires None Fixtures.upload;
                  set_date_expires None Fixtures.thumbnail].
Proof.
  edestruct (keep_on_a_derivation_keeps_the_original Fixtures.settings0 Fixtures.env_ok
               Fixtures.thumbnail Fixtures.upload 0 1
               "a"%char (lit "/b/cdef0123.jpg") Cases.store_with_thumbnail)
    as (w' & H & Hrows & _).
  - reflexivity.
  - reflexivity.
  - reflexivity.
  - reflexivity.
  - exists w'. split; [exact H|]. rewrite Hrows. reflexivity.
Defined.

(** ** The results of the upload view *)

Section Results.
Variable settings : Settings.
Variable env : Env.
Variable cls : StoredFileClass.

Lemma include_loop_uncached (ids : list str) (sf : Instance)
    (results : gmap str FileResult) (w : World) :
  (forall id, id ∈ ids -> cache_dict sf !! id = None) ->
  include_loop settings env cls ids sf results w = (w, Ok (sf, results)).
Proof.
  induction ids as [|id ids IH]; intros Hno; [done|]. simpl.
  rewrite bool_decide_eq_false_2.
  - apply IH. intros id' Hin. apply Hno. by right.
  - rewrite Hno by left. by intros [? ?].
Qed.

(** X25: [generate_results] reports only what is in the cache already:
    when none of the derivations asked for is in the cache of the record,
    the result has the one entry [file], and nothing is looked up,
    generated or changed. *)
Theorem generate_results_skips_uncached (ids : list str) (sf : Instance) (w : World)
    (f : FileResult) :
  file_result settings (columns sf) = Ok f ->
  (forall id, id ∈ ids -> cache_dict sf !! id = None) ->
  generate_results settings env cls ids sf w = (w, Ok (sf, {[ lit "file" := f ]})).
Proof.
  intros Hf Hno. unfold generate_results.
  unfold Eff.bind at 1, lift. rewrite Hf.
  destruct (_derivation_cache sf); [|done].
  by apply include_loop_uncached.
Qed.

Lemma cached_means_set_up (sf : Instance) (id : str) (v : option StoredFile) :
  cache_dict sf !! id = Some v -> exists c, _derivation_cache sf = Some c.
Proof.
  unfold cache_dict. destruct (_derivation_cache sf) as [c|]; [eauto|].
  simpl. by rewrite lookup_empty.
Qed.

(** X26: when the cache holds, for the first derivation asked for, a
    record marked LOCAL_CORRUPT, [_get_derivation] answers [None] and
    [generate_results] raises [AttributeError] reading its [hash]. *)
Theorem generate_results_fails_on_a_corrupt_derivation (id : str) (rest : list str)
    (sf : Instance) (w : World) (f : FileResult) (d : StoredFile)
    (rule : DerivationRule) :
  file_result settings (columns sf) = Ok f ->
  get_data_by_id (DERIVATION_TYPES cls) id = Some rule ->
  cache_dict sf !! id = Some (Some d) ->
  remote_status d = LOCAL_CORRUPT ->
  generate_results settings env cls (id :: rest) sf w
  = (w, Raise (AttributeError (lit "hash"))).
Proof.
  intros Hf Hrule Hc Hbad. unfold generate_results.
  unfold Eff.bind at 1, lift. rewrite Hf.
  destruct (cached_means_set_up sf id _ Hc) as [c ->].
  simpl. rewrite bool_decide_eq_true_2 by (rewrite Hc; eauto).
  destruct (get_derivation_found settings env cls sf id rule true false w d Hrule)
    as (sf' & Hget & _).
  { unfold looked_up. rewrite bool_decide_eq_true_2 by (rewrite Hc; eauto).
    simpl. by rewrite Hc. }
  unfold Eff.bind. rewrite Hget. unfold usable.
  rewrite bool_decide_eq_true_2 by done. done.
Qed.

(** X27: a usable derived record in the cache is reported under the
    lower-cased id of its type, beside [file], with the store left
    alone. *)
Theorem generate_results_reports_a_cached_derivation (id : str) (sf : Instance)
    (w : World) (f fd : FileResult) (d : StoredFile) (rule : DerivationRule) :
  file_result settings (columns sf) = Ok f ->
  get_data_by_id (DERIVATION_TYPES cls) id = Some rule ->
  cache_dict sf !! id = Some (Some d) ->
  remote_status d <> LOCAL_CORRUPT ->
  file_result settings d = Ok fd ->
  exists sf',
    generate_results settings env cls [id] sf w
    = (w, Ok (sf', <[lower id := fd]> {[ lit "file" := f ]}))
    /\ columns sf' = columns sf.
Proof.
  intros Hf Hrule Hc Hgood Hfd. unfold generate_results.
  unfold Eff.bind at 1, lift. rewrite Hf.
  destruct (cached_means_set_up sf id _ Hc) as [c ->].
  simpl. rewrite bool_decide_eq_true_2 by (rewrite Hc; eauto).
  destruct (get_derivation_found settings env cls sf id rule true false w d Hrule)
    as (sf' & Hget & _ & Hcols).
  { unfold looked_up. rewrite bool_decide_eq_true_2 by (rewrite Hc; eauto).
    simpl. by rewrite Hc. }
  unfold Eff.bind at 1. rewrite Hget. unfold usable.
  rewrite bool_decide_eq_false_2 by done. simpl.
  unfold Eff.bind, lift. rewrite Hfd. unfold ret.
  exists sf'. done.
Qed.

End Results.

Lemma generate_results_skips_uncached_witness :
  exists f,
    generate_results Fixtures.settings0 Fixtures.env_ok AbstractStoredFile
      [lit "THUMBNAIL"] (Cases.loaded Fixtures.upload) Cases.store
    = (Cases.store, Ok (Cases.loaded Fixtures.upload, {[ lit "file" := f ]})).
Proof.
  eexists.
  eapply (generate_results_skips_uncached Fixtures.settings0 Fixtures.env_ok
            AbstractStoredFile [lit "THUMBNAIL"] (Cases.loaded Fixtures.upload)
            Cases.store).
  - reflexivity.
  - intros id _. apply lookup_empty.
Defined.

Lemma generate_results_fails_on_a_corrupt_derivation_witness :
  generate_results Fixtures.settings0 Fixtures.env_ok AbstractStoredFile
    [lit "THUMBNAIL"] (Cases.cached Fixtures.upload Cases.bad_thumbnail)
    Cases.store_with_thumbnail
  = (Cases.store_with_thumbnail, Raise (AttributeError (lit "hash"))).
Proof.
  eapply (generate_results_fails_on_a_corrupt_derivation Fixtures.settings0
            Fixtures.env_ok AbstractStoredFile (lit "THUMBNAIL") []
            (Cases.cached Fixtures.upload Cases.bad_thumbnail)
            Cases.store_with_thumbnail _ Cases.bad_thumbnail Cases.thumbnail_rule).
  - reflexivity.
  - reflexivity.
  - apply lookup_singleton_eq.
  - reflexivity.
Defined.

Lemma generate_results_reports_a_cached_derivation_witness :
  exists sf' f fd,
    generate_results Fixtures.settings0 Fixtures.env_ok AbstractStoredFile
      [lit "THUMBNAIL"] (Cases.cached Fixtures.upload Fixtures.thumbnail)
      Cases.store_with_thumbnail
    = (Cases.store_with_thumbnail,
       Ok (sf', <[lit "thumbnail" := fd]> {[ lit "file" := f ]}))
    /\ result_url fd = lit "/media/c/0/ffee.jpg".
Proof.
  edestruct (generate_results_reports_a_cached_derivation Fixtures.settings0
               Fixtures.env_ok AbstractStoredFile (lit "THUMBNAIL")
               (Cases.cached Fixtures.upload Fixtures.thumbnail)
               Cases.store_with_thumbnail) as (sf' & H & _).
  - reflexivity.
  - reflexivity.
  - apply lookup_singleton_eq.
  - discriminate.
  - reflexivity.
  - exists sf'. do 2 eexists. split; [exact H | reflexivity].
Defined.

(** ** The file name taken from a URL *)

(** [rfind] answers the last place of the character. *)
Lemma rfind_from_last (c : ascii) (s : str) (i found : Z) :
  ((c ∉ s) /\ rfind_from c s i found = found)
  \/ (exists k : nat, s !! k = Some c /\ rfind_from c s i found = i + Z.of_nat k
                      /\ c ∉ drop (S k) s).
Proof.
  revert i found. induction s as [|a s IH]; intros i found; simpl.
  - left. split; [apply not_elem_of_nil | done].
  - destruct (IH (i + 1) (if Ascii.eqb a c then i else found))
      as [[Hn Hr] | (k & Hk & Hr & Hl)].
    + rewrite Hr. destruct (Ascii.eqb_spec a c) as [-> | Hne].
      * right. exists 0%nat. split; [done|]. split; [lia | done].
      * left. split; [|done]. rewrite elem_of_cons. intros [-> | ?]; done.
    + right. exists (S k). split; [done|]. split; [lia | done].
Qed.

Lemma rfind_last (c : ascii) (s : str) :
  ((c ∉ s) /\ rfind c s = -1)
  \/ (exists k : nat, s !! k = Some c /\ rfind c s = Z.of_nat k /\ c ∉ drop (S k) s).
Proof.
  unfold rfind. destruct (rfind_from_last c s 0 (-1)) as [? | (k & ? & ? & ?)]; [auto|].
  right. exists k. split; [done|]. split; [lia | done].
Qed.

(** [os.path.basename]: what follows the last [/]. *)
Lemma basename_spec (p : str) :
  ((PosixPath.sep ∉ p) /\ basename p = p)
  \/ (exists d, p = d ++ PosixPath.sep :: basename p /\ PosixPath.sep ∉ basename p).
Proof.
  unfold basename.
  destruct (rfind_last PosixPath.sep p) as [[Hn Hr] | (k & Hk & Hr & Hl)]; rewrite Hr.
  - left. split; [done|]. by destruct p.
  - right. pose proof (lookup_lt_Some _ _ _ Hk) as Hlt.
    replace (Z.of_nat k + 1) with (Z.of_nat (S k)) by lia.
    rewrite slice_from_drop by lia.
    exists (take k p). split; [|done].
    rewrite <- (take_drop k p) at 1. f_equal. by apply drop_S.
Qed.

Lemma split_from_0 (c : ascii) (s cur : str) :
  split_from c s 0 cur = [cur ++ s].
Proof.
  revert cur. induction s as [|a s IH]; intros cur; simpl.
  - by rewrite app_nil_r.
  - rewrite IH. by rewrite <- app_assoc.
Qed.

(** Splitting at the first separator. *)
Lemma split_from_plain (c : ascii) (x cur : str) (n : nat) :
  c ∉ x -> split_from c x n cur = [cur ++ x].
Proof.
  revert cur n. induction x as [|a x IH]; intros cur n Hx; simpl.
  - by rewrite app_nil_r.
  - apply not_elem_of_cons in Hx as [Ha Hx].
    destruct n as [|n].
    + rewrite IH by done. by rewrite <- app_assoc.
    + destruct (Ascii.eqb_spec a c); [congruence|].
      rewrite IH by done. by rewrite <- app_assoc.
Qed.

Lemma split_from_at (c : ascii) (x y cur : str) (n : nat) :
  c ∉ x ->
  split_from c (x ++ c :: y) (S n) cur = (cur ++ x) :: split_from c y n [].
Proof.
  revert cur. induction x as [|a x IH]; intros cur Hx; simpl.
  - rewrite Ascii.eqb_refl. by rewrite app_nil_r.
  - apply not_elem_of_cons in Hx as [Ha Hx].
    destruct (Ascii.eqb_spec a c); [congruence|].
    rewrite IH by done. by rewrite <- app_assoc.
Qed.

(** A string is free of the separator, or splits at its last one. *)
Lemma last_separator (c : ascii) (s : str) :
  (c ∉ s) \/ exists d n, s = d ++ c :: n /\ c ∉ n.
Proof.
  destruct (rfind_last c s) as [[Hn _] | (k & Hk & _ & Hl)]; [by left|].
  right. exists (take k s), (drop (S k) s). split; [|done].
  rewrite <- (take_drop k s) at 1. f_equal. by apply drop_S.
Qed.

Lemma not_elem_of_reverse (c : ascii) (s : str) : c ∉ s -> c ∉ reverse s.
Proof. intros H Hin. apply H. by apply elem_of_reverse. Qed.

(** What stands before the first separator is determined. *)
Lemma first_separator (c : ascii) (a b u v : str) :
  a ++ c :: u = b ++ c :: v -> c ∉ a -> c ∉ b -> a = b.
Proof.
  revert b. induction a as [|x a IH]; intros b E Ha Hb.
  - destruct b as [|y b]; [done|]. simpl in E. injection E as <- _.
    exfalso. apply Hb. left.
  - destruct b as [|y b].
    { simpl in E. injection E as -> _. exfalso. apply Ha. left. }
    simpl in E. injection E as <- E.
    apply not_elem_of_cons in Ha as [_ Ha], Hb as [_ Hb].
    f_equal. by apply IH.
Qed.

Lemma last_component (c : ascii) (d d' n n' : str) :
  d ++ c :: n = d' ++ c :: n' -> c ∉ n -> c ∉ n' -> n = n'.
Proof.
  intros E Hn Hn'. apply (f_equal reverse) in E.
  rewrite !reverse_app, !reverse_cons, <- !app_assoc in E. simpl in E.
  apply first_separator in E; [|by apply not_elem_of_reverse..].
  rewrite <- (reverse_involutive n), <- (reverse_involutive n'). by f_equal.
Qed.

(** [path.rsplit('/', 2)[-2]] for a path that ends with [/]. *)
Lemma rsplit_directory (s : str) :
  exists name,
    second_to_last (rsplit PosixPath.sep (s ++ [PosixPath.sep]) 2) = Ok name
    /\ (PosixPath.sep ∉ name)
    /\ (forall d n, s = d ++ PosixPath.sep :: n -> PosixPath.sep ∉ n -> name = n)
    /\ (PosixPath.sep ∉ s -> name = s).
Proof.
  unfold rsplit, second_to_last. rewrite reverse_involutive.
  rewrite reverse_app. simpl.
  destruct (last_separator PosixPath.sep s) as [Hn | (d & n & -> & Hn)].
  - rewrite split_from_plain by (by apply not_elem_of_reverse).
    simpl. rewrite reverse_involutive. exists s. repeat split; try done.
    intros d n -> _. exfalso. apply Hn. apply elem_of_app. right. left.
  - rewrite reverse_app, reverse_cons, <- app_assoc. simpl.
    rewrite split_from_at by (by apply not_elem_of_reverse).
    rewrite split_from_0. simpl. rewrite reverse_involutive.
    exists n. repeat split; try done.
    + intros d' n' E Hn'. by eapply last_component.
    + intros Hs. exfalso. apply Hs. apply elem_of_app. right. left.
Qed.

(** X28: the original file name [create_from_http_response] takes from
    the path of the URL: the empty path raises [IndexError]; for every
    other path the name is not empty and holds no [/]. *)
Theorem response_basename_spec (path : str) :
  (path = [] /\ response_basename path = Raise IndexError)
  \/ (exists name, response_basename path = Ok name
                   /\ name <> [] /\ PosixPath.sep ∉ name).
Proof.
  unfold response_basename.
  destruct (bool_decide_reflect (basename path = [])) as [Hb|Hb].
  - destruct (basename_spec path) as [[_ Hp] | (d & Hp & _)].
    + left. rewrite Hb in Hp. subst path. done.
    + right. rewrite Hb in Hp. rewrite Hp.
      destruct (rsplit_directory d) as (name & Hn & Hsep & _).
      replace (d ++ [PosixPath.sep]) with (d ++ [PosixPath.sep]) by done.
      rewrite Hn. simpl.
      destruct (bool_decide_reflect (name = [])) as [->|Hne].
      * exists (lit "_unknown_"). split; [done|]. split; [done|].
        apply (bool_decide_unpack _). vm_compute. exact I.
      * exists name. done.
  - right. exists (basename path). split; [done|]. split; [done|].
    destruct (basename_spec path) as [[Hs Hp] | (d & _ & Hs)]; [by rewrite Hp | done].
Qed.

(** X29: that name is the last component of the path: for [name],
    [dir/name] and [dir/name/] alike it is [name]. *)
Theorem response_basename_last_component (dir name : str) :
  name <> [] -> PosixPath.sep ∉ name ->
  response_basename name = Ok name
  /\ response_basename (dir ++ PosixPath.sep :: name) = Ok name
  /\ response_basename (dir ++ PosixPath.sep :: name ++ [PosixPath.sep]) = Ok name.
Proof.
  intros Hne Hsep.
  assert (Hfile : forall p, basename p = name -> response_basename p = Ok name).
  { intros p Hp. unfold response_basename. rewrite Hp.
    by rewrite bool_decide_eq_false_2. }
  assert (Hbase : forall d, basename (d ++ PosixPath.sep :: name) = name).
  { intros d. destruct (basename_spec (d ++ PosixPath.sep :: name))
      as [[Hs _] | (d' & Hp & Hs)].
    - exfalso. apply Hs. apply elem_of_app. right. left.
    - symmetry. by eapply last_component. }
  split; [|split].
  - apply Hfile. destruct (basename_spec name) as [[_ Hp] | (d & Hp & _)]; [done|].
    exfalso. apply Hsep. rewrite Hp. apply elem_of_app. right. left.
  - apply Hfile, Hbase.
  - unfold response_basename.
    assert (Hb : basename (dir ++ PosixPath.sep :: name ++ [PosixPath.sep]) = []).
    { destruct (basename_spec (dir ++ PosixPath.sep :: name ++ [PosixPath.sep]))
        as [[Hs _] | (d' & Hp & Hs)].
      - exfalso. apply Hs. apply elem_of_app. right. left.
      - revert Hp Hs.
        generalize (basename (dir ++ PosixPath.sep :: name ++ [PosixPath.sep])).
        intros b Hp Hs. apply (f_equal reverse) in Hp.
        rewrite !reverse_app, !reverse_cons, !reverse_app in Hp. simpl in Hp.
        destruct (reverse b) as [|y b'] eqn:Eb.
        + apply (f_equal reverse) in Eb. by rewrite reverse_involutive in Eb.
        + simpl in Hp. rewrite <- !app_assoc in Hp. simpl in Hp. injection Hp as <- _.
          exfalso. apply not_elem_of_reverse in Hs. rewrite Eb in Hs. apply Hs. left. }
    rewrite Hb. rewrite bool_decide_eq_true_2 by done.
    replace (dir ++ PosixPath.sep :: name ++ [PosixPath.sep])
      with ((dir ++ PosixPath.sep :: name) ++ [PosixPath.sep])
      by (by rewrite <- app_assoc).
    destruct (rsplit_directory (dir ++ PosixPath.sep :: name)) as (n & Hn & _ & Hlast & _).
    rewrite Hn. simpl. rewrite (Hlast dir name eq_refl Hsep).
    by rewrite bool_decide_eq_false_2.
Qed.

Lemma response_basename_last_component_witness :
  response_basename (lit "/photos/cat.jpg") = Ok (lit "cat.jpg")
  /\ response_basename (lit "/photos/2014/") = Ok (lit "2014").
Proof.
  split.
  - apply (response_basename_last_component (lit "/photos") (lit "cat.jpg")).
    + discriminate.
    + apply (bool_decide_unpack _). vm_compute. exact I.
  - apply (response_basename_last_component (lit "/photos") (lit "2014")).
    + discriminate.
    + apply (bool_decide_unpack _). vm_compute. exact I.
Defined.
